(** * POPBAM: consensus calls, linkage-disequilibrium and site-frequency engines

    A shallow embedding of [pop_utils.cpp], [pop_ld.cpp] and [pop_sfs.cpp].

    - C++ integers are [Z] with the wrap-around of their width written out;
      bit operations are [Z.land], [Z.lor], [Z.shiftl], [Z.shiftr].
    - [double] is the kernel's binary64 ([PrimFloat]); [float] is binary64
      restricted to binary32 values, every binary32 operation being the
      binary64 one followed by [F32.round].
    - Arrays are lists indexed by [Z]; counted [for] loops are [for_].
    - A conversion from floating point to an integer type that C++ leaves
      undefined (NaN, out of range) makes the enclosing function return
      [None]. *)

From Stdlib Require Import ZArith List Bool Lia Floats Ascii String.
From stdpp Require Import base list list_numbers strings gmap.

#[local] Set Warnings "-inexact-float".

Local Open Scope Z_scope.

(** ** Machine integers *)

Module Machine.

Definition wrap (w : Z) (x : Z) : Z := x mod 2 ^ w.
Definition wrap64 : Z -> Z := wrap 64.
Definition wrap32 : Z -> Z := wrap 32.
Definition wrap16 : Z -> Z := wrap 16.
Definition wrap8 : Z -> Z := wrap 8.

Definition CHAR_BIT : Z := 8.

(** Modelled from the spec: [bitcount64] of [popbam.h], the number of set
    bits of a 64-bit word. *)
Definition bitcount64 (x : Z) : Z :=
  fold_left (fun c i => if Z.testbit x i then c + 1 else c) (seqZ 0 64) 0.

(** Counted loop [for (i = lo; i < hi; ++i) s = body i s]. *)
Definition for_ {S : Type} (lo hi : Z) (body : Z -> S -> S) (s : S) : S :=
  fold_left (fun s i => body i s) (seqZ lo (hi - lo)) s.

(** Counted loop running downwards,
    [for (i = hi - 1; i >= lo; --i) s = body i s]. *)
Definition for_down {S : Type} (lo hi : Z) (body : Z -> S -> S) (s : S) : S :=
  fold_left (fun s i => body i s) (rev (seqZ lo (hi - lo))) s.

(** Array read and write at a [Z] index.  A read outside the list yields
    the default, a write outside the list leaves it as it is. *)
Definition rd {A : Type} (d : A) (l : list A) (i : Z) : A :=
  nth (Z.to_nat i) l d.
Definition wr {A : Type} (l : list A) (i : Z) (x : A) : list A :=
  if i <? 0 then l else <[Z.to_nat i := x]> l.

Global Arguments rd : simpl never.
Global Arguments wr : simpl never.

(** A zero-initialised array, [new T [len]()] or [calloc]. *)
Definition zeros (len : Z) : list Z := repeat 0 (Z.to_nat len).
Definition fzeros (len : Z) : list float := repeat 0%float (Z.to_nat len).

End Machine.
Import Machine.

(** ** Floating point *)

Module F64.

Definition t := float.

(** [(double) z] for an integer [z]. *)
Definition of_Z (z : Z) : float :=
  SF2Prim (binary_normalize prec emax z 0 false).

(** Truncation toward zero of a finite value; [None] on NaN and infinities. *)
Definition trunc (x : float) : option Z :=
  match Prim2SF x with
  | S754_zero _ => Some 0
  | S754_finite s m e =>
      let a := if 0 <=? e then Z.pos m * 2 ^ e else Z.pos m / 2 ^ (- e) in
      Some (if s then - a else a)
  | _ => None
  end.

(** [(T) x] for an integer type [T] holding [lo .. hi]: defined only when
    the truncated value is representable. *)
Definition to_int (lo hi : Z) (x : float) : option Z :=
  match trunc x with
  | Some z => if (lo <=? z) && (z <=? hi) then Some z else None
  | None => None
  end.

Definition to_ull : float -> option Z := to_int 0 (2 ^ 64 - 1).
Definition to_ulong : float -> option Z := to_int 0 (2 ^ 64 - 1).
Definition to_sint : float -> option Z := to_int (- 2 ^ 31) (2 ^ 31 - 1).

Definition isnan (x : float) : bool := PrimFloat.is_nan x.
Definition quiet_NaN : float := nan.

End F64.

Module F32.

(** Round a binary64 value to the nearest binary32 value, ties to even:
    the conversion [(float) x]. *)
Definition round (x : float) : float :=
  match Prim2SF x with
  | S754_finite s m e =>
      let digits := Z.log2 (Z.pos m) + 1 in
      let e' := Z.max (e + digits - 24) (- 149) in
      let sh := e' - e in
      let q := Z.shiftr (Z.pos m) sh in
      let r := Z.pos m - Z.shiftl q sh in
      let half := Z.shiftl 1 (sh - 1) in
      let up := (half <? r) || ((r =? half) && Z.odd q) in
      let q' := if sh <=? 0 then Z.pos m else if up then q + 1 else q in
      let e'' := if sh <=? 0 then e else e' in
      if 2 ^ 277 <=? q' * 2 ^ (e'' + 149)
      then (if s then neg_infinity else infinity)
      else if sh <=? 0 then x
      else
        let y := Z.ldexp (F64.of_Z q') e' in
        if s then (- y)%float else y
  | _ => x
  end.

Definition FLT_MAX : float := 0x1.fffffep+127%float.

Definition sub (a b : float) : float := round (a - b)%float.
Definition div (a b : float) : float := round (a / b)%float.

End F32.

(** ** The packed consensus word ("cb")

    Bit 0: passes the quality filters; bit 1: variant; bits 8-15: genotype
    (allele 1 in bits 10-11, allele 2 in bits 8-9); bits 16-31: number of
    reads; bits 32-47: SNP quality; bits 48-63: RMS mapping quality. *)

Module CallWord.

Definition passes (cb : Z) : Z := Z.land cb 0x1.
Definition variant (cb : Z) : Z := Z.land cb 0x2.
Definition genotype (cb : Z) : Z := Z.land (Z.shiftr cb CHAR_BIT) 0xff.
Definition allele1 (genotype : Z) : Z := Z.land (Z.shiftr genotype 2) 0x3.
Definition allele2 (genotype : Z) : Z := Z.land genotype 0x3.
Definition num_reads (cb : Z) : Z := Z.land (Z.shiftr cb (CHAR_BIT * 2)) 0xffff.
Definition snp_quality (cb : Z) : Z := Z.land (Z.shiftr cb (CHAR_BIT * 4)) 0xffff.
Definition rms (cb : Z) : Z := Z.land (Z.shiftr cb (CHAR_BIT * 6)) 0xffff.

Definition homozygous (cb : Z) : bool :=
  allele1 (genotype cb) =? allele2 (genotype cb).

End CallWord.

(** ** Macros and tables of the headers that are not part of the sources *)

(** Modelled from the spec: [NBASES], the size of the 4-symbol base
    alphabet ([popbam.h] is not among the sources). *)
Definition NBASES : Z := 4.

(** Modelled from the spec: [SQ(x)], the square, a macro of [popbam.h]. *)
Definition SQ (x : Z) : Z := x * x.

(** Modelled from the spec: [BINOM(x)], the binomial coefficient of x choose
    2 in integer arithmetic, a macro of [popbam.h]. *)
Definition BINOM (x : Z) : Z := Z.quot (x * (x - 1)) 2.

(** Modelled from the spec: [CHECK_BIT(var, pos)], the word [var] masked to
    its bit [pos], a macro of [popbam.h]. *)
Definition CHECK_BIT (var pos : Z) : Z := Z.land var (Z.shiftl 1 pos).

(** Modelled from the spec: the table [iupac] of [tables.h], the IUPAC letter
    of each of the sixteen allele pairs over the alphabet A, C, G, T, as
    character codes. *)
Definition iupac_std (genotype : Z) : Z :=
  rd 78 [65; 77; 82; 87; 77; 67; 83; 89; 82; 83; 71; 75; 87; 89; 75; 84] genotype.

(** Modelled from the spec: the table [iupac_rev] of [tables.h], the 2-bit
    code of a reference letter (A, C, G, T are 0, 1, 2, 3; any other letter
    is outside the alphabet). *)
Definition iupac_rev_std (ref : Z) : Z :=
  if ref =? 65 then 0 else if ref =? 67 then 1
  else if ref =? 71 then 2 else if ref =? 84 then 3 else 14.

(** ** pop_utils.cpp *)

Module Utils.

(** *** gl2cns *)

Record scan := { s_min_ij : Z; s_min : float; s_min_next : float }.

Definition gl2cns_visit (q : list float) (i j : Z) (s : scan) : scan :=
  let likelihood := rd 0%float q (Z.lor (Z.shiftl i 2) j) in
  if (likelihood <? s_min s)%float then
    {| s_min_ij := Z.lor (Z.shiftl i 2) j;
       s_min_next := s_min s;
       s_min := likelihood |}
  else if (likelihood <? s_min_next s)%float then
    {| s_min_ij := s_min_ij s; s_min := s_min s; s_min_next := likelihood |}
  else s.

Definition gl2cns_scan (q : list float) : scan :=
  for_ 0 NBASES (fun i => for_ i NBASES (fun j => gl2cns_visit q i j))
    {| s_min_ij := 0; s_min := F32.FLT_MAX; s_min_next := F32.FLT_MAX |}.

(** [(unsigned long long)((min_next - min) + 0.499)] *)
Definition gl2cns_gap (q : list float) : option Z :=
  let s := gl2cns_scan q in
  F64.to_ull (F32.sub (s_min_next s) (s_min s) + 0.499)%float.

Definition gl2cns (q : list float) (k : Z) : option Z :=
  match gl2cns_gap q with
  | Some g =>
      let snp_quality := wrap64 (Z.shiftl g (CHAR_BIT * 4)) in
      let num_reads := wrap64 (Z.shiftl k (CHAR_BIT * 2)) in
      let genotype := wrap64 (Z.shiftl (s_min_ij (gl2cns_scan q)) CHAR_BIT) in
      Some (wrap64 (snp_quality + num_reads + genotype))
  | None => None
  end.

(** *** qualFilter *)

Definition qualFilter_visit (min_rmsQ min_depth max_depth : Z) (i : Z)
    (st : list Z * Z) : list Z * Z :=
  let '(cb, coverage) := st in
  let rms := Z.land (Z.shiftr (rd 0 cb i) (CHAR_BIT * 6)) 0xffff in
  let num_reads := Z.land (Z.shiftr (rd 0 cb i) (CHAR_BIT * 2)) 0xffff in
  if (min_rmsQ <=? rms) && (min_depth <=? num_reads) && (num_reads <=? max_depth)
  then (wr cb i (Z.lor (rd 0 cb i) 0x1),
        Z.lor coverage (wrap64 (Z.shiftl 0x1 i)))
  else st.

(** Returns the filtered array and the coverage word. *)
Definition qualFilter (num_samples : Z) (cb : list Z)
    (min_rmsQ min_depth max_depth : Z) : list Z * Z :=
  for_ 0 num_samples (qualFilter_visit min_rmsQ min_depth max_depth) (cb, 0).

Section WithTables.

Variable iupac : Z -> Z.
Variable iupac_rev : Z -> Z.

(** *** segBase *)

Definition segBase_visit (ref min_snpq : Z) (i : Z)
    (st : list Z * list Z) : list Z * list Z :=
  let '(cb, baseCount) := st in
  let genotype := Z.land (Z.shiftr (rd 0 cb i) CHAR_BIT) 0xff in
  let allele1 := Z.land (Z.shiftr genotype 2) 0x3 in
  let allele2 := Z.land genotype 0x3 in
  let snp_quality := Z.land (Z.shiftr (rd 0 cb i) (CHAR_BIT * 4)) 0xffff in
  if (allele1 =? allele2) && negb (iupac genotype =? ref)
     && (min_snpq <=? snp_quality)
  then (wr cb i (Z.lor (rd 0 cb i) 0x2),
        wr baseCount allele1 (rd 0 baseCount allele1 + 1))
  else if (allele1 =? allele2) && negb (iupac genotype =? ref)
          && (snp_quality <? min_snpq)
  then
    let c1 := wrap64 (rd 0 cb i
                      - Z.shiftl (genotype - iupac_rev ref) CHAR_BIT) in
    let c2 := wrap64 (c1 - Z.shiftl (genotype - iupac_rev ref) (CHAR_BIT + 2)) in
    (wr cb i c2, baseCount)
  else st.

(** The check for the infinite-sites model: [j] counts the bases with a
    positive tally, [k] is the last of them. *)
Definition segBase_check (baseCount : list Z) : Z * Z :=
  for_ 0 NBASES
    (fun i '(j, k) => if 0 <? rd 0 baseCount i then (j + 1, i) else (j, k))
    (0, 0).

(** Returns the array after the pass and the function's result. *)
Definition segBase (num_samples : Z) (cb : list Z) (ref min_snpq : Z)
    : list Z * Z :=
  let '(cb', baseCount) :=
    for_ 0 num_samples (segBase_visit ref min_snpq) (cb, [0; 0; 0; 0]) in
  let '(j, k) := segBase_check baseCount in
  (cb', if 1 <? j then -1 else rd 0 baseCount k).

(** *** cleanHeterozygotes *)

Definition cleanHeterozygotes_word (ref min_snpq : Z) (w : Z) : Z :=
  let genotype := Z.land (Z.shiftr w CHAR_BIT) 0xff in
  let allele1 := Z.land (Z.shiftr genotype 2) 0x3 in
  let allele2 := Z.land genotype 0x3 in
  let snp_quality := Z.land (Z.shiftr w (CHAR_BIT * 4)) 0xffff in
  (* if heterozygous and high quality SNP--make homozygous derived *)
  let w1 :=
    if negb (allele1 =? allele2) && (min_snpq <=? snp_quality) then
      let a :=
        if allele1 =? iupac_rev ref
        then wrap64 (w + Z.shiftl (allele2 - allele1) (CHAR_BIT + 2)) else w in
      if allele2 =? iupac_rev ref
      then wrap64 (a - Z.shiftl (allele2 - allele1) CHAR_BIT) else a
    else w in
  (* if heterozygous but poor quality--make homozygous ancestral *)
  if negb (allele1 =? allele2) && (snp_quality <? min_snpq) then
    let a :=
      if negb (allele1 =? iupac_rev ref)
      then wrap64 (w1 + Z.shiftl (allele2 - allele1) (CHAR_BIT + 2)) else w1 in
    if negb (allele2 =? iupac_rev ref)
    then wrap64 (a - Z.shiftl (allele2 - allele1) CHAR_BIT) else a
  else w1.

Definition cleanHeterozygotes (num_samples : Z) (cb : list Z)
    (ref min_snpq : Z) : list Z :=
  for_ 0 num_samples
    (fun i cb => wr cb i (cleanHeterozygotes_word ref min_snpq (rd 0 cb i)))
    cb.

End WithTables.

(** *** errmod_cal *)

(** The structures of [popbam.h] as [errmod_cal] uses them: the tables of
    [errmod_coef_t] by index, and the sixteen per-symbol accumulators of
    [call_aux_t]. *)
Record errmod_coef_t := {
  fk : Z -> float; beta : Z -> float; lhet : Z -> float
}.
Record errmod_t := { depcorr : float; coef : errmod_coef_t }.
Record call_aux_t := { fsum : list float; bsum : list float; c : list Z }.

Definition frd (l : list float) (i : Z) : float := rd 0%float l i.

(** [memset(q, 0, count * sizeof(float))] *)
Definition memset_zero (q : list float) (count : Z) : list float :=
  repeat 0%float (Z.to_nat count) ++ drop (Z.to_nat count) q.

(** Modelled from the spec: [ks_introsort] of [ksort.h], which sorts the
    first [n] observations in increasing order (quality, then base). *)
Fixpoint insert_sorted (x : Z) (l : list Z) : list Z :=
  match l with
  | [] => [x]
  | y :: l' => if x <=? y then x :: l else y :: insert_sorted x l'
  end.
Definition ks_introsort (n : Z) (bases : list Z) : list Z :=
  fold_right insert_sorted [] (take (Z.to_nat n) bases)
  ++ drop (Z.to_nat n) bases.

Section Sampling.

(** [ks_shuffle] of [ksort.h]: a random rearrangement of the first [n]
    observations. *)
Variable ks_shuffle : Z -> list Z -> list Z.

(** calculate esum and fsum *)
Definition errmod_tally (em : errmod_t) (n : Z) (bases : list Z)
    : call_aux_t * list Z :=
  for_down 0 n
    (fun j '(aux, w) =>
       let b := rd 0 bases j in
       let q := if Z.shiftr b 5 <? NBASES then NBASES else Z.shiftr b 5 in
       let q := if 63 <? q then 63 else q in
       let k := Z.land b 0x1f in
       let s := Z.land k 0xf in
       let f := fk (coef em) (rd 0 w k) in
       let b :=
         beta (coef em)
           (Z.lor (Z.lor (Z.shiftl q 16) (Z.shiftl n 8)) (rd 0 (c aux) s)) in
       ({| fsum := wr (fsum aux) s (frd (fsum aux) s + f)%float;
           bsum := wr (bsum aux) s (frd (bsum aux) s + f * b)%float;
           c := wr (c aux) s (rd 0 (c aux) s + 1) |},
        wr w k (rd 0 w k + 1)))
    ({| fsum := fzeros 16; bsum := fzeros 16; c := zeros 16 |},
     zeros 32).

(** The sums of [bsum], [c] and [fsum] over the symbols that [skip]
    leaves: [tmp1] and [tmp3] are [float], [tmp2] is [int]. *)
Definition errmod_rest (aux : call_aux_t) (m : Z) (skip : Z -> bool)
    : float * Z * float :=
  for_ 0 m
    (fun k '(tmp1, tmp2, tmp3) =>
       if skip k then (tmp1, tmp2, tmp3)
       else (F32.round (tmp1 + frd (bsum aux) k)%float,
             tmp2 + rd 0 (c aux) k,
             F32.round (tmp3 + frd (fsum aux) k)%float))
    (0%float, 0, 0%float).

(** generate likelihood: the row of symbol [j].  ([bar_e] is assigned
    and never read.) *)
Definition errmod_row (em : errmod_t) (aux : call_aux_t) (m : Z) (j : Z)
    (q : list float) : list float :=
  (* homozygous *)
  let '(tmp1, tmp2, _) := errmod_rest aux m (fun k => k =? j) in
  let q := if negb (tmp2 =? 0) then wr q (j * m + j) tmp1 else q in
  (* heterozygous *)
  let q :=
    for_ (j + 1) m
      (fun k q =>
         let cjk := rd 0 (c aux) j + rd 0 (c aux) k in
         let '(tmp1, tmp2, _) :=
           errmod_rest aux m (fun i => (i =? j) || (i =? k)) in
         let l := lhet (coef em) (Z.lor (Z.shiftl cjk 8) (rd 0 (c aux) k)) in
         let het := (-4.343 * l)%float in
         let x :=
           if negb (tmp2 =? 0) then F32.round (het + tmp1)%float
           else F32.round het in
         wr (wr q (k * m + j) x) (j * m + k) x)
      q in
  for_ 0 m
    (fun k q =>
       if (frd q (j * m + k) <? 0)%float then wr q (j * m + k) 0%float else q)
    q.

(** Returns the function's result and the likelihood array.  The loops
    [for (j = 0; j != m; ++j)] are counted loops for [0 <= m]. *)
Definition errmod_cal (em : errmod_t) (n m : Z) (bases : list Z)
    (q : list float) : Z * list float :=
  if m >? m then (-1, q)
  else
    let q := memset_zero q (SQ m) in
    if n =? 0 then (0, q)
    else
      (* then sample 255 bases *)
      let '(bases, n) :=
        if 255 <? n then (ks_shuffle n bases, 255) else (bases, n) in
      let bases := ks_introsort n bases in
      let '(aux, _) := errmod_tally em n bases in
      (0, for_ 0 m (errmod_row em aux m) q).

End Sampling.

(** *** errmod_cal, with its undefined behaviour

    The definitions above give what [errmod_cal] stores and returns; those
    below also say when it does: [None] stands for a call outside the
    defined behaviour of C++. *)

(** [bar_e = (int)(tmp1 / tmp3 + 0.499); if (bar_e > 63) bar_e = 63;]
    The quotient of the two [float] is a [float] and the sum a [double];
    the conversion is undefined when the sum is NaN, infinite or outside
    the range of [int]. *)
Definition errmod_bar_e (tmp1 tmp3 : float) : option Z :=
  bar_e ← F64.to_sint (F32.div tmp1 tmp3 + 0.499)%float;
  Some (if 63 <? bar_e then 63 else bar_e).

(** generate likelihood: the row of symbol [j]. *)
Definition errmod_row_run (em : errmod_t) (aux : call_aux_t) (m : Z) (j : Z)
    (q : list float) : option (list float) :=
  (* homozygous *)
  let '(tmp1, tmp2, tmp3) := errmod_rest aux m (fun k => k =? j) in
  q ← (if negb (tmp2 =? 0)
       then errmod_bar_e tmp1 tmp3 ;; Some (wr q (j * m + j) tmp1)
       else Some q);
  (* heterozygous *)
  q ← for_ (j + 1) m
        (fun k oq =>
           q ← oq;
           let cjk := rd 0 (c aux) j + rd 0 (c aux) k in
           let '(tmp1, tmp2, tmp3) :=
             errmod_rest aux m (fun i => (i =? j) || (i =? k)) in
           let l := lhet (coef em) (Z.lor (Z.shiftl cjk 8) (rd 0 (c aux) k)) in
           let het := (-4.343 * l)%float in
           if negb (tmp2 =? 0) then
             errmod_bar_e tmp1 tmp3 ;;
             let x := F32.round (het + tmp1)%float in
             Some (wr (wr q (k * m + j) x) (j * m + k) x)
           else
             (* all the bases are either j or k *)
             let x := F32.round het in
             Some (wr (wr q (k * m + j) x) (j * m + k) x))
        (Some q);
  Some (for_ 0 m
          (fun k q =>
             if (frd q (j * m + k) <? 0)%float
             then wr q (j * m + k) 0%float else q)
          q).

(** The function's result and the likelihood array, or [None].  The array
    [q] holds the [m * m] likelihoods that [memset] clears and [bases] the
    [n] observations.  The accumulators [fsum], [bsum] and [c] of
    [call_aux_t] have sixteen entries: unless [0 <= m <= 16], the loop
    [for (k = 0; ...; k != m; ++k)] of the first row reads [aux.bsum[16]]
    before it ends. *)
Definition errmod_cal_run (ks_shuffle : Z -> list Z -> list Z)
    (em : errmod_t) (n m : Z) (bases : list Z) (q : list float)
    : option (Z * list float) :=
  if m >? m then Some (-1, q)
  else if Z.of_nat (length q) <? SQ m then None
  else
    let q := memset_zero q (SQ m) in
    if n =? 0 then Some (0, q)
    else if Z.of_nat (length bases) <? n then None
    else
      (* then sample 255 bases *)
      let '(bases, n) :=
        if 255 <? n then (ks_shuffle n bases, 255) else (bases, n) in
      let bases := ks_introsort n bases in
      let '(aux, _) := errmod_tally em n bases in
      if (0 <=? m) && (m <=? 16) then
        q ← for_ 0 m (fun j oq => q ← oq; errmod_row_run em aux m j q) (Some q);
        Some (0, q)
      else None.

End Utils.

(** ** pop_ld.cpp *)

Module LD.

(** The fields of [ldData] (and of its base class) that the window code
    reads or writes.  [end] is spelled [end_]; [sm->n] and [sm->npops] are
    [sm_n] and [sm_npops]; [ref_base] maps a position to its letter. *)
Record ldData := {
  beg : Z; end_ : Z;
  sm_n : Z; sm_npops : Z;
  flag : Z;
  min_snpQ : Z; min_rmsQ : Z; min_depth : Z; max_depth : Z;
  ref_base : Z -> Z;
  output : Z; min_snps : Z; min_freq : Z;
  pop_mask : list Z; pop_nsmpl : list Z;
  num_sites : Z; segsites : Z;
  types : list Z; pop_cov : list Z;
  num_snps : list Z;
  zns : list float; omegamax : list float;
  wallb : list float; wallq : list float
}.

Definition set_window (t : ldData) (ns ss : Z) (ty pc : list Z) : ldData :=
  {| beg := beg t; end_ := end_ t; sm_n := sm_n t; sm_npops := sm_npops t;
     flag := flag t; min_snpQ := min_snpQ t; min_rmsQ := min_rmsQ t;
     min_depth := min_depth t; max_depth := max_depth t;
     ref_base := ref_base t; output := output t; min_snps := min_snps t;
     min_freq := min_freq t; pop_mask := pop_mask t;
     pop_nsmpl := pop_nsmpl t;
     num_sites := ns; segsites := ss; types := ty; pop_cov := pc;
     num_snps := num_snps t; zns := zns t; omegamax := omegamax t;
     wallb := wallb t; wallq := wallq t |}.

Definition set_stats (t : ldData) (snps : list Z)
    (z o b q : list float) : ldData :=
  {| beg := beg t; end_ := end_ t; sm_n := sm_n t; sm_npops := sm_npops t;
     flag := flag t; min_snpQ := min_snpQ t; min_rmsQ := min_rmsQ t;
     min_depth := min_depth t; max_depth := max_depth t;
     ref_base := ref_base t; output := output t; min_snps := min_snps t;
     min_freq := min_freq t; pop_mask := pop_mask t;
     pop_nsmpl := pop_nsmpl t;
     num_sites := num_sites t; segsites := segsites t; types := types t;
     pop_cov := pop_cov t;
     num_snps := snps; zns := z; omegamax := o; wallb := b; wallq := q |}.

Definition set_pops (t : ldData) (mask nsmpl : list Z) : ldData :=
  {| beg := beg t; end_ := end_ t; sm_n := sm_n t; sm_npops := sm_npops t;
     flag := flag t; min_snpQ := min_snpQ t; min_rmsQ := min_rmsQ t;
     min_depth := min_depth t; max_depth := max_depth t;
     ref_base := ref_base t; output := output t; min_snps := min_snps t;
     min_freq := min_freq t; pop_mask := mask; pop_nsmpl := nsmpl;
     num_sites := num_sites t; segsites := segsites t; types := types t;
     pop_cov := pop_cov t;
     num_snps := num_snps t; zns := zns t; omegamax := omegamax t;
     wallb := wallb t; wallq := wallq t |}.

Definition set_num_snps (t : ldData) (snps : list Z) : ldData :=
  set_stats t snps (zns t) (omegamax t) (wallb t) (wallq t).
Definition set_zns (t : ldData) (z : list float) : ldData :=
  set_stats t (num_snps t) z (omegamax t) (wallb t) (wallq t).
Definition set_omegamax (t : ldData) (o : list float) : ldData :=
  set_stats t (num_snps t) (zns t) o (wallb t) (wallq t).
Definition set_wall (t : ldData) (b q : list float) : ldData :=
  set_stats t (num_snps t) (zns t) (omegamax t) b q.

(** *** init_ld, preceded by [t->num_sites = 0] of the window loop *)

Definition init_ld (t : ldData) : ldData :=
  let length := end_ t - beg t in
  let npops := sm_npops t in
  let t := set_window t (num_sites t) 0 (zeros length) (zeros length) in
  let t := set_pops t (zeros npops) (zeros npops) in
  let t := set_num_snps t (zeros npops) in
  if output t =? 1 then set_omegamax t (fzeros npops)
  else if output t =? 2 then set_wall t (fzeros npops) (fzeros npops)
  else set_zns t (fzeros npops).

Definition window_start (t : ldData) : ldData :=
  init_ld (set_window t 0 (segsites t) (types t) (pop_cov t)).

Section Pileup.

Variable iupac : Z -> Z.
Variable iupac_rev : Z -> Z.
(** The flag bit [BAM_HETEROZYGOTE] and the function [cal_site_type] are
    declared in [popbam.h]. *)
Variable BAM_HETEROZYGOTE : Z.
Variable cal_site_type : Z -> list Z -> Z.

(** *** make_ld

    [cb] is the array that [call_base] filled for the column at [pos]. *)
Definition make_ld (pos : Z) (cb : list Z) (t : ldData) : ldData :=
  (* only consider sites located in designated region *)
  if (beg t <=? pos) && (pos <? end_ t) then
    (* resolve heterozygous sites *)
    let cb :=
      if Z.land (flag t) BAM_HETEROZYGOTE =? 0
      then Utils.cleanHeterozygotes iupac_rev (sm_n t) cb
             (ref_base t pos) (min_snpQ t)
      else cb in
    (* determine if site is segregating *)
    let '(cb, fq) :=
      Utils.segBase iupac iupac_rev (sm_n t) cb (ref_base t pos) (min_snpQ t) in
    (* determine how many samples pass the quality filters *)
    let '(cb, sample_cov) :=
      Utils.qualFilter (sm_n t) cb (min_rmsQ t) (min_depth t) (max_depth t) in
    (* determine population coverage *)
    let pop_cov' :=
      for_ 0 (sm_npops t)
        (fun i pcv =>
           let pc := Z.land sample_cov (rd 0 (pop_mask t) i) in
           let ncov := bitcount64 pc in
           if ncov =? rd 0 (pop_nsmpl t) i
           then wr pcv (num_sites t)
                  (Z.lor (rd 0 pcv (num_sites t)) (wrap32 (Z.shiftl 0x1 i)))
           else pcv)
        (pop_cov t) in
    (* record site type if the site is variable *)
    if 0 <? rd 0 pop_cov' (num_sites t) then
      if 0 <? fq then
        set_window t (num_sites t + 1) (segsites t + 1)
          (wr (types t) (segsites t) (cal_site_type (sm_n t) cb)) pop_cov'
      else set_window t (num_sites t + 1) (segsites t) (types t) pop_cov'
    else set_window t (num_sites t) (segsites t) (types t) pop_cov'
  else t.

(** The pileup of one window: [make_ld] on each delivered column. *)
Definition pileup (cols : list (Z * list Z)) (t : ldData) : ldData :=
  fold_left (fun t c => make_ld (fst c) (snd c) t) cols t.

End Pileup.

(** *** calc_zns *)

(** [x >= min_freq && x <= n - min_freq] *)
Definition variable_in (t : ldData) (n x : Z) : bool :=
  (min_freq t <=? x) && (x <=? n - min_freq t).

(** [SQ(x0 * x1 - n * x11) / (double)((n - x0) * x0 * (n - x1) * x1)]:
    the numerator in [unsigned long long], the denominator in [int]. *)
Definition r2_of (n x0 x1 x11 : Z) : float :=
  (F64.of_Z (wrap64 (SQ (wrap64 (x0 * x1 - n * x11))))
   / F64.of_Z ((n - x0) * x0 * (n - x1) * x1))%float.

Definition calc_zns_pop (t : ldData) (i : Z) : Z * float :=
  let n := rd 0 (pop_nsmpl t) i in
  let '(snps, z) :=
    for_ 0 (segsites t - 1)
      (fun j '(snps, z) =>
         let type0 := Z.land (rd 0 (types t) j) (rd 0 (pop_mask t) i) in
         let x0 := wrap16 (bitcount64 type0) in
         if variable_in t n x0 then
           (snps + 1,
            for_ (j + 1) (segsites t)
              (fun k z =>
                 let type1 := Z.land (rd 0 (types t) k) (rd 0 (pop_mask t) i) in
                 let x1 := wrap16 (bitcount64 type1) in
                 if variable_in t n x1 then
                   let x11 := bitcount64 (Z.land type0 type1) in
                   (z + r2_of n x0 x1 x11)%float
                 else z)
              z)
         else (snps, z))
      (0, rd 0%float (zns t) i) in
  let snps := snps + 1 in
  (* get average pairwise r2 *)
  (snps, (z * (1 / F64.of_Z (BINOM snps)))%float).

Definition calc_zns (t : ldData) : ldData :=
  if segsites t <? 1 then t
  else
    for_ 0 (sm_npops t)
      (fun i t =>
         let '(snps, z) := calc_zns_pop t i in
         set_stats t (wr (num_snps t) i snps) (wr (zns t) i z)
           (omegamax t) (wallb t) (wallq t))
      t.

(** *** calc_omegamax *)

Definition rd2 (r2 : list (list float)) (a b : Z) : float :=
  rd 0%float (rd [] r2 a) b.
Definition wr2 (r2 : list (list float)) (a b : Z) (x : float)
    : list (list float) :=
  wr r2 a (wr (rd [] r2 a) b x).

Record r2_state := {
  m_snps : Z; count1 : Z; count2 : Z; r2 : list (list float)
}.

(** The pairwise comparisons: fills the matrix of r2 over the variable
    sites of population [j] and counts them. *)
Definition omega_matrix (t : ldData) (j : Z) : r2_state :=
  let n := rd 0 (pop_nsmpl t) j in
  for_ 0 (segsites t - 1)
    (fun i st =>
       let type0 := Z.land (rd 0 (types t) i) (rd 0 (pop_mask t) j) in
       let x0 := wrap16 (bitcount64 type0) in
       if variable_in t n x0 then
         let st :=
           for_ (i + 1) (segsites t)
             (fun k st =>
                let type1 := Z.land (rd 0 (types t) k) (rd 0 (pop_mask t) j) in
                let x1 := wrap16 (bitcount64 type1) in
                if variable_in t n x1 then
                  let c2 := count2 st + 1 in
                  let x11 := bitcount64 (Z.land type0 type1) in
                  let m := wr2 (r2 st) (count1 st) c2 (r2_of n x0 x1 x11) in
                  {| m_snps := m_snps st; count1 := count1 st; count2 := c2;
                     r2 := wr2 m c2 (count1 st) (rd2 m (count1 st) c2) |}
                else st)
             {| m_snps := m_snps st + 1; count1 := count1 st;
                count2 := count1 st; r2 := r2 st |} in
         {| m_snps := m_snps st; count1 := count1 st + 1;
            count2 := count2 st; r2 := r2 st |}
       else st)
    {| m_snps := 0; count1 := 0; count2 := 0;
       r2 := repeat (fzeros (segsites t)) (Z.to_nat (segsites t)) |}.

Record omega_state := {
  sumleft : float; sumright : float; sumbetween : float; omax : float
}.

(** One partition of the r2 matrix at split point [i]. *)
Definition omega_split (r2 : list (list float)) (snps : Z) (i : Z)
    (st : omega_state) : omega_state :=
  (* sum over SNPs to the left *)
  let sl :=
    for_ 0 i (fun k => for_ (k + 1) (i + 1)
                         (fun m s => (s + rd2 r2 k m)%float)) (sumleft st) in
  (* sum over SNPs on either side *)
  let sb :=
    for_ (i + 1) snps (fun k => for_ 0 (i + 1)
                                  (fun m s => (s + rd2 r2 k m)%float))
      (sumbetween st) in
  (* sum over SNPs to the right *)
  let sr :=
    for_ (i + 1) (snps - 1) (fun k => for_ (k + 1) snps
                                        (fun m s => (s + rd2 r2 k m)%float))
      (sumright st) in
  (* get numbers of SNPs in the partition *)
  let left := i + 1 in
  let right := snps - left in
  (* calculate omega for current partition *)
  let omega := ((sl + sr) / F64.of_Z (BINOM left + BINOM right))%float in
  let omega := (omega * (F64.of_Z (left * right) / sb))%float in
  (* update omega max *)
  {| sumleft := sl; sumright := sr; sumbetween := sb;
     omax := if (omax st <? omega)%float then omega else omax st |}.

Definition calc_omegamax_pop (t : ldData) (j : Z) : Z * float :=
  let st := omega_matrix t j in
  let snps := m_snps st + 1 in
  (snps,
   omax (for_ 1 (snps - 1) (omega_split (r2 st) snps)
           {| sumleft := 0; sumright := 0; sumbetween := 0; omax := 0 |})).

Definition calc_omegamax (t : ldData) : ldData :=
  if segsites t <? 1 then t
  else
    for_ 0 (sm_npops t)
      (fun j t =>
         let '(snps, o) := calc_omegamax_pop t j in
         set_stats t (wr (num_snps t) j snps) (zns t)
           (wr (omegamax t) j o) (wallb t) (wallq t))
      t.

(** *** calc_wall *)

Record wall_state := {
  last_type : Z;
  w_num_snps : list Z;
  num_congruent : list Z;
  num_part : list Z;
  uniq_part_types : list (list Z)
}.

(** The population specific type of site [i] and its complement. *)
Definition wall_masks (t : ldData) (i j : Z) : Z * Z :=
  for_ 0 (sm_n t)
    (fun k '(type, complem) =>
       if negb (Z.land (CHECK_BIT (rd 0 (types t) i) k)
                       (CHECK_BIT (rd 0 (pop_mask t) j) k) =? 0)
       then (Z.lor type (wrap64 (Z.shiftl 0x1 k)), complem)
       else if negb (Z.land (wrap64 (Z.lnot (CHECK_BIT (rd 0 (types t) i) k)))
                            (CHECK_BIT (rd 0 (pop_mask t) j) k) =? 0)
       then (type, Z.lor complem (wrap64 (Z.shiftl 0x1 k)))
       else (type, complem))
    (0, 0).

Definition count_occ_Z (l : list Z) (x : Z) : Z :=
  Z.of_nat (length (filter (fun y => y = x) l)).

Definition wall_visit (t : ldData) (i j : Z) (st : wall_state) : wall_state :=
  let '(type, complem) := wall_masks t i j in
  (* if the site is variable within the population of interest *)
  if (0 <? type) && (type <? rd 0 (pop_mask t) j) then
    (* is it the first segregating site? *)
    if rd 0 (w_num_snps st) j =? 0 then
      {| last_type := type;
         w_num_snps := wr (w_num_snps st) j (rd 0 (w_num_snps st) j + 1);
         num_congruent := num_congruent st;
         num_part := num_part st;
         uniq_part_types :=
           wr (uniq_part_types st) j (rd [] (uniq_part_types st) j ++ [type]) |}
    else
      let congruent := (type =? last_type st) || (complem =? last_type st) in
      let x := count_occ_Z (rd [] (uniq_part_types st) j) type in
      let y := count_occ_Z (rd [] (uniq_part_types st) j) complem in
      let novel := congruent && (x =? 0) && (y =? 0) in
      {| last_type := type;
         w_num_snps := wr (w_num_snps st) j (rd 0 (w_num_snps st) j + 1);
         num_congruent :=
           if congruent
           then wr (num_congruent st) j (rd 0 (num_congruent st) j + 1)
           else num_congruent st;
         num_part :=
           if novel then wr (num_part st) j (rd 0 (num_part st) j + 1)
           else num_part st;
         uniq_part_types :=
           if novel
           then wr (uniq_part_types st) j
                  (rd [] (uniq_part_types st) j ++ [type])
           else uniq_part_types st |}
  else st.

Definition wall_scan (t : ldData) : wall_state :=
  for_ 0 (segsites t)
    (fun i => for_ 0 (sm_npops t) (fun j => wall_visit t i j))
    {| last_type := 0;
       w_num_snps := num_snps t;
       num_congruent := zeros (sm_npops t);
       num_part := zeros (sm_npops t);
       uniq_part_types := repeat [] (Z.to_nat (sm_npops t)) |}.

Definition calc_wall (t : ldData) : ldData :=
  if segsites t <? 1 then t
  else
    let st := wall_scan t in
    (* calculate Wall's B statistic for each population *)
    for_ 0 (sm_npops t)
      (fun i t =>
         let congruent := F64.of_Z (rd 0 (num_congruent st) i) in
         let both :=
           F64.of_Z (rd 0 (num_congruent st) i + rd 0 (num_part st) i) in
         let snps := rd 0 (num_snps t) i in
         set_wall t
           (wr (wallb t) i (congruent / F64.of_Z (snps - 1))%float)
           (wr (wallq t) i (both / F64.of_Z snps)%float))
      (set_num_snps t (w_num_snps st)).

(** The dispatch of [main_ld]: [fp[t->output]]. *)
Definition calc_ld (t : ldData) : ldData :=
  if output t =? 0 then calc_zns t
  else if output t =? 1 then calc_omegamax t
  else calc_wall t.

(** *** print_ld *)

(** What is printed in the place of a statistic: the text [NA] or the
    digits of a [double]. *)
Inductive report := NA | Num (x : float).

(** For population [i]: the number printed after [S[..]] and the
    statistics that follow it. *)
Definition print_pop (t : ldData) (i : Z) : Z * list report :=
  (rd 0 (num_snps t) i,
   (* If window passes the minimum number of SNPs filter *)
   if min_snps t <=? rd 0 (num_snps t) i then
     if output t =? 1 then [Num (rd 0%float (omegamax t) i)]
     else if output t =? 2
     then [Num (rd 0%float (wallb t) i); Num (rd 0%float (wallq t) i)]
     else [Num (rd 0%float (zns t) i)]
   else
     if output t =? 2 then [NA; NA] else [NA]).

(** The printed line (after the coordinates: the number of aligned sites
    and one entry for each population) and the state left behind. *)
Definition print_ld (t : ldData) : (Z * list (Z * list report)) * ldData :=
  ((num_sites t, map (print_pop t) (seqZ 0 (sm_npops t))),
   if output t =? 2
   then for_ 0 (sm_npops t)
          (fun i t => set_wall t (wr (wallb t) i 0%float) (wr (wallq t) i 0%float))
          t
   else t).

(** One window of [main_ld] after the pileup: the statistic, then the
    printed line. *)
Definition report_ld (t : ldData) : Z * list (Z * list report) :=
  fst (print_ld (calc_ld t)).

End LD.

(** ** pop_sfs.cpp *)

Module SFS.

(** The fields of [sfsData] that [calc_sfs] and [print_sfs] read or
    write; [ncov] is indexed by population, then by segregating site. *)
Record sfsData := {
  beg : Z; end_ : Z;
  sm_n : Z; sm_npops : Z;
  flag : Z; outpop : Z; outidx : Z;
  min_sites : float;
  pop_mask : list Z;
  num_sites : Z; segsites : Z;
  types : list Z; pop_cov : list Z;
  ncov : list (list Z);
  a1 : list float; a2 : list float; e1 : list float; e2 : list float;
  dw : list (list float); hw : list (list float);
  ns : list Z; num_snps : list Z;
  td : list float; fwh : list float
}.

Definition set_results (t : sfsData) (ns' snps : list Z)
    (td' fwh' : list float) : sfsData :=
  {| beg := beg t; end_ := end_ t; sm_n := sm_n t; sm_npops := sm_npops t;
     flag := flag t; outpop := outpop t; outidx := outidx t;
     min_sites := min_sites t; pop_mask := pop_mask t;
     num_sites := num_sites t; segsites := segsites t; types := types t;
     pop_cov := pop_cov t; ncov := ncov t;
     a1 := a1 t; a2 := a2 t; e1 := e1 t; e2 := e2 t;
     dw := dw t; hw := hw t;
     ns := ns'; num_snps := snps; td := td'; fwh := fwh' |}.

Definition frd (l : list float) (i : Z) : float := rd 0%float l i.
Definition frd2 (l : list (list float)) (a b : Z) : float :=
  rd 0%float (rd [] l a) b.
Definition fwr2 (l : list (list float)) (a b : Z) (x : float)
    : list (list float) :=
  wr l a (wr (rd [] l a) b x).
Definition fsq (x : float) : float := (x * x)%float.

(** *** The constant tables, from the number of samples [n = sm->n] *)

Definition calc_a1 (n : Z) : list float :=
  for_ 2 (n + 1)
    (fun i a =>
       for_ 1 i (fun j a => wr a i (frd a i + 1 / F64.of_Z j)%float)
         (wr a i 0%float))
    (wr (wr (fzeros (n + 1)) 0 1%float) 1 1%float).

Definition calc_a2 (n : Z) : list float :=
  for_ 2 (n + 2)
    (fun i a =>
       for_ 1 i (fun j a => wr a i (frd a i + 1 / F64.of_Z (SQ j))%float)
         (wr a i 0%float))
    (wr (wr (fzeros (n + 2)) 0 1%float) 1 1%float).

Definition calc_e1 (n : Z) (a1 : list float) : list float :=
  for_ 2 (n + 1)
    (fun i e =>
       let b1 := ((F64.of_Z i + 1) / (3 * F64.of_Z (i - 1)))%float in
       wr e i ((b1 - 1 / frd a1 i) / frd a1 i)%float)
    (wr (wr (fzeros (n + 1)) 0 1%float) 1 1%float).

Definition calc_e2 (n : Z) (a1 a2 : list float) : list float :=
  for_ 2 (n + 1)
    (fun i e =>
       let b2 := ((2 * (F64.of_Z (SQ i + i) + 3))
                  / (9 * F64.of_Z i * F64.of_Z (i - 1)))%float in
       wr e i ((b2 - (F64.of_Z i + 2) / (frd a1 i * F64.of_Z i)
                + frd a2 i / fsq (frd a1 i))
               / (fsq (frd a1 i) + frd a2 i))%float)
    (wr (wr (fzeros (n + 1)) 0 1%float) 1 1%float).

Definition fmatrix (n : Z) : list (list float) :=
  repeat (fzeros (n + 1)) (Z.to_nat (n + 1)).

Definition calc_dw (sm_n : Z) (a1 : list float) : list (list float) :=
  for_ 2 (sm_n + 1)
    (fun n => for_ n (sm_n + 1)
       (fun i d =>
          fwr2 d n i (2 * F64.of_Z i * F64.of_Z (n - i) / F64.of_Z (SQ (n - 1))
                      - 1 / frd a1 n)%float))
    (fmatrix sm_n).

Definition calc_hw (sm_n : Z) (a1 : list float) : list (list float) :=
  for_ 2 (sm_n + 1)
    (fun n => for_ n (sm_n + 1)
       (fun i h =>
          fwr2 h n i (1 / frd a1 n - F64.of_Z i / F64.of_Z (n - 1))%float))
    (fmatrix sm_n).

Section Outgroup.

(** The flag bit [BAM_OUTGROUP] is declared in [popbam.h]. *)
Variable BAM_OUTGROUP : Z.

(** *** calc_sfs *)

(** count number of aligned sites in each population *)
Definition count_aligned (t : sfsData) : list Z :=
  for_ 0 (num_sites t)
    (fun i => for_ 0 (sm_npops t)
       (fun j ns =>
          if negb (CHECK_BIT (rd 0 (pop_cov t) i) j =? 0)
          then wr ns j (rd 0 ns j + 1) else ns))
    (ns t).

(** [(unsigned long int)((end - beg) * min_sites)] *)
Definition sites_threshold (t : sfsData) : option Z :=
  F64.to_ulong (F64.of_Z (end_ t - beg t) * min_sites t)%float.

Record spectrum := {
  sp_td : float; sp_fwh : float; avgn : Z; sp_snps : Z
}.

(** get site frequency spectra and number of segregating sites *)
Definition sfs_sites (t : sfsData) (i : Z) : spectrum :=
  for_ 0 (segsites t)
    (fun j sp =>
       let pop_type := Z.land (rd 0 (types t) j) (rd 0 (pop_mask t) i) in
       let cov := rd 0 (rd [] (ncov t) i) j in
       let freq :=
         if negb (Z.land (flag t) BAM_OUTGROUP =? 0)
            && (0 <? rd 0 (rd [] (ncov t) (outpop t)) j)
            && negb (CHECK_BIT (rd 0 (types t) j) (outidx t) =? 0)
         then wrap16 (cov - bitcount64 pop_type)
         else wrap16 (bitcount64 pop_type) in
       if (0 <? freq) && (freq <? cov) then
         {| sp_td := (sp_td sp + frd2 (dw t) cov freq)%float;
            sp_fwh := (sp_fwh sp + frd2 (hw t) cov freq)%float;
            avgn := avgn sp + cov;
            sp_snps := sp_snps sp + 1 |}
       else sp)
    {| sp_td := frd (td t) i; sp_fwh := frd (fwh t) i;
       avgn := 0; sp_snps := 0 |}.

(** finalize calculation of sfs statistics *)
Definition sfs_finalize (t : sfsData) (sp : spectrum)
    : option (Z * float * float) :=
  match F64.to_sint
          (F64.of_Z (avgn sp) / F64.of_Z (sp_snps sp) + 0.4999)%float with
  | Some n =>
      let s := F64.of_Z (sp_snps sp) in
      let s1 := F64.of_Z (sp_snps sp - 1) in
      let ss1 := F64.of_Z (sp_snps sp * (sp_snps sp - 1)) in
      let fn := F64.of_Z n in
      let td' :=
        (sp_td sp / sqrt (frd (e1 t) n * s + frd (e2 t) n * s * s1))%float in
      let fwh' :=
        (sp_fwh sp
         / sqrt (F64.of_Z (n - 2) * (s / frd (a1 t) n)
                 / (6 * F64.of_Z (n - 1))
                 + ss1 / (fsq (frd (a1 t) n) + frd (a2 t) n)
                   * (18 * F64.of_Z (SQ n) * (3 * fn + 2) * frd (a2 t) (n + 1)
                      - (88 * fn * fn * fn + 9 * F64.of_Z (SQ n)
                         - 13 * fn + 6))
                   / (9 * fn * F64.of_Z (SQ (n - 1)))))%float in
      Some (sp_snps sp, td', fwh')
  | None => None
  end.

(** The branch of [calc_sfs] for population [i], once the aligned sites
    are counted: the new [num_snps[i]], [td[i]] and [fwh[i]]. *)
Definition calc_sfs_pop (t : sfsData) (i : Z) : option (Z * float * float) :=
  match sites_threshold t with
  | Some threshold =>
      if threshold <=? rd 0 (ns t) i then sfs_finalize t (sfs_sites t i)
      else Some (rd 0 (num_snps t) i, F64.quiet_NaN, F64.quiet_NaN)
  | None => None
  end.

Definition calc_sfs (t : sfsData) : option sfsData :=
  let t := set_results t (count_aligned t) (num_snps t) (td t) (fwh t) in
  for_ 0 (sm_npops t)
    (fun i ot =>
       match ot with
       | Some t =>
           match calc_sfs_pop t i with
           | Some (snps, d, h) =>
               Some (set_results t (ns t) (wr (num_snps t) i snps)
                       (wr (td t) i d) (wr (fwh t) i h))
           | None => None
           end
       | None => None
       end)
    (Some t).

End Outgroup.

(** *** print_sfs *)

Definition print_stat (x : float) : LD.report :=
  if F64.isnan x then LD.NA else LD.Num x.

(** For population [i]: [ns[i]], then what is printed for D and for H. *)
Definition print_pop (t : sfsData) (i : Z) : Z * LD.report * LD.report :=
  (rd 0 (ns t) i, print_stat (frd (td t) i), print_stat (frd (fwh t) i)).

Definition print_sfs (t : sfsData) : list (Z * LD.report * LD.report) :=
  map (print_pop t) (seqZ 0 (sm_npops t)).

End SFS.

(** ** pop_sfs.cpp: the per-column driver of the SFS window *)

Module SFSPileup.

(** The fields that [make_sfs] reads besides those of [SFS.sfsData]: the
    thresholds of the base class, the reference letters, the sizes of the
    populations and [min_pop]. *)
Record options := {
  min_snpQ : Z; min_rmsQ : Z; min_depth : Z; max_depth : Z;
  ref_base : Z -> Z;
  pop_nsmpl : list Z;
  min_pop : float
}.

Definition set_window (t : SFS.sfsData) (ns' ss : Z) (ty pc : list Z)
    (nc : list (list Z)) : SFS.sfsData :=
  {| SFS.beg := SFS.beg t; SFS.end_ := SFS.end_ t;
     SFS.sm_n := SFS.sm_n t; SFS.sm_npops := SFS.sm_npops t;
     SFS.flag := SFS.flag t; SFS.outpop := SFS.outpop t;
     SFS.outidx := SFS.outidx t; SFS.min_sites := SFS.min_sites t;
     SFS.pop_mask := SFS.pop_mask t;
     SFS.num_sites := ns'; SFS.segsites := ss; SFS.types := ty;
     SFS.pop_cov := pc; SFS.ncov := nc;
     SFS.a1 := SFS.a1 t; SFS.a2 := SFS.a2 t;
     SFS.e1 := SFS.e1 t; SFS.e2 := SFS.e2 t;
     SFS.dw := SFS.dw t; SFS.hw := SFS.hw t;
     SFS.ns := SFS.ns t; SFS.num_snps := SFS.num_snps t;
     SFS.td := SFS.td t; SFS.fwh := SFS.fwh t |}.

(** [init_sfs], preceded by [t.num_sites = 0] of the window loop. *)
Definition init_sfs (t : SFS.sfsData) : SFS.sfsData :=
  let length := SFS.end_ t - SFS.beg t in
  let npops := SFS.sm_npops t in
  {| SFS.beg := SFS.beg t; SFS.end_ := SFS.end_ t;
     SFS.sm_n := SFS.sm_n t; SFS.sm_npops := SFS.sm_npops t;
     SFS.flag := SFS.flag t; SFS.outpop := SFS.outpop t;
     SFS.outidx := SFS.outidx t; SFS.min_sites := SFS.min_sites t;
     SFS.pop_mask := zeros npops;
     SFS.num_sites := SFS.num_sites t; SFS.segsites := 0;
     SFS.types := zeros length;
     SFS.pop_cov := zeros length;
     SFS.ncov := repeat (zeros length) (Z.to_nat npops);
     SFS.a1 := SFS.a1 t; SFS.a2 := SFS.a2 t;
     SFS.e1 := SFS.e1 t; SFS.e2 := SFS.e2 t;
     SFS.dw := SFS.dw t; SFS.hw := SFS.hw t;
     SFS.ns := zeros npops; SFS.num_snps := zeros npops;
     SFS.td := fzeros npops; SFS.fwh := fzeros npops |}.

Definition window_start (t : SFS.sfsData) : SFS.sfsData :=
  init_sfs (set_window t 0 (SFS.segsites t) (SFS.types t) (SFS.pop_cov t)
              (SFS.ncov t)).

(** create population assignments: [assign_pops] fills [pop_mask]. *)
Definition set_pops (t : SFS.sfsData) (mask : list Z) : SFS.sfsData :=
  {| SFS.beg := SFS.beg t; SFS.end_ := SFS.end_ t;
     SFS.sm_n := SFS.sm_n t; SFS.sm_npops := SFS.sm_npops t;
     SFS.flag := SFS.flag t; SFS.outpop := SFS.outpop t;
     SFS.outidx := SFS.outidx t; SFS.min_sites := SFS.min_sites t;
     SFS.pop_mask := mask;
     SFS.num_sites := SFS.num_sites t; SFS.segsites := SFS.segsites t;
     SFS.types := SFS.types t; SFS.pop_cov := SFS.pop_cov t;
     SFS.ncov := SFS.ncov t;
     SFS.a1 := SFS.a1 t; SFS.a2 := SFS.a2 t;
     SFS.e1 := SFS.e1 t; SFS.e2 := SFS.e2 t;
     SFS.dw := SFS.dw t; SFS.hw := SFS.hw t;
     SFS.ns := SFS.ns t; SFS.num_snps := SFS.num_snps t;
     SFS.td := SFS.td t; SFS.fwh := SFS.fwh t |}.

(** [(unsigned int)((t->min_pop * t->pop_nsmpl[i]) + 0.4999)] *)
Definition required (o : options) (i : Z) : option Z :=
  let n := F64.of_Z (rd 0 (pop_nsmpl o) i) in
  F64.to_int 0 (2 ^ 32 - 1) (min_pop o * n + 0.4999)%float.

Definition wr2 (l : list (list Z)) (a b : Z) (x : Z) : list (list Z) :=
  wr l a (wr (rd [] l a) b x).

Section Pileup.

Variable iupac : Z -> Z.
Variable iupac_rev : Z -> Z.
Variable BAM_HETEROZYGOTE : Z.
Variable cal_site_type : Z -> list Z -> Z.

(** determine population coverage: the local array [ncov] and the word
    [pop_cov[num_sites]]. *)
Definition coverage (o : options) (t : SFS.sfsData) (sample_cov : Z)
    : option (list Z * list Z) :=
  for_ 0 (SFS.sm_npops t)
    (fun i st =>
       match st with
       | Some (ncov, pcv) =>
           let pc := Z.land sample_cov (rd 0 (SFS.pop_mask t) i) in
           let n := bitcount64 pc in
           match required o i with
           | Some req =>
               Some (wr ncov i n,
                     if req <=? n
                     then wr pcv (SFS.num_sites t)
                            (Z.lor (rd 0 pcv (SFS.num_sites t))
                               (wrap32 (Z.shiftl 0x1 i)))
                     else pcv)
           | None => None
           end
       | None => None
       end)
    (Some (zeros (SFS.sm_npops t), SFS.pop_cov t)).

(** [cb] is the array that [call_base] filled for the column at [pos];
    [None] when a conversion to [unsigned int] is undefined.  As in
    [LD.make_ld], the calls [clean_heterozygotes], [segbase] and [qfilter]
    are those of [cleanHeterozygotes], [segBase] and [qualFilter] of
    pop_utils.cpp. *)
Definition make_sfs (o : options) (pos : Z) (cb : list Z) (t : SFS.sfsData)
    : option SFS.sfsData :=
  (* only consider sites located in designated region *)
  if (SFS.beg t <=? pos) && (pos <? SFS.end_ t) then
    (* resolve heterozygous sites *)
    let cb :=
      if Z.land (SFS.flag t) BAM_HETEROZYGOTE =? 0
      then Utils.cleanHeterozygotes iupac_rev (SFS.sm_n t) cb
             (ref_base o pos) (min_snpQ o)
      else cb in
    (* determine if site is segregating *)
    let '(cb, fq) :=
      Utils.segBase iupac iupac_rev (SFS.sm_n t) cb (ref_base o pos)
        (min_snpQ o) in
    (* determine how many samples pass the quality filters *)
    let '(cb, sample_cov) :=
      Utils.qualFilter (SFS.sm_n t) cb (min_rmsQ o) (min_depth o)
        (max_depth o) in
    match coverage o t sample_cov with
    | Some (ncov, pop_cov') =>
        (* record site type if the site is variable *)
        if 0 <? rd 0 pop_cov' (SFS.num_sites t) then
          if 0 <? fq then
            let ncov' :=
              for_ 0 (SFS.sm_npops t)
                (fun j nc => wr2 nc j (SFS.segsites t) (rd 0 ncov j))
                (SFS.ncov t) in
            Some (set_window t (SFS.num_sites t + 1) (SFS.segsites t + 1)
                    (wr (SFS.types t) (SFS.segsites t)
                       (cal_site_type (SFS.sm_n t) cb))
                    pop_cov' ncov')
          else Some (set_window t (SFS.num_sites t + 1) (SFS.segsites t)
                       (SFS.types t) pop_cov' (SFS.ncov t))
        else Some (set_window t (SFS.num_sites t) (SFS.segsites t)
                     (SFS.types t) pop_cov' (SFS.ncov t))
    | None => None
    end
  else Some t.

(** The pileup of one window: [make_sfs] on each delivered column. *)
Definition pileup (o : options) (cols : list (Z * list Z)) (t : SFS.sfsData)
    : option SFS.sfsData :=
  fold_left
    (fun ot c =>
       match ot with
       | Some t => make_sfs o (fst c) (snd c) t
       | None => None
       end)
    cols (Some t).

End Pileup.

End SFSPileup.

(** ** Texts: std::string, C strings and the functions of the libraries *)

Module Text.

(** A [std::string], or a C string without its final NUL; no text holds a
    NUL character. *)
Abbreviation text := (list ascii).

Definition lit (s : string) : text := list_ascii_of_string s.

(** [std::string::npos], the largest [size_t]. *)
Definition npos : Z := 2 ^ 64 - 1.

(** The position of the first character for which [p] holds, counted from
    [i]; [npos] when there is none. *)
Fixpoint find_if (p : ascii -> bool) (s : text) (i : Z) : Z :=
  match s with
  | [] => npos
  | c :: s' => if p c then i else find_if p s' (i + 1)
  end.

(** [s.find(c)] for a one-character string [c]. *)
Definition find (c : ascii) (s : text) : Z := find_if (Ascii.eqb c) s 0.

(** [s.find_first_not_of(set)] *)
Definition find_first_not_of (set : text) (s : text) : Z :=
  find_if (fun c => negb (existsb (Ascii.eqb c) set)) s 0.

(** [std::count(s.begin(), s.end(), c)] *)
Definition count (c : ascii) (s : text) : Z :=
  Z.of_nat (length (filter (fun x => x = c) s)).

(** [s.erase(std::remove(s.begin(), s.end(), c), s.end())] *)
Definition remove (c : ascii) (s : text) : text := filter (fun x => x <> c) s.

(** [s.substr(pos, n)]: the characters from [pos], [n] of them at most;
    [None] is the exception [std::out_of_range], thrown when [pos] is past
    the end. *)
Definition substr (s : text) (pos n : Z) : option text :=
  if Z.of_nat (length s) <? pos then None
  else Some (take (Z.to_nat (Z.min n (Z.of_nat (length s) - pos)))
               (drop (Z.to_nat pos) s)).

(** [isspace] and the value of a decimal digit, in the C locale. *)
Definition isspace (c : ascii) : bool :=
  let n := Z.of_N (N_of_ascii c) in (n =? 32) || ((9 <=? n) && (n <=? 13)).

Definition digit (c : ascii) : option Z :=
  let n := Z.of_N (N_of_ascii c) in
  if (48 <=? n) && (n <=? 57) then Some (n - 48) else None.

Fixpoint skip_spaces (s : text) : text :=
  match s with
  | c :: s' => if isspace c then skip_spaces s' else s
  | [] => []
  end.

Fixpoint digits_value (acc : Z) (s : text) : Z :=
  match s with
  | c :: s' =>
      match digit c with
      | Some d => digits_value (10 * acc + d) s'
      | None => acc
      end
  | [] => acc
  end.

(** [atoi]: optional white space, an optional sign, then the longest run
    of digits.  The C standard leaves the result undefined ([None]) when
    the value is not an [int]. *)
Definition atoi (s : text) : option Z :=
  let s := skip_spaces s in
  let '(negative, s) :=
    match s with
    | c :: s' =>
        if Ascii.eqb c "-" then (true, s')
        else if Ascii.eqb c "+" then (false, s') else (false, s)
    | [] => (false, s)
    end in
  let v := digits_value 0 s in
  let v := if negative then - v else v in
  if (- 2 ^ 31 <=? v) && (v <=? 2 ^ 31 - 1) then Some v else None.

(** Whether [s] starts with [pat]. *)
Fixpoint starts_with (pat s : text) : bool :=
  match pat, s with
  | [], _ => true
  | p :: pat', c :: s' => Ascii.eqb p c && starts_with pat' s'
  | _ :: _, [] => false
  end.

(** [strstr(s, pat)]: the suffix of [s] at the first occurrence of [pat]. *)
Fixpoint strstr (s pat : text) : option text :=
  if starts_with pat s then Some s
  else match s with
       | [] => None
       | _ :: s' => strstr s' pat
       end.

(** The character of a decimal digit. *)
Definition digit_char (d : Z) : ascii := ascii_of_N (Z.to_N (48 + d)).

Fixpoint decimal_digits (fuel : nat) (n : Z) (acc : text) : text :=
  match fuel with
  | O => acc
  | S fuel' =>
      let acc := digit_char (n mod 10) :: acc in
      if n <? 10 then acc else decimal_digits fuel' (n / 10) acc
  end.

(** [os << n] for an integer [n]: its decimal digits, after a minus sign
    when it is negative. *)
Definition decimal (n : Z) : text :=
  if n <? 0
  then "-"%char :: decimal_digits (S (Z.to_nat (Z.log2 (- n)))) (- n) []
  else decimal_digits (S (Z.to_nat (Z.log2 n))) n [].

End Text.

(** ** pop_utils.cpp: the sequence dictionary and region strings *)

Module Region.

Import Text.

(** The fields of [bam_header_t] ([bam.h]) that the region parser reads:
    the number of reference sequences, their names, their lengths (as the
    [int] that [*end = header->target_len[*ref_id]] stores) and the hash
    table from names to indices, [None] while it is not built.  The table
    of [khash.h] is a finite map: [kh_put] followed by the assignment of
    [kh_value] is an insertion that replaces the value of a key already
    present. *)
Record bam_header_t := {
  n_targets : Z;
  target_name : list text;
  target_len : list Z;
  hash : option (gmap text Z)
}.

Definition bam_init_header_hash (header : bam_header_t) : bam_header_t :=
  match hash header with
  | Some _ => header
  | None =>
      {| n_targets := n_targets header;
         target_name := target_name header;
         target_len := target_len header;
         hash :=
           Some (for_ 0 (n_targets header)
                   (fun i h => <[rd [] (target_name header) i := i]> h)
                   ∅) |}
  end.

(** What [bam_parse_region] returns and stores through its pointers. *)
Record parsed := { ret : Z; ref_id : Z; p_beg : Z; p_end : Z }.

(** [None]: the call has no defined result ([atoi] out of range, or an
    exception).  The header is returned with its hash table built. *)
Definition bam_parse_region (header : bam_header_t) (region : text)
    : bam_header_t * option parsed :=
  let header := bam_init_header_hash header in
  let h := default ∅ (hash header) in
  (header,
   (* remove spaces and commas *)
   let region := remove "," (remove " " region) in
   let l := Z.of_nat (length region) in
   (* look for colon from the end *)
   let name_end := find ":" region in
   let name_end := if name_end =? npos then l else name_end in
   (* check if this is really the end *)
   '(name_end, iter) ←
     (if name_end <? l then
        coords ← substr region (name_end + 1) npos;
        let n_hyphen := count "-" coords in
        let n_nondigits := find_first_not_of (lit "0123456789,-") coords in
        (* malformated region string; then take str as the name *)
        let name_end :=
          if negb (n_nondigits =? npos) || (1 <? n_hyphen) then l
          else name_end in
        scaffold_name ← substr region 0 name_end;
        match h !! scaffold_name with
        | Some id => Some (name_end, Some id)
        | None =>
            (* try the entire region string as the lookup key *)
            Some (name_end, h !! region)
        end
      else Some (name_end, h !! region));
   match iter with
   | None => Some {| ret := -1; ref_id := -1; p_beg := -1; p_end := -1 |}
   | Some id =>
       (* parse the interval *)
       if name_end <? l then
         coords ← substr region (name_end + 1) npos;
         let parse := find "-" coords in
         first ← substr coords 0 parse;
         b ← atoi first;
         let b := if 0 <? b then b - 1 else b in
         last ← substr coords (wrap64 (parse + 1)) npos;
         e ← atoi last;
         Some {| ret := if b <=? e then 0 else -1;
                 ref_id := id; p_beg := b; p_end := e |}
       else
         let e := rd 0 (target_len header) id in
         Some {| ret := if 0 <=? e then 0 else -1;
                 ref_id := id; p_beg := 0; p_end := e |}
   end).

(** How a call ends: with a value, in [fatalError] (which prints the
    message and calls [exit(EXIT_FAILURE)]), or outside the defined
    behaviour of C++. *)
Inductive outcome (A : Type) : Type :=
| Returns (a : A)
| Exits
| Undefined.
Arguments Returns {A} a.
Arguments Exits {A}.
Arguments Undefined {A}.

(** The number of characters before the first tab, newline or end. *)
Fixpoint field_length (u : text) : Z :=
  match u with
  | c :: u' =>
      if Ascii.eqb c "009" || Ascii.eqb c "010" then 0 else 1 + field_length u'
  | [] => 0
  end.

(** The buffer that [get_refid] allocates. *)
Definition idblock : Z := 200.

(** The characters of the field after [AS:], which [strncpy] copies into
    the buffer of [idblock] characters before the final NUL is stored at
    index [z]: a field of [idblock] characters or more overruns the
    buffer. *)
Definition get_refid (htext : text) : outcome text :=
  match strstr htext (lit "AS:") with
  | None => Exits
  | Some v =>
      let u := drop 3 v in
      let z := field_length u in
      if z <? idblock then Returns (take (Z.to_nat z) u) else Undefined
  end.

End Region.

(** ** pop_ld.cpp, pop_sfs.cpp: the windows of [main_ld] and [main_sfs] *)

Module Windows.

Import Text Region.

(** calculate the number of windows; the division by a [win_size] of zero
    is undefined.  [win_size] is a member declared in a header that is not
    among the sources: for [beg < end] and a positive [win_size] the
    quotient is the same whether it is an [int] or an [unsigned int]. *)
Definition num_windows (flag BAM_WINDOW beg end_ win_size : Z) : option Z :=
  if negb (Z.land flag BAM_WINDOW =? 0) then
    if win_size =? 0 then None else Some (Z.quot (end_ - beg - 1) win_size)
  else Some 1.

(** construct genome coordinate string *)
Definition window_coord (scaffold_name : text) (beg cw win_size : Z) : text :=
  scaffold_name ++ lit ":" ++ decimal (beg + cw * win_size + 1)
    ++ lit "-" ++ decimal ((cw + 1) * win_size + (beg - 1)).

(** The reference index and the bounds [t->beg] and [t->end] of window
    [cw], for the region [beg, end) of sequence [chr]; [main_sfs] has the
    same statements, with [fatal_error] for [fatalError]. *)
Definition window_bounds (header : bam_header_t) (flag BAM_WINDOW : Z)
    (chr beg end_ win_size cw : Z) : bam_header_t * outcome (Z * Z * Z) :=
  if negb (Z.land flag BAM_WINDOW =? 0) then
    let winCoord :=
      window_coord (rd [] (target_name header) chr) beg cw win_size in
    match bam_parse_region header winCoord with
    | (header, Some p) =>
        if ret p <? 0 then (header, Exits)
        else (header, Returns (ref_id p, p_beg p, p_end p))
    | (header, None) => (header, Undefined)
    end
  else if chr <? 0 then (header, Exits)
  else (header, Returns (chr, beg, end_)).

End Windows.

(** * Vocabulary of the properties *)

(** ** The window driver *)

(** The position [pos] lies in the window [beg, end). *)
Definition in_window (t : LD.ldData) (pos : Z) : bool :=
  (LD.beg t <=? pos) && (pos <? LD.end_ t).

(** What one call of [make_ld] does to the counters and to [types]. *)
Inductive ld_step (t t' : LD.ldData) : Prop :=
| ld_skip :
    LD.num_sites t' = LD.num_sites t ->
    LD.segsites t' = LD.segsites t ->
    LD.types t' = LD.types t ->
    ld_step t t'
| ld_aligned :
    LD.num_sites t' = LD.num_sites t + 1 ->
    LD.segsites t' = LD.segsites t ->
    LD.types t' = LD.types t ->
    ld_step t t'
| ld_segregating (v : Z) :
    LD.num_sites t' = LD.num_sites t + 1 ->
    LD.segsites t' = LD.segsites t + 1 ->
    LD.types t' = wr (LD.types t) (LD.segsites t) v ->
    ld_step t t'.

(** The window invariant, relative to the number [k] of columns of the
    window delivered so far. *)
Record ld_inv (t0 t : LD.ldData) (k : Z) : Prop := {
  inv_beg : LD.beg t = LD.beg t0;
  inv_end : LD.end_ t = LD.end_ t0;
  inv_seg : 0 <= LD.segsites t <= LD.num_sites t;
  inv_sites : LD.num_sites t <= k;
  inv_len : Z.of_nat (length (LD.types t)) = LD.end_ t0 - LD.beg t0
}.

(** The positions of the window among the delivered columns. *)
Definition delivered (t0 : LD.ldData) (cols : list (Z * list Z)) : list Z :=
  filter (fun p => in_window t0 p = true) (map fst cols).

(** ** Site classification *)

(** The calls that [segBase] tallies: homozygous, different from the
    reference letter, with a SNP quality of at least [min_snpq]. *)
Definition tallied (iupac : Z -> Z) (ref min_snpq : Z) (w : Z) : bool :=
  CallWord.homozygous w
  && negb (iupac (CallWord.genotype w) =? ref)
  && (min_snpq <=? CallWord.snp_quality w).

(** The base of a homozygous call. *)
Definition call_base (w : Z) : Z := CallWord.allele1 (CallWord.genotype w).

(** After the samples below [i]: the cells from [i] on are untouched, the
    tallies are non-negative and positive at each base already tallied. *)
Record seg_inv (iupac : Z -> Z) (ref min_snpq : Z) (cb : list Z)
    (i : Z) (st : list Z * list Z) : Prop := {
  seg_len : length (snd st) = 4%nat;
  seg_nonneg : forall a, 0 <= a -> 0 <= rd 0 (snd st) a;
  seg_rest : forall k, i <= k -> rd 0 (fst st) k = rd 0 cb k;
  seg_tally : forall k, 0 <= k < i -> tallied iupac ref min_snpq (rd 0 cb k) = true ->
                0 < rd 0 (snd st) (call_base (rd 0 cb k))
}.

(** ** The consensus word *)

(** The ten genotype pairs [(i, j)] with [i <= j], in the order of the
    loops, and the index [i << 2 | j] of a pair. *)
Definition genotype_pairs : list (Z * Z) :=
  [(0, 0); (0, 1); (0, 2); (0, 3); (1, 1); (1, 2); (1, 3); (2, 2); (2, 3); (3, 3)].
Definition pair_index (p : Z * Z) : Z := Z.lor (Z.shiftl (fst p) 2) (snd p).
Definition genotype_indices : list Z := map pair_index genotype_pairs.

(** The cost of the pair of index [ij]: its likelihood. *)
Definition cost (q : list float) (ij : Z) : float := rd 0%float q ij.

(** No pair among [ijs] costs less than [x]. *)
Definition no_cost_below (q : list float) (ijs : list Z) (x : float) : Prop :=
  forall ij, In ij ijs -> (cost q ij <? x)%float = false.

(** The state in which the scan of [gl2cns] starts. *)
Definition scan_start : Utils.scan :=
  {| Utils.s_min_ij := 0; Utils.s_min := F32.FLT_MAX;
     Utils.s_min_next := F32.FLT_MAX |}.

(** The state of the scan after the pairs [seen]: either no cost was below
    [FLT_MAX] and the state is the initial one, or [s_min] is the cost of
    the selected pair, the least of the costs seen, and [s_min_next] is
    the least cost of the other pairs seen (or [FLT_MAX]). *)
Inductive scan_inv (q : list float) (seen : list Z) (s : Utils.scan) : Prop :=
| scan_none :
    s = scan_start -> no_cost_below q seen F32.FLT_MAX -> scan_inv q seen s
| scan_some :
    In (Utils.s_min_ij s) seen ->
    Utils.s_min s = cost q (Utils.s_min_ij s) ->
    no_cost_below q seen (Utils.s_min s) ->
    (forall ij, In ij seen -> ij <> Utils.s_min_ij s ->
       (cost q ij <? Utils.s_min_next s)%float = false) ->
    (Utils.s_min_next s = F32.FLT_MAX
     \/ exists ij, In ij seen /\ ij <> Utils.s_min_ij s
                   /\ Utils.s_min_next s = cost q ij) ->
    (Utils.s_min_next s <? Utils.s_min s)%float = false ->
    scan_inv q seen s.

(** The two costs that the scan selects: no pair costs less than [s_min],
    which is the cost of the selected pair as soon as some cost is below
    [FLT_MAX]; no other pair costs less than [s_min_next], which is the
    cost of another pair or [FLT_MAX]; and [s_min_next] is not below
    [s_min]. *)
Definition least_costs (q : list float) (s : Utils.scan) : Prop :=
  no_cost_below q genotype_indices (Utils.s_min s)
  /\ (forall ij, In ij genotype_indices -> ij <> Utils.s_min_ij s ->
        (cost q ij <? Utils.s_min_next s)%float = false)
  /\ ((exists ij, In ij genotype_indices
                  /\ (cost q ij <? F32.FLT_MAX)%float = true) ->
      Utils.s_min s = cost q (Utils.s_min_ij s))
  /\ (Utils.s_min_next s = F32.FLT_MAX
      \/ exists ij, In ij genotype_indices /\ ij <> Utils.s_min_ij s
                    /\ Utils.s_min_next s = cost q ij)
  /\ (Utils.s_min_next s <? Utils.s_min s)%float = false.

(** What the specification calls the confidence: the rounded gap clamped
    to 16 bits. *)
Definition clamp16 (g : Z) : Z := Z.min g 65535.

(** ** Qualifying sites, Zns and Omega-max as the specification words them *)

(** The sites of the window that qualify for population [i]: for Zns and
    Omega-max the derived count [x] in the population has
    [min_freq <= x <= n - min_freq]; for Wall's statistics the site has some
    but not all members of the population derived. *)
Definition qualifies (t : LD.ldData) (i j : Z) : bool :=
  if LD.output t =? 2 then
    (0 <? fst (LD.wall_masks t j i))
    && (fst (LD.wall_masks t j i) <? rd 0 (LD.pop_mask t) i)
  else
    LD.variable_in t (rd 0 (LD.pop_nsmpl t) i)
      (wrap16 (bitcount64 (Z.land (rd 0 (LD.types t) j) (rd 0 (LD.pop_mask t) i)))).

(** The qualifying sites among [lo .. hi - 1], in the order of the buffer,
    and their number; over the whole buffer, the number of qualifying SNPs
    of the population. *)
Definition qualifying_in (t : LD.ldData) (i lo hi : Z) : list Z :=
  filter (fun j => qualifies t i j = true) (seqZ lo (hi - lo)).

Definition nq (t : LD.ldData) (i lo hi : Z) : Z :=
  Z.of_nat (length (qualifying_in t i lo hi)).

Definition num_qualifying (t : LD.ldData) (i : Z) : Z :=
  Z.of_nat (length (qualifying_in t i 0 (LD.segsites t))).

(** r2 of the sites [a] and [b] within population [i]. *)
Definition r2_sites (t : LD.ldData) (i a b : Z) : float :=
  let type0 := Z.land (rd 0 (LD.types t) a) (rd 0 (LD.pop_mask t) i) in
  let type1 := Z.land (rd 0 (LD.types t) b) (rd 0 (LD.pop_mask t) i) in
  LD.r2_of (rd 0 (LD.pop_nsmpl t) i) (bitcount64 type0) (bitcount64 type1)
    (bitcount64 (Z.land type0 type1)).

(** All pairs of a list, each element with those after it. *)
Fixpoint pairs_of (l : list Z) : list (Z * Z) :=
  match l with
  | [] => []
  | a :: l' => map (fun b => (a, b)) l' ++ pairs_of l'
  end.

(** Adding the r2 of a pair of sites to a sum. *)
Definition add_r2 (t : LD.ldData) (i : Z) (s : float) (p : Z * Z) : float :=
  (s + r2_sites t i (fst p) (snd p))%float.

(** Zns of population [i]: the sum of r2 over all pairs of qualifying
    sites, divided by the number of such pairs. *)
Definition zns_spec (t : LD.ldData) (i : Z) : float :=
  let q := qualifying_in t i 0 (LD.segsites t) in
  (fold_left (add_r2 t i) (pairs_of q) 0
   / F64.of_Z (BINOM (Z.of_nat (length q))))%float.

(** omega(i) of one split point, its three sums computed over that split
    alone; no candidate when the sum between the blocks is zero. *)
Definition omega_at (r2 : list (list float)) (snps i : Z) : option float :=
  let st :=
    LD.omega_split r2 snps i
      {| LD.sumleft := 0; LD.sumright := 0; LD.sumbetween := 0; LD.omax := 0 |} in
  if (LD.sumbetween st =? 0)%float then None else Some (LD.omax st).

(** The largest candidate over the split points [1 <= i < snps - 1]. *)
Definition omegamax_spec (r2 : list (list float)) (snps : Z) : float :=
  for_ 1 (snps - 1)
    (fun i best =>
       match omega_at r2 snps i with
       | Some omega => if (best <? omega)%float then omega else best
       | None => best
       end)
    0%float.

(** The fields that decide which sites qualify, and the thresholds of the
    report: the statistics leave them as they are. *)
Record same_sites (t t' : LD.ldData) : Prop := {
  ss_types : LD.types t' = LD.types t;
  ss_mask : LD.pop_mask t' = LD.pop_mask t;
  ss_nsmpl : LD.pop_nsmpl t' = LD.pop_nsmpl t;
  ss_min_freq : LD.min_freq t' = LD.min_freq t;
  ss_segsites : LD.segsites t' = LD.segsites t;
  ss_output : LD.output t' = LD.output t;
  ss_sm_n : LD.sm_n t' = LD.sm_n t;
  ss_npops : LD.sm_npops t' = LD.sm_npops t;
  ss_min_snps : LD.min_snps t' = LD.min_snps t
}.

(** The counters of [t'] exceed the numbers of qualifying sites of [t] by
    one at most. *)
Definition snps_bounded (t t' : LD.ldData) : Prop :=
  same_sites t t'
  /\ forall i, 0 <= i -> rd 0 (LD.num_snps t') i <= num_qualifying t i + 1.

(** ** The loop of calc_sfs over the populations *)

(** One iteration of the loop of [calc_sfs] over the populations. *)
Definition sfs_step (BAM_OUTGROUP : Z) (i : Z) (ot : option SFS.sfsData)
    : option SFS.sfsData :=
  match ot with
  | Some t =>
      match SFS.calc_sfs_pop BAM_OUTGROUP t i with
      | Some (snps, d, h) =>
          Some (SFS.set_results t (SFS.ns t) (wr (SFS.num_snps t) i snps)
                  (wr (SFS.td t) i d) (wr (SFS.fwh t) i h))
      | None => None
      end
  | None => None
  end.

(** The window once [calc_sfs] has counted the aligned sites. *)
Definition sfs_counted (t : SFS.sfsData) : SFS.sfsData :=
  SFS.set_results t (SFS.count_aligned t) (SFS.num_snps t) (SFS.td t) (SFS.fwh t).

(** The branch of [calc_sfs] for population [i] has a defined result: each
    of its conversions to an integer type is applied to a value that the
    type holds. *)
Definition sfs_defined (BAM_OUTGROUP : Z) (t : SFS.sfsData) (i : Z) : bool :=
  match SFS.calc_sfs_pop BAM_OUTGROUP (sfs_counted t) i with
  | Some _ => true
  | None => false
  end.

(** The state of the loop of [calc_sfs] before population [i], started
    from [t1]: the results of the populations from [i] on are as in [t1],
    and those of population [p], once past it, are NaN. *)
Record sfs_run_inv (t1 : SFS.sfsData) (p i : Z) (t : SFS.sfsData) : Prop := {
  sri_state : t = SFS.set_results t1 (SFS.ns t1) (SFS.num_snps t)
                    (SFS.td t) (SFS.fwh t);
  sri_td_len : length (SFS.td t) = length (SFS.td t1);
  sri_fwh_len : length (SFS.fwh t) = length (SFS.fwh t1);
  sri_rest : forall k, i <= k ->
      rd 0 (SFS.num_snps t) k = rd 0 (SFS.num_snps t1) k
      /\ SFS.frd (SFS.td t) k = SFS.frd (SFS.td t1) k
      /\ SFS.frd (SFS.fwh t) k = SFS.frd (SFS.fwh t1) k;
  sri_done : p < i ->
      SFS.frd (SFS.td t) p = F64.quiet_NaN
      /\ SFS.frd (SFS.fwh t) p = F64.quiet_NaN
}.

(** ** The calls of errmod_cal that are defined *)

(** The accumulators after the tally of the observations, as the rows of
    [errmod_cal] read them. *)
Definition errmod_aux (ks_shuffle : Z -> list Z -> list Z)
    (em : Utils.errmod_t) (n : Z) (bases : list Z) : Utils.call_aux_t :=
  let '(bases, n) :=
    if 255 <? n then (ks_shuffle n bases, 255) else (bases, n) in
  fst (Utils.errmod_tally em n (Utils.ks_introsort n bases)).

(** The conversion [(int)(tmp1 / tmp3 + 0.499)] after the sums over the
    symbols that [skip] leaves is defined, or not evaluated ([tmp2 = 0]). *)
Definition bar_e_defined (aux : Utils.call_aux_t) (m : Z) (skip : Z -> bool)
    : bool :=
  let '(tmp1, tmp2, tmp3) := Utils.errmod_rest aux m skip in
  (tmp2 =? 0)
  || match Utils.errmod_bar_e tmp1 tmp3 with Some _ => true | None => false end.

(** The conversions of row [j]: the homozygous one and those of the pairs
    [j < k]. *)
Definition row_defined (aux : Utils.call_aux_t) (m j : Z) : bool :=
  bar_e_defined aux m (fun k => k =? j)
  && forallb (fun k => bar_e_defined aux m (fun i => (i =? j) || (i =? k)))
       (seqZ (j + 1) (m - (j + 1))).

(** The conditions under which a call of [errmod_cal] is defined: [q]
    holds [m * m] likelihoods and, unless there is no observation, [bases]
    holds the [n] observations, [0 <= m <= 16], and every conversion of
    every row is defined. *)
Definition errmod_defined (ks_shuffle : Z -> list Z -> list Z)
    (em : Utils.errmod_t) (n m : Z) (bases : list Z) (q : list float) : bool :=
  (SQ m <=? Z.of_nat (length q))
  && ((n =? 0)
      || ((n <=? Z.of_nat (length bases))
          && (0 <=? m) && (m <=? 16)
          && forallb (row_defined (errmod_aux ks_shuffle em n bases) m)
               (seqZ 0 m))).

(** ** Example inputs *)

(** A packed call: genotype byte [g], [depth] reads, SNP quality [snpq],
    RMS mapping quality 60. *)
Definition example_call (g depth snpq : Z) : Z :=
  Z.shiftl 60 48 + Z.shiftl snpq 32 + Z.shiftl depth 16 + Z.shiftl g 8.

(** Modelled from the spec: [cal_site_type] of [popbam.h], the site type
    whose bit [i] is set iff the call of sample [i] passed the filters and
    is a variant (bits 0 and 1 of its word). *)
Definition cal_site_type_std (n : Z) (cb : list Z) : Z :=
  for_ 0 n
    (fun i st =>
       if Z.land (rd 0 cb i) 0x3 =? 0x3
       then Z.lor st (wrap64 (Z.shiftl 0x1 i)) else st)
    0.

(** Flag bits for the examples, which run with [flag = 0]. *)
Definition example_BAM_HETEROZYGOTE : Z := 0x100.
Definition example_BAM_OUTGROUP : Z := 0x200.

(** The options of a run over [n] samples in one population: the window
    [0, 8), reference letter A everywhere, the default thresholds. *)
Definition example_options (n out minsnps : Z) : LD.ldData :=
  {| LD.beg := 0; LD.end_ := 8; LD.sm_n := n; LD.sm_npops := 1;
     LD.flag := 0; LD.min_snpQ := 25; LD.min_rmsQ := 25;
     LD.min_depth := 3; LD.max_depth := 255;
     LD.ref_base := fun _ => 65;
     LD.output := out; LD.min_snps := minsnps; LD.min_freq := 1;
     LD.pop_mask := []; LD.pop_nsmpl := [];
     LD.num_sites := 0; LD.segsites := 0; LD.types := []; LD.pop_cov := [];
     LD.num_snps := []; LD.zns := []; LD.omegamax := [];
     LD.wallb := []; LD.wallq := [] |}.

(** The window after [init_ld] and the population assignment. *)
Definition example_start (n out minsnps : Z) : LD.ldData :=
  LD.set_pops (LD.window_start (example_options n out minsnps)) [2 ^ n - 1] [n].

(** The same window with every position aligned and the site types [sites]
    in its buffer. *)
Definition example_window (n out minsnps : Z) (sites : list Z) : LD.ldData :=
  LD.set_window (example_start n out minsnps) 8 (Z.of_nat (length sites))
    (sites ++ repeat 0 (8 - length sites)) (repeat 1 8).

(** Likelihoods whose smallest cost is 0 (pair A/A) and whose other costs
    are 70000. *)
Definition wide_gap_likelihoods : list float :=
  [0; 70000; 70000; 70000; 0; 70000; 70000; 70000;
   0; 0; 70000; 70000; 0; 0; 0; 70000]%float.

(** An error model for the examples, with small tables. *)
Definition example_errmod : Utils.errmod_t :=
  {| Utils.depcorr := 0.17;
     Utils.coef :=
       {| Utils.fk := fun i => if i =? 0 then 1%float else 0.5%float;
          Utils.beta := fun i => F64.of_Z (Z.shiftr i 16);
          Utils.lhet := fun i => (- F64.of_Z (Z.shiftr i 8))%float |} |}.

(** A window of five positions over one population of four samples with
    [min_sites = 0.5]: the first [aligned] positions are aligned, and one
    site segregates, two of the four covered samples derived. *)
Definition example_sfs (aligned : Z) : SFS.sfsData :=
  let a1 := SFS.calc_a1 4 in
  let a2 := SFS.calc_a2 4 in
  {| SFS.beg := 100; SFS.end_ := 105; SFS.sm_n := 4; SFS.sm_npops := 1;
     SFS.flag := 0; SFS.outpop := 0; SFS.outidx := 0;
     SFS.min_sites := 0.5;
     SFS.pop_mask := [15];
     SFS.num_sites := aligned; SFS.segsites := 1;
     SFS.types := [3; 0; 0; 0; 0];
     SFS.pop_cov := repeat 1 (Z.to_nat aligned) ++ repeat 0 (Z.to_nat (5 - aligned));
     SFS.ncov := [[4; 0; 0; 0; 0]];
     SFS.a1 := a1; SFS.a2 := a2;
     SFS.e1 := SFS.calc_e1 4 a1; SFS.e2 := SFS.calc_e2 4 a1 a2;
     SFS.dw := SFS.calc_dw 4 a1; SFS.hw := SFS.calc_hw 4 a1;
     SFS.ns := [0]; SFS.num_snps := [0];
     SFS.td := [0%float]; SFS.fwh := [0%float] |}.

(** An error model all of whose weights [fk] are zero. *)
Definition zero_weight_errmod : Utils.errmod_t :=
  {| Utils.depcorr := 0.17;
     Utils.coef :=
       {| Utils.fk := fun _ => 0%float;
          Utils.beta := fun i => F64.of_Z (Z.shiftr i 16);
          Utils.lhet := fun i => (- F64.of_Z (Z.shiftr i 8))%float |} |}.

(** One observation of base 1 with quality 30. *)
Definition example_observation : list Z := [Z.lor (Z.shiftl 30 5) 1].

(** Three observations, two of base 0 and one of base 1. *)
Definition example_observations : list Z :=
  [Z.lor (Z.shiftl 30 5) 0; Z.lor (Z.shiftl 20 5) 0; Z.lor (Z.shiftl 30 5) 1].

(** A window of two populations of two samples each, over five positions
    with [min_sites = 0.5]: the first population is covered at one aligned
    site, the second at all five, and the first [seg] sites of the buffer
    (none or one) segregate, in the second population. *)
Definition example_sfs_two_pops (seg : Z) : SFS.sfsData :=
  let a1 := SFS.calc_a1 4 in
  let a2 := SFS.calc_a2 4 in
  {| SFS.beg := 100; SFS.end_ := 105; SFS.sm_n := 4; SFS.sm_npops := 2;
     SFS.flag := 0; SFS.outpop := 0; SFS.outidx := 0;
     SFS.min_sites := 0.5;
     SFS.pop_mask := [3; 12];
     SFS.num_sites := 5; SFS.segsites := seg;
     SFS.types := [4; 0; 0; 0; 0];
     SFS.pop_cov := [3; 2; 2; 2; 2];
     SFS.ncov := [[2; 0; 0; 0; 0]; [2; 0; 0; 0; 0]];
     SFS.a1 := a1; SFS.a2 := a2;
     SFS.e1 := SFS.calc_e1 4 a1; SFS.e2 := SFS.calc_e2 4 a1 a2;
     SFS.dw := SFS.calc_dw 4 a1; SFS.hw := SFS.calc_hw 4 a1;
     SFS.ns := [0; 0]; SFS.num_snps := [0; 0];
     SFS.td := [0%float; 0%float]; SFS.fwh := [0%float; 0%float] |}.

(** Two floating-point values differ when their decoded forms do. *)
Ltac float_neq :=
  let H := fresh in
  intro H; apply (f_equal Prim2SF) in H; vm_compute in H; discriminate H.

(** ** qualFilter, segBase and errmod_cal over the whole array *)

(** The test of [qualFilter] on a packed call. *)
Definition passes_filter (min_rmsQ min_depth max_depth : Z) (w : Z) : bool :=
  (min_rmsQ <=? CallWord.rms w) && (min_depth <=? CallWord.num_reads w)
  && (CallWord.num_reads w <=? max_depth).

(** The state of the loop of [qualFilter] before sample [i]: the flags of
    the calls below [i] and the bits of the coverage word. *)
Record qual_inv (min_rmsQ min_depth max_depth : Z) (cb : list Z)
    (i : Z) (st : list Z * Z) : Prop := {
  qual_len : length (fst st) = length cb;
  qual_rest : forall k, i <= k -> rd 0 (fst st) k = rd 0 cb k;
  qual_done : forall k, 0 <= k < i ->
      rd 0 (fst st) k
      = if passes_filter min_rmsQ min_depth max_depth (rd 0 cb k)
        then Z.lor (rd 0 cb k) 0x1 else rd 0 cb k;
  qual_bits : forall b,
      Z.testbit (snd st) b
      = (0 <=? b) && (b <? i)
        && passes_filter min_rmsQ min_depth max_depth (rd 0 cb b)
}.

(** The number of indices below [n] at which [P] holds. *)
Definition count_below (P : Z -> bool) (n : Z) : Z :=
  Z.of_nat (length (filter (fun k => P k = true) (seqZ 0 n))).

(** The calls among the first [n] that [segBase] tallies, and those of
    them with base [a]. *)
Definition num_tallied (iupac : Z -> Z) (ref min_snpq : Z) (cb : list Z)
    (n : Z) : Z :=
  count_below (fun k => tallied iupac ref min_snpq (rd 0 cb k)) n.

Definition tally_of (iupac : Z -> Z) (ref min_snpq : Z) (cb : list Z)
    (a n : Z) : Z :=
  count_below (fun k => tallied iupac ref min_snpq (rd 0 cb k)
                        && (call_base (rd 0 cb k) =? a)) n.

(** The calls whose SNP quality is too low: homozygous, different from the
    reference letter, with a SNP quality below [min_snpq]. *)
Definition reverted (iupac : Z -> Z) (ref min_snpq : Z) (w : Z) : bool :=
  CallWord.homozygous w
  && negb (iupac (CallWord.genotype w) =? ref)
  && (CallWord.snp_quality w <? min_snpq).

(** The state of the loop of [segBase] before sample [i]: the tallies of
    the four bases and the words of the calls below [i]. *)
Record seg_count_inv (iupac iupac_rev : Z -> Z) (ref min_snpq : Z) (cb : list Z)
    (i : Z) (st : list Z * list Z) : Prop := {
  segc_len : length (snd st) = 4%nat;
  segc_cb : length (fst st) = length cb;
  segc_tally : forall a, 0 <= a < 4 ->
                 rd 0 (snd st) a = tally_of iupac ref min_snpq cb a i;
  segc_rest : forall k, i <= k -> rd 0 (fst st) k = rd 0 cb k;
  segc_done : forall k, 0 <= k < i ->
      rd 0 (fst st) k
      = let w := rd 0 cb k in
        if tallied iupac ref min_snpq w then Z.lor w 0x2
        else if reverted iupac ref min_snpq w then
          wrap64 (wrap64 (w - Z.shiftl (CallWord.genotype w - iupac_rev ref) CHAR_BIT)
                  - Z.shiftl (CallWord.genotype w - iupac_rev ref) (CHAR_BIT + 2))
        else w
}.

(** The entry of row [j] and column [k] of an [m] by [m] likelihood array. *)
Definition entry (m : Z) (q : list float) (j k : Z) : float :=
  Utils.frd q (j * m + k).

(** [x < 0.0 ? 0.0 : x] *)
Definition clamp0 (x : float) : float := if (x <? 0)%float then 0%float else x.

(** What [errmod_cal] stores for the pair of symbols [j < k], before the clamp. *)
Definition het_cost (em : Utils.errmod_t) (aux : Utils.call_aux_t)
    (m j k : Z) : float :=
  let cjk := rd 0 (Utils.c aux) j + rd 0 (Utils.c aux) k in
  let '(tmp1, tmp2, _) :=
    Utils.errmod_rest aux m (fun i => (i =? j) || (i =? k)) in
  let l := Utils.lhet (Utils.coef em)
             (Z.lor (Z.shiftl cjk 8) (rd 0 (Utils.c aux) k)) in
  let het := (-4.343 * l)%float in
  if negb (tmp2 =? 0) then F32.round (het + tmp1)%float else F32.round het.

(** What it stores for the homozygous pair of symbol [j], where [old] is
    the entry before. *)
Definition hom_cost (aux : Utils.call_aux_t) (m j : Z) (old : float) : float :=
  let '(tmp1, tmp2, _) := Utils.errmod_rest aux m (fun k => k =? j) in
  if negb (tmp2 =? 0) then tmp1 else old.

(** The entry of row [j] and column [k] before the clamp of row [j]. *)
Definition pair_cost (em : Utils.errmod_t) (aux : Utils.call_aux_t)
    (m : Z) (q0 : list float) (j k : Z) : float :=
  if j <? k then het_cost em aux m j k
  else if k <? j then het_cost em aux m k j
  else hom_cost aux m j (entry m q0 j j).

(** The state of the array of [errmod_cal] once the rows below [J] are
    done, where [q0] is the array before the rows. *)
Definition rows_done (em : Utils.errmod_t) (aux : Utils.call_aux_t) (m : Z)
    (q0 : list float) (J : Z) (q : list float) : Prop :=
  length q = length q0
  /\ (forall i, m * m <= i -> Utils.frd q i = Utils.frd q0 i)
  /\ forall j k, 0 <= j < m -> 0 <= k < m ->
       entry m q j k
       = if j <? J then clamp0 (pair_cost em aux m q0 j k)
         else if k <? J then het_cost em aux m k j
         else entry m q0 j k.

(** ** The loops of calc_zns and calc_wall *)

(** The state of the loop of [calc_zns] before population [n]. *)
Record zns_inv (t : LD.ldData) (n : Z) (t' : LD.ldData) : Prop := {
  zi_same : same_sites t t';
  zi_len_snps : length (LD.num_snps t') = length (LD.num_snps t);
  zi_len_zns : length (LD.zns t') = length (LD.zns t);
  zi_rest : forall i, n <= i -> rd 0%float (LD.zns t') i = rd 0%float (LD.zns t) i;
  zi_done : forall i, 0 <= i < n ->
              rd 0 (LD.num_snps t') i = fst (LD.calc_zns_pop t i)
              /\ rd 0%float (LD.zns t') i = snd (LD.calc_zns_pop t i)
}.

(** The order of the counters of [calc_wall] that every visit keeps. *)
Record wall_inv (st : LD.wall_state) : Prop := {
  wi_snps : forall j, 0 <= j -> 0 <= rd 0 (LD.w_num_snps st) j;
  wi_part : forall j, 0 <= j -> 0 <= rd 0 (LD.num_part st) j <= rd 0 (LD.num_congruent st) j;
  wi_congruent : forall j, 0 <= j ->
      rd 0 (LD.num_congruent st) j <= Z.max 0 (rd 0 (LD.w_num_snps st) j - 1)
}.

(** ** The tables and the window of the SFS engine *)

(** [dw[n][i]] and [hw[n][i]] as the loops assign them. *)
Definition dw_entry (a1 : list float) (n i : Z) : float :=
  (2 * F64.of_Z i * F64.of_Z (n - i) / F64.of_Z (SQ (n - 1))
   - 1 / SFS.frd a1 n)%float.

Definition hw_entry (a1 : list float) (n i : Z) : float :=
  (1 / SFS.frd a1 n - F64.of_Z i / F64.of_Z (n - 1))%float.

(** An [n] by [n] table. *)
Definition square (n : Z) (d : list (list float)) : Prop :=
  Z.of_nat (length d) = n /\ forall a, 0 <= a < n -> Z.of_nat (length (rd [] d a)) = n.

(** Population [j] is covered at the aligned site [i]:
    [CHECK_BIT(pop_cov[i], j)]. *)
Definition covered (t : SFS.sfsData) (j i : Z) : bool :=
  negb (CHECK_BIT (rd 0 (SFS.pop_cov t) i) j =? 0).

(** The position [pos] lies in the window [beg, end). *)
Definition sfs_in_window (t : SFS.sfsData) (pos : Z) : bool :=
  (SFS.beg t <=? pos) && (pos <? SFS.end_ t).

(** The positions of the delivered columns that lie in the window. *)
Definition sfs_delivered (t0 : SFS.sfsData) (cols : list (Z * list Z)) : list Z :=
  filter (fun p => sfs_in_window t0 p = true) (map fst cols).

(** The window invariant of the SFS pileup, relative to the number [k] of
    columns of the window delivered so far. *)
Record sfs_window_inv (t0 t : SFS.sfsData) (k : Z) : Prop := {
  swi_beg : SFS.beg t = SFS.beg t0;
  swi_end : SFS.end_ t = SFS.end_ t0;
  swi_npops : SFS.sm_npops t = SFS.sm_npops t0;
  swi_ns : SFS.ns t = zeros (SFS.sm_npops t0);
  swi_seg : 0 <= SFS.segsites t <= SFS.num_sites t;
  swi_sites : SFS.num_sites t <= k;
  swi_len : Z.of_nat (length (SFS.types t)) = SFS.end_ t0 - SFS.beg t0
}.

(** A window without a segregating site in which population [p] has the
    aligned sites that the threshold [th] asks for. *)
Definition no_segregating (th p : Z) (t : SFS.sfsData) : Prop :=
  SFS.segsites t = 0 /\ SFS.sites_threshold t = Some th
  /\ th <= rd 0 (SFS.ns t) p.

(** ** Region strings and the sequence dictionary *)

Section RegionVocabulary.

Import Text Region Windows.

(** The decimal digits. *)
Definition is_digit (c : ascii) : bool :=
  match digit c with Some _ => true | None => false end.

(** The table of the header once [bam_init_header_hash] has run. *)
Definition header_table (header : bam_header_t) : gmap text Z :=
  default ∅ (hash (bam_init_header_hash header)).

(** [id] is the last of the first [n] sequences that is named [key]. *)
Definition last_named (names : list text) (n : Z) (key : text) (id : Z) : Prop :=
  0 <= id < n /\ rd [] names id = key
  /\ forall j, id < j < n -> rd [] names j <> key.

(** A sequence name that the parser can tell from the coordinates: no
    space, comma or colon. *)
Definition plain_name (name : text) : Prop :=
  Forall (fun c => c <> " "%char /\ c <> ","%char /\ c <> ":"%char) name.

(** The end of [bam_parse_region] when the whole string names the
    sequence. *)
Definition whole_sequence (header : bam_header_t) (r : text) : option parsed :=
  match header_table header !! r with
  | None => Some {| ret := -1; ref_id := -1; p_beg := -1; p_end := -1 |}
  | Some id =>
      Some {| ret := if 0 <=? rd 0 (target_len header) id then 0 else -1;
              ref_id := id; p_beg := 0; p_end := rd 0 (target_len header) id |}
  end.

(** What the caller of [bam_parse_region] may rely on: the value returned,
    and the stored bounds and reference when it is 0. *)
Definition well_formed (header : bam_header_t) (r : text) (p : parsed) : Prop :=
  (ret p = 0 \/ ret p = -1)
  /\ (ret p = 0 ->
      0 <= p_beg p <= p_end p
      /\ 0 <= ref_id p < n_targets header
      /\ rd [] (target_name header) (ref_id p) `prefix_of` r).

(** A character that does not end the field after [AS:]. *)
Definition field_char (c : ascii) : Prop := c <> "009"%char /\ c <> "010"%char.

End RegionVocabulary.

(** ** Further example inputs *)

(** Two calls of base C, the first with seven reads and the second with
    two, and a call of the reference A. *)
Definition example_column : list Z :=
  [example_call 5 7 40; example_call 5 2 40; example_call 0 7 40].

(** A heterozygous A/C call of high quality, one of low quality, and a
    homozygous call. *)
Definition example_hets : list Z :=
  [example_call 1 7 40; example_call 1 7 10; example_call 5 7 40].

(** A call of base A (genotype byte 0) of low quality, where the reference
    is C. *)
Definition example_low_quality : list Z := [example_call 0 7 10].

(** A sequence dictionary of three sequences. *)
Definition example_header : Region.bam_header_t :=
  {| Region.n_targets := 3;
     Region.target_name := [Text.lit "chr1"; Text.lit "chr2"; Text.lit "chrM"];
     Region.target_len := [1000; 2000; 16000];
     Region.hash := None |}.

(** A window of four samples with four segregating sites. *)
Definition example_four_sites : LD.ldData := example_window 4 1 2 [3; 3; 5; 3].

(** The example window, fully aligned and without a segregating site. *)
Definition example_sfs_no_sites : SFS.sfsData :=
  SFSPileup.set_window (example_sfs 5) 5 0 (zeros 5) (repeat 1 5) [zeros 5].

(** Thresholds of the SFS pileup for one population of four samples, all of
    which must be covered. *)
Definition example_sfs_options : SFSPileup.options :=
  {| SFSPileup.min_snpQ := 25; SFSPileup.min_rmsQ := 25;
     SFSPileup.min_depth := 3; SFSPileup.max_depth := 255;
     SFSPileup.ref_base := fun _ => 65;
     SFSPileup.pop_nsmpl := [4];
     SFSPileup.min_pop := 1 |}.

(** Two columns of the window [100, 105) and one column after it. *)
Definition example_sfs_columns : list (Z * list Z) :=
  [(101, [example_call 0 7 40; example_call 5 7 40;
          example_call 0 7 40; example_call 0 7 40]);
   (103, [example_call 0 7 40; example_call 0 7 40;
          example_call 0 7 40; example_call 0 2 40]);
   (105, [example_call 5 7 40; example_call 5 7 40;
          example_call 0 7 40; example_call 0 7 40])].

(** * Properties *)

(** ** Counted loops and arrays *)

Section Loops.

Context {S : Type}.
Implicit Types (body : Z -> S -> S) (s : S).

Lemma for_empty lo hi body s : hi <= lo -> for_ lo hi body s = s.
Proof. intros H. unfold for_. now rewrite seqZ_nil by lia. Qed.

Lemma for_last lo hi body s :
  lo <= hi -> for_ lo (hi + 1) body s = body hi (for_ lo hi body s).
Proof.
  intros H. unfold for_.
  replace (hi + 1 - lo) with ((hi - lo) + 1) by lia.
  rewrite seqZ_app by lia. rewrite fold_left_app.
  rewrite (seqZ_cons _ 1) by lia. rewrite seqZ_nil by lia. simpl.
  now replace (lo + (hi - lo)) with hi by lia.
Qed.

(** The invariant rule of a counted loop. *)
Lemma for_invariant (P : Z -> S -> Prop) lo hi body s :
  lo <= hi ->
  P lo s ->
  (forall i s, lo <= i < hi -> P i s -> P (i + 1) (body i s)) ->
  P hi (for_ lo hi body s).
Proof.
  intros Hle H0 Hstep.
  assert (Hn : forall n : nat, lo + Z.of_nat n <= hi ->
                 P (lo + Z.of_nat n) (for_ lo (lo + Z.of_nat n) body s)).
  { induction n as [|n IH]; intros Hb.
    - rewrite Z.add_0_r, for_empty by lia. exact H0.
    - replace (lo + Z.of_nat (Datatypes.S n)) with (lo + Z.of_nat n + 1) by lia.
      rewrite for_last by lia. apply Hstep; [lia|]. apply IH. lia. }
  specialize (Hn (Z.to_nat (hi - lo))).
  replace (lo + Z.of_nat (Z.to_nat (hi - lo))) with hi in Hn by lia.
  apply Hn. lia.
Qed.

(** A property that every iteration preserves holds after the loop,
    whatever the bounds. *)
Lemma for_preserves (P : S -> Prop) lo hi body s :
  P s -> (forall i s, lo <= i < hi -> P s -> P (body i s)) ->
  P (for_ lo hi body s).
Proof.
  intros H0 Hstep. destruct (Z.le_gt_cases lo hi) as [Hle|Hgt].
  - apply (for_invariant (fun _ => P)); auto.
  - now rewrite for_empty by lia.
Qed.

End Loops.

Section Arrays.

Context {A : Type}.
Implicit Types (l : list A) (d x : A).

Lemma length_wr l i x : length (wr l i x) = length l.
Proof. unfold wr. destruct (i <? 0); [easy|apply length_insert]. Qed.

Lemma rd_wr_eq d l i x :
  0 <= i < Z.of_nat (length l) -> rd d (wr l i x) i = x.
Proof.
  intros H. unfold rd, wr.
  destruct (Z.ltb_spec i 0); [lia|].
  apply nth_lookup_Some, list_lookup_insert_eq. lia.
Qed.

Lemma rd_wr_ne d l i j x : i <> j -> 0 <= j -> rd d (wr l i x) j = rd d l j.
Proof.
  intros Hne Hj. unfold rd, wr.
  destruct (Z.ltb_spec i 0); [easy|].
  rewrite !nth_lookup, list_lookup_insert_ne by lia. easy.
Qed.

Lemma rd_wr d l i j x :
  0 <= j ->
  rd d (wr l i x) j
  = if (i =? j) && (j <? Z.of_nat (length l)) then x else rd d l j.
Proof.
  intros Hj. destruct (Z.eqb_spec i j) as [->|Hne]; simpl.
  - destruct (Z.ltb_spec j (Z.of_nat (length l))).
    + apply rd_wr_eq. lia.
    + unfold wr. destruct (j <? 0); [easy|].
      rewrite list_insert_ge by lia. easy.
  - now apply rd_wr_ne.
Qed.

(** A write leaves the cells below the written index as they are. *)
Lemma wr_below d l i j x : 0 <= j < i -> rd d (wr l i x) j = rd d l j.
Proof. intros H. apply rd_wr_ne; lia. Qed.

End Arrays.

(** ** The order of floating-point costs *)

Lemma SFltb_irrefl x : SFltb x x = false.
Proof.
  unfold SFltb, SFcompare.
  destruct x as [[|]|[|]| |[|] m e]; try reflexivity;
    rewrite Z.compare_refl, Pos.compare_cont_refl; reflexivity.
Qed.

Lemma SFltb_trans x y z :
  SFltb x y = true -> SFltb y z = true -> SFltb x z = true.
Proof.
  unfold SFltb, SFcompare.
  destruct x as [[|]|[|]| |[|] mx ex], y as [[|]|[|]| |[|] my ey],
           z as [[|]|[|]| |[|] mz ez];
    try discriminate; try reflexivity;
    destruct (Z.compare_spec ex ey), (Z.compare_spec ey ez),
             (Z.compare_spec ex ez);
    try discriminate; try reflexivity; try lia; subst;
    rewrite ?Pos.compare_cont_spec; simpl;
    destruct (Pos.compare_spec mx my), (Pos.compare_spec my mz),
             (Pos.compare_spec mx mz);
    simpl; try discriminate; try reflexivity; lia.
Qed.

Lemma ltb_irrefl (x : float) : (x <? x)%float = false.
Proof. rewrite ltb_spec. apply SFltb_irrefl. Qed.

Lemma ltb_trans (x y z : float) :
  (x <? y)%float = true -> (y <? z)%float = true -> (x <? z)%float = true.
Proof. rewrite !ltb_spec. apply SFltb_trans. Qed.

(** [x] not below [b], and [a] below [b]: then [x] is not below [a]. *)
Lemma ltb_lower (a b x : float) :
  (a <? b)%float = true -> (x <? b)%float = false -> (x <? a)%float = false.
Proof.
  intros Hab Hxb. destruct (x <? a)%float eqn:E; [|reflexivity].
  rewrite (ltb_trans x a b E Hab) in Hxb. discriminate.
Qed.

Lemma ltb_asym (x y : float) :
  (x <? y)%float = true -> (y <? x)%float = false.
Proof.
  intros H. destruct (y <? x)%float eqn:E; [|reflexivity].
  pose proof (ltb_trans x y x H E) as Hc. rewrite ltb_irrefl in Hc.
  discriminate.
Qed.

(** ** gl2cns: the scan and the packed fields *)

Lemma to_int_range lo hi x z : F64.to_int lo hi x = Some z -> lo <= z <= hi.
Proof.
  unfold F64.to_int. destruct (F64.trunc x) as [y|]; [|discriminate].
  destruct (Z.leb_spec lo y), (Z.leb_spec y hi); simpl; intros [= <-]; lia.
Qed.

Lemma gl2cns_visit_ij (P : Z -> Prop) q i j s :
  P (Utils.s_min_ij s) -> P (Z.lor (Z.shiftl i 2) j) ->
  P (Utils.s_min_ij (Utils.gl2cns_visit q i j s)).
Proof.
  intros Hs Hij. unfold Utils.gl2cns_visit.
  destruct (_ <? Utils.s_min s)%float; [exact Hij|].
  destruct (_ <? Utils.s_min_next s)%float; exact Hs.
Qed.

(** The genotype that the scan selects is one of the ten pairs
    [i << 2 | j] with [i <= j < 4]. *)
Lemma gl2cns_scan_ij q :
  In (Utils.s_min_ij (Utils.gl2cns_scan q)) [0; 1; 2; 3; 5; 6; 7; 10; 11; 15].
Proof.
  unfold Utils.gl2cns_scan, for_.
  change (seqZ 0 (NBASES - 0)) with [0; 1; 2; 3]. simpl.
  change (seqZ 0 (NBASES - 0)) with [0; 1; 2; 3].
  change (seqZ 1 (NBASES - 1)) with [1; 2; 3].
  change (seqZ 2 (NBASES - 2)) with [2; 3].
  change (seqZ 3 (NBASES - 3)) with [3]. simpl.
  repeat (apply gl2cns_visit_ij; [|simpl; tauto]).
  simpl. tauto.
Qed.

Lemma gl2cns_scan_fold q :
  Utils.gl2cns_scan q
  = fold_left (fun s p => Utils.gl2cns_visit q (fst p) (snd p) s)
      genotype_pairs scan_start.
Proof. reflexivity. Qed.

Lemma gl2cns_visit_inv q seen s p :
  ~ In (pair_index p) seen ->
  scan_inv q seen s ->
  scan_inv q (seen ++ [pair_index p]) (Utils.gl2cns_visit q (fst p) (snd p) s).
Proof.
  intros Hnew Hinv. unfold Utils.gl2cns_visit.
  fold (pair_index p). fold (cost q (pair_index p)).
  set (ij := pair_index p) in *. set (l := cost q ij).
  assert (Hin : forall x, In x (seen ++ [ij]) -> In x seen \/ x = ij).
  { intros x Hx. apply in_app_or in Hx as [Hx|[Hx|[]]]; auto. }
  destruct Hinv as [-> Hnone | Hsel Hmin Hlow Hnext Hwho Hord].
  - (* nothing below FLT_MAX so far *)
    cbn [Utils.s_min Utils.s_min_next Utils.s_min_ij scan_start].
    destruct (l <? F32.FLT_MAX)%float eqn:E.
    + apply scan_some; cbn.
      * apply in_or_app. right. now left.
      * reflexivity.
      * intros x Hx. apply Hin in Hx as [Hx| ->]; [|apply ltb_irrefl].
        apply (ltb_lower l F32.FLT_MAX); auto.
      * intros x Hx Hne. apply Hin in Hx as [Hx| ->]; [auto|easy].
      * now left.
      * now apply ltb_asym.
    + apply scan_none; [reflexivity|].
      intros x Hx. apply Hin in Hx as [Hx| ->]; auto.
  - destruct (l <? Utils.s_min s)%float eqn:E1.
    + apply scan_some; cbn.
      * apply in_or_app. right. now left.
      * reflexivity.
      * intros x Hx. apply Hin in Hx as [Hx| ->]; [|apply ltb_irrefl].
        apply (ltb_lower l (Utils.s_min s)); auto.
      * intros x Hx Hne. apply Hin in Hx as [Hx| ->]; [auto|easy].
      * right. exists (Utils.s_min_ij s). repeat split; auto.
        -- apply in_or_app. now left.
        -- intros Heq. apply Hnew. rewrite <- Heq. exact Hsel.
      * now apply ltb_asym.
    + destruct (l <? Utils.s_min_next s)%float eqn:E2.
      * apply scan_some; cbn.
        -- apply in_or_app. now left.
        -- exact Hmin.
        -- intros x Hx. apply Hin in Hx as [Hx| ->]; auto.
        -- intros x Hx Hne. apply Hin in Hx as [Hx| ->]; [|apply ltb_irrefl].
           apply (ltb_lower l (Utils.s_min_next s)); auto.
        -- right. exists ij. repeat split; auto.
           ++ apply in_or_app. right. now left.
           ++ intros Heq. apply Hnew. rewrite Heq. exact Hsel.
        -- exact E1.
      * apply scan_some; auto.
        -- apply in_or_app. now left.
        -- intros x Hx. apply Hin in Hx as [Hx| ->]; auto.
        -- intros x Hx Hne. apply Hin in Hx as [Hx| ->]; auto.
        -- destruct Hwho as [Hw|(x & Hx & Hne & Hw)]; [now left|].
           right. exists x. repeat split; auto. apply in_or_app. now left.
Qed.

Lemma gl2cns_fold_inv q : forall todo seen s,
  List.NoDup (seen ++ map pair_index todo) ->
  scan_inv q seen s ->
  scan_inv q (seen ++ map pair_index todo)
    (fold_left (fun s p => Utils.gl2cns_visit q (fst p) (snd p) s) todo s).
Proof.
  induction todo as [|p todo IH]; intros seen s Hnd Hinv.
  - simpl. now rewrite app_nil_r.
  - simpl in *.
    assert (Hnew : ~ In (pair_index p) seen).
    { intros Hin. apply List.NoDup_remove_2 in Hnd. apply Hnd.
      apply in_or_app. now left. }
    replace (seen ++ pair_index p :: map pair_index todo)
      with ((seen ++ [pair_index p]) ++ map pair_index todo) in *
      by (now rewrite <- app_assoc).
    apply IH; [exact Hnd|].
    now apply gl2cns_visit_inv.
Qed.

Lemma gl2cns_scan_inv q :
  scan_inv q genotype_indices (Utils.gl2cns_scan q).
Proof.
  rewrite gl2cns_scan_fold.
  apply (gl2cns_fold_inv q genotype_pairs [] scan_start).
  - apply NoDup_ListNoDup. apply (bool_decide_unpack _). vm_compute. exact I.
  - apply scan_none; [reflexivity|]. intros x [].
Qed.

Lemma gl2cns_scan_least q : least_costs q (Utils.gl2cns_scan q).
Proof.
  destruct (gl2cns_scan_inv q) as [Hs Hnone | Hsel Hmin Hlow Hnext Hwho Hord];
    unfold least_costs.
  - rewrite Hs. cbn. split; [exact Hnone|]. split; [auto|].
    split; [|split; [now left|reflexivity]].
    intros (ij & Hin & Hlt). rewrite (Hnone ij Hin) in Hlt. discriminate.
  - split; [exact Hlow|]. split; [exact Hnext|].
    split; [intros _; exact Hmin|]. split; [exact Hwho|exact Hord].
Qed.

(** The three fields of the sum that [gl2cns] returns. *)
Lemma pack_fields g k ij :
  0 <= g -> 0 <= k < 2 ^ 16 -> 0 <= ij < 2 ^ 4 ->
  let w :=
    wrap64 (wrap64 (Z.shiftl g (CHAR_BIT * 4)) + wrap64 (Z.shiftl k (CHAR_BIT * 2))
            + wrap64 (Z.shiftl ij CHAR_BIT)) in
  CallWord.num_reads w = k
  /\ CallWord.genotype w = ij
  /\ CallWord.snp_quality w = g mod 2 ^ 16.
Proof.
  intros Hg Hk Hij w.
  assert (Hw : w = (g mod 2 ^ 32) * 2 ^ 32 + k * 2 ^ 16 + ij * 2 ^ 8).
  { subst w. unfold wrap64, wrap, CHAR_BIT.
    rewrite !Z.shiftl_mul_pow2 by lia.
    change (2 ^ (8 * 4)) with (2 ^ 32). change (2 ^ (8 * 2)) with (2 ^ 16).
    assert (E : (g * 2 ^ 32) mod 2 ^ 64 = (g mod 2 ^ 32) * 2 ^ 32).
    { change (2 ^ 64) with (2 ^ 32 * 2 ^ 32). apply Zmult_mod_distr_r. }
    rewrite E.
    pose proof (Z.mod_pos_bound g (2 ^ 32) ltac:(lia)) as Hh.
    rewrite (Z.mod_small (k * 2 ^ 16)) by lia.
    rewrite (Z.mod_small (ij * 2 ^ 8)) by lia.
    apply Z.mod_small. lia. }
  pose proof (Z.mod_pos_bound g (2 ^ 32) ltac:(lia)) as Hh.
  set (h := g mod 2 ^ 32) in *.
  unfold CallWord.num_reads, CallWord.genotype, CallWord.snp_quality, CHAR_BIT.
  change 65535 with (Z.ones 16). change 255 with (Z.ones 8).
  rewrite !Z.land_ones, !Z.shiftr_div_pow2 by lia.
  rewrite Hw. clear Hw w.
  change (2 ^ (8 * 2)) with (2 ^ 16). change (2 ^ (8 * 4)) with (2 ^ 32).
  repeat split.
  - replace ((h * 2 ^ 32 + k * 2 ^ 16 + ij * 2 ^ 8) / 2 ^ 16)
      with (h * 2 ^ 16 + k)
      by (apply Z.div_unique_pos with (r := ij * 2 ^ 8); lia).
    symmetry. apply Z.mod_unique_pos with (q := h); lia.
  - replace ((h * 2 ^ 32 + k * 2 ^ 16 + ij * 2 ^ 8) / 2 ^ 8)
      with (h * 2 ^ 24 + k * 2 ^ 8 + ij)
      by (apply Z.div_unique_pos with (r := 0); lia).
    symmetry. apply Z.mod_unique_pos with (q := h * 2 ^ 16 + k); lia.
  - replace ((h * 2 ^ 32 + k * 2 ^ 16 + ij * 2 ^ 8) / 2 ^ 32) with h
      by (apply Z.div_unique_pos with (r := k * 2 ^ 16 + ij * 2 ^ 8); lia).
    subst h. rewrite (Z.mod_eq g (2 ^ 32)) by lia.
    replace (g - 2 ^ 32 * (g / 2 ^ 32))
      with (g + (- (g / 2 ^ 32) * 2 ^ 16) * 2 ^ 16) by lia.
    apply Z.mod_add. lia.
Qed.

(** C3, as stated, fails: with a gap of 70000 between the two smallest
    costs the confidence field holds 70000 - 65536 = 4464, not the clamped
    65535, and the carry sets the lowest bit of the mapping-quality field. *)
Lemma gl2cns_confidence_not_clamped :
  exists w, Utils.gl2cns wide_gap_likelihoods 100 = Some w
    /\ Utils.gl2cns_gap wide_gap_likelihoods = Some 70000
    /\ CallWord.snp_quality w = 4464
    /\ CallWord.snp_quality w <> clamp16 70000
    /\ CallWord.rms w = 1.
Proof.
  eexists. split; [vm_compute; reflexivity|].
  repeat split; try (vm_compute; reflexivity). vm_compute. discriminate.
Qed.

(** C3, amended. [gl2cns] is a function of the likelihoods and the depth.
    Its scan selects a pair of least cost and the least cost of the other
    pairs ([least_costs]); whenever the conversion of their gap plus 0.499
    to an integer [g] is defined, the function returns a word whose depth
    field is the depth passed in, whose genotype field is the selected pair
    (one of the ten pairs with allele 1 <= allele 2), and whose confidence
    field is [g] modulo 2^16: [g] itself, which is also its clamped value,
    when [g <= 65535]. *)
Theorem gl2cns_round_trip (q : list float) (k g : Z) :
  0 <= k < 2 ^ 16 ->
  Utils.gl2cns_gap q = Some g ->
  (forall q' k', q' = q -> k' = k -> Utils.gl2cns q' k' = Utils.gl2cns q k)
  /\ least_costs q (Utils.gl2cns_scan q)
  /\ F64.to_ull
       (F32.sub (Utils.s_min_next (Utils.gl2cns_scan q))
          (Utils.s_min (Utils.gl2cns_scan q)) + 0.499)%float = Some g
  /\ exists w, Utils.gl2cns q k = Some w
       /\ CallWord.num_reads w = k
       /\ CallWord.genotype w = Utils.s_min_ij (Utils.gl2cns_scan q)
       /\ In (CallWord.genotype w) genotype_indices
       /\ CallWord.snp_quality w = g mod 2 ^ 16
       /\ (g <= 65535 -> CallWord.snp_quality w = g
                         /\ CallWord.snp_quality w = clamp16 g).
Proof.
  intros Hk Hg. split; [intros q' k' -> ->; reflexivity|].
  split; [apply gl2cns_scan_least|]. split; [exact Hg|].
  unfold Utils.gl2cns. rewrite Hg. eexists. split; [reflexivity|].
  apply to_int_range in Hg.
  pose proof (gl2cns_scan_ij q) as Hin.
  assert (Hij : 0 <= Utils.s_min_ij (Utils.gl2cns_scan q) < 2 ^ 4).
  { simpl in Hin. lia. }
  destruct (pack_fields g k _ ltac:(lia) Hk Hij) as (H1 & H2 & H3).
  cbv zeta in H1, H2, H3. rewrite H1, H2, H3.
  repeat split; auto.
  - apply Z.mod_small. lia.
  - rewrite Z.mod_small by lia. unfold clamp16. lia.
Qed.

Lemma gl2cns_round_trip_witness :
  (forall q' k', q' = wide_gap_likelihoods -> k' = 100 ->
     Utils.gl2cns q' k' = Utils.gl2cns wide_gap_likelihoods 100)
  /\ least_costs wide_gap_likelihoods (Utils.gl2cns_scan wide_gap_likelihoods)
  /\ F64.to_ull
       (F32.sub (Utils.s_min_next (Utils.gl2cns_scan wide_gap_likelihoods))
          (Utils.s_min (Utils.gl2cns_scan wide_gap_likelihoods)) + 0.499)%float
     = Some 70000
  /\ exists w, Utils.gl2cns wide_gap_likelihoods 100 = Some w
       /\ CallWord.num_reads w = 100
       /\ CallWord.genotype w
          = Utils.s_min_ij (Utils.gl2cns_scan wide_gap_likelihoods)
       /\ In (CallWord.genotype w) genotype_indices
       /\ CallWord.snp_quality w = 70000 mod 2 ^ 16
       /\ (70000 <= 65535 -> CallWord.snp_quality w = 70000
                             /\ CallWord.snp_quality w = clamp16 70000).
Proof.
  apply (gl2cns_round_trip wide_gap_likelihoods 100 70000);
    [lia | vm_compute; reflexivity].
Defined.

(** A gap below 65536 is recovered as it is: costs 3.25 and 12.5 give the
    confidence 9 = trunc(9.25 + 0.499), for the pair C/C at depth 65535. *)
Example gl2cns_small_gap :
  option_map
    (fun w => (CallWord.num_reads w, CallWord.genotype w,
               CallWord.snp_quality w, CallWord.rms w))
    (Utils.gl2cns
       [30; 12.5; 70000; 70000; 0; 3.25; 70000; 70000;
        0; 0; 70000; 70000; 0; 0; 0; 70000]%float 65535)
  = Some (65535, 5, 9, 0).
Proof. vm_compute. reflexivity. Qed.

(** ** cleanHeterozygotes *)

(** The two alleles of a word, and everything outside them: the bits from
    12 up and the bits below 8. *)
Lemma word_alleles hi x y lo :
  0 <= hi -> 0 <= x < 4 -> 0 <= y < 4 -> 0 <= lo < 2 ^ 8 ->
  let w := hi * 2 ^ 12 + x * 2 ^ 10 + y * 2 ^ 8 + lo in
  CallWord.allele1 (CallWord.genotype w) = x
  /\ CallWord.allele2 (CallWord.genotype w) = y
  /\ w / 2 ^ 12 = hi /\ w mod 2 ^ 8 = lo.
Proof.
  intros Hhi Hx Hy Hlo w.
  unfold CallWord.allele1, CallWord.allele2, CallWord.genotype, CHAR_BIT.
  change 255 with (Z.ones 8). change 3 with (Z.ones 2).
  rewrite !Z.land_ones, !Z.shiftr_div_pow2 by lia.
  subst w. change (2 ^ 12) with 4096. change (2 ^ 10) with 1024.
  change (2 ^ 8) with 256. change (2 ^ 2) with 4.
  repeat split; Z.div_mod_to_equations; lia.
Qed.

Lemma word_parts w :
  0 <= w ->
  w = (w / 2 ^ 12) * 2 ^ 12
      + CallWord.allele1 (CallWord.genotype w) * 2 ^ 10
      + CallWord.allele2 (CallWord.genotype w) * 2 ^ 8 + w mod 2 ^ 8.
Proof.
  intros Hw.
  unfold CallWord.allele1, CallWord.allele2, CallWord.genotype, CHAR_BIT.
  change 255 with (Z.ones 8). change 3 with (Z.ones 2).
  rewrite !Z.land_ones, !Z.shiftr_div_pow2 by lia.
  change (2 ^ 12) with 4096. change (2 ^ 10) with 1024.
  change (2 ^ 8) with 256. change (2 ^ 2) with 4.
  Z.div_mod_to_equations. lia.
Qed.

(** A heterozygous call with exactly one reference allele becomes
    homozygous, for the other allele when the SNP quality is at least
    [min_snpq] and for the reference allele when it is below; the rest of
    the word is unchanged. *)
Lemma cleanHeterozygotes_word_one_ref (iupac_rev : Z -> Z) (ref min_snpq w : Z) :
  0 <= w < 2 ^ 64 ->
  CallWord.allele1 (CallWord.genotype w) <> CallWord.allele2 (CallWord.genotype w) ->
  CallWord.allele1 (CallWord.genotype w) = iupac_rev ref
  \/ CallWord.allele2 (CallWord.genotype w) = iupac_rev ref ->
  let w' := Utils.cleanHeterozygotes_word iupac_rev ref min_snpq w in
  let derived :=
    if CallWord.allele1 (CallWord.genotype w) =? iupac_rev ref
    then CallWord.allele2 (CallWord.genotype w)
    else CallWord.allele1 (CallWord.genotype w) in
  let target :=
    if min_snpq <=? CallWord.snp_quality w then derived else iupac_rev ref in
  CallWord.allele1 (CallWord.genotype w') = target
  /\ CallWord.allele2 (CallWord.genotype w') = target
  /\ w' / 2 ^ 12 = w / 2 ^ 12 /\ w' mod 2 ^ 8 = w mod 2 ^ 8.
Proof.
  intros Hw Hhet Href.
  unfold Utils.cleanHeterozygotes_word.
  change (Z.land (Z.shiftr w CHAR_BIT) 255) with (CallWord.genotype w).
  change (Z.land (Z.shiftr w (CHAR_BIT * 4)) 65535) with (CallWord.snp_quality w).
  change (Z.land (Z.shiftr (CallWord.genotype w) 2) 3)
    with (CallWord.allele1 (CallWord.genotype w)).
  change (Z.land (CallWord.genotype w) 3)
    with (CallWord.allele2 (CallWord.genotype w)).
  pose proof (word_parts w ltac:(lia)) as Hparts.
  assert (Ha1 : 0 <= CallWord.allele1 (CallWord.genotype w) < 4).
  { unfold CallWord.allele1. change 3 with (Z.ones 2).
    rewrite Z.land_ones by lia. apply Z.mod_pos_bound. lia. }
  assert (Ha2 : 0 <= CallWord.allele2 (CallWord.genotype w) < 4).
  { unfold CallWord.allele2. change 3 with (Z.ones 2).
    rewrite Z.land_ones by lia. apply Z.mod_pos_bound. lia. }
  assert (Hlo : 0 <= w mod 2 ^ 8 < 2 ^ 8) by (apply Z.mod_pos_bound; lia).
  assert (Hhi : 0 <= w / 2 ^ 12 < 2 ^ 52).
  { split; [apply Z.div_pos; lia|].
    apply Z.div_lt_upper_bound; [lia|]. change (2 ^ 12 * 2 ^ 52) with (2 ^ 64). lia. }
  set (a1 := CallWord.allele1 (CallWord.genotype w)) in *.
  set (a2 := CallWord.allele2 (CallWord.genotype w)) in *.
  set (hi := w / 2 ^ 12) in *. set (lo := w mod 2 ^ 8) in *.
  set (q := CallWord.snp_quality w) in *.
  set (r := iupac_rev ref) in *.
  cbv zeta. unfold CHAR_BIT.
  rewrite !Z.shiftl_mul_pow2 by lia.
  change (2 ^ (8 + 2)) with (2 ^ 10).
  assert (Hsame : forall x y,
            0 <= x < 4 -> 0 <= y < 4 ->
            wrap64 (hi * 2 ^ 12 + x * 2 ^ 10 + y * 2 ^ 8 + lo)
            = hi * 2 ^ 12 + x * 2 ^ 10 + y * 2 ^ 8 + lo).
  { intros x y Hx Hy. unfold wrap64, wrap. apply Z.mod_small. lia. }
  assert (Hup : wrap64 (w + (a2 - a1) * 2 ^ 10)
                = hi * 2 ^ 12 + a2 * 2 ^ 10 + a2 * 2 ^ 8 + lo).
  { rewrite <- Hsame by lia. f_equal. lia. }
  assert (Hdown : wrap64 (w - (a2 - a1) * 2 ^ 8)
                  = hi * 2 ^ 12 + a1 * 2 ^ 10 + a1 * 2 ^ 8 + lo).
  { rewrite <- Hsame by lia. f_equal. lia. }
  destruct (Z.eqb_spec a1 a2) as [E|_]; [contradiction|]. cbn [negb andb].
  destruct (Z.leb_spec min_snpq q) as [Hq|Hq];
    destruct (Z.ltb_spec q min_snpq) as [Hq'|Hq']; try lia;
    destruct (Z.eqb_spec a1 r) as [E1|E1], (Z.eqb_spec a2 r) as [E2|E2];
    try lia; cbn [negb];
    rewrite ?Hup, ?Hdown;
    try (destruct Href; congruence);
    first [ apply (word_alleles hi a2 a2 lo); lia
          | rewrite <- E1; apply (word_alleles hi a1 a1 lo); lia
          | rewrite <- E2; apply (word_alleles hi a2 a2 lo); lia
          | apply (word_alleles hi a1 a1 lo); lia ].
Qed.

(** When one of the two alleles is the reference, the call becomes
    homozygous: for the other allele at high quality, for the reference at
    low quality. *)
Example cleanHeterozygotes_ref_pair :
  map CallWord.genotype
    (Utils.cleanHeterozygotes iupac_rev_std 4
       [example_call 1 7 40; example_call 1 7 10;
        example_call 4 7 40; example_call 4 7 10] 65 25)
  = [5; 0; 5; 0].
Proof. vm_compute. reflexivity. Qed.

(** C4. The reference is A and both samples are called C/G, the first with
    a SNP quality above [min_snpq], the second below: [cleanHeterozygotes]
    leaves the first call as it is and exchanges the alleles of the second,
    so both stay heterozygous. *)
Theorem cleanHeterozygotes_misses_nonref_pair :
  let cb := [example_call 6 7 40; example_call 6 7 10] in
  let cb' := Utils.cleanHeterozygotes iupac_rev_std 2 cb 65 25 in
  map CallWord.homozygous cb = [false; false]
  /\ map CallWord.genotype cb' = [6; 9]
  /\ map CallWord.homozygous cb' = [false; false].
Proof. vm_compute. repeat split. Qed.

(** ** segBase *)

Lemma call_base_range w : 0 <= call_base w < 4.
Proof.
  unfold call_base, CallWord.allele1.
  change 3 with (Z.ones 2). rewrite Z.land_ones by lia.
  apply Z.mod_pos_bound. lia.
Qed.

Section SegBase.

Variable iupac : Z -> Z.
Variable iupac_rev : Z -> Z.
Variables (ref min_snpq : Z) (cb : list Z).

Local Abbreviation seg_inv := (seg_inv iupac ref min_snpq cb).

Lemma segBase_visit_inv i st :
  0 <= i -> seg_inv i st ->
  seg_inv (i + 1) (Utils.segBase_visit iupac iupac_rev ref min_snpq i st).
Proof.
  intros Hi [Hlen Hnn Hrest Htal]. destruct st as [cb' bc]. simpl in *.
  unfold Utils.segBase_visit.
  pose proof (Hrest i ltac:(lia)) as Hw.
  set (w := rd 0 cb' i) in *.
  change (Z.land (Z.shiftr w CHAR_BIT) 255) with (CallWord.genotype w).
  change (Z.land (Z.shiftr w (CHAR_BIT * 4)) 65535) with (CallWord.snp_quality w).
  change (Z.land (Z.shiftr (CallWord.genotype w) 2) 3) with (call_base w).
  change (Z.land (CallWord.genotype w) 3)
    with (CallWord.allele2 (CallWord.genotype w)).
  cbv zeta.
  destruct ((call_base w =? CallWord.allele2 (CallWord.genotype w))
            && negb (iupac (CallWord.genotype w) =? ref)
            && (min_snpq <=? CallWord.snp_quality w)) eqn:Hhigh.
  - (* tallied *)
    pose proof (call_base_range w) as Hr.
    split; simpl.
    + now rewrite length_wr.
    + intros a Ha. rewrite rd_wr by lia.
      destruct ((call_base w =? a) && _); [|auto].
      specialize (Hnn (call_base w)). lia.
    + intros k Hk. rewrite rd_wr_ne by lia. apply Hrest. lia.
    + intros k Hk Ht. rewrite rd_wr by (pose proof (call_base_range (rd 0 cb k)); lia).
      rewrite Hlen.
      destruct (Z.eqb_spec (call_base w) (call_base (rd 0 cb k))) as [He | Hne]; simpl.
      * rewrite <- He.
        destruct (Z.ltb_spec (call_base w) (Z.of_nat 4)); [|lia].
        specialize (Hnn (call_base w)). lia.
      * destruct (Z.eq_dec k i) as [ -> | Hki].
        -- rewrite <- Hw in Hne. easy.
        -- apply Htal; [lia|easy].
  - assert (Hnot : tallied iupac ref min_snpq (rd 0 cb i) = false).
    { rewrite <- Hw. exact Hhigh. }
    assert (Htal' : forall k, 0 <= k < i + 1 ->
              tallied iupac ref min_snpq (rd 0 cb k) = true ->
              0 < rd 0 bc (call_base (rd 0 cb k))).
    { intros k Hk Ht. destruct (Z.eq_dec k i) as [ -> | Hki]; [congruence|].
      apply Htal; [lia|easy]. }
    destruct (_ && _ && (CallWord.snp_quality w <? min_snpq)).
    + split; simpl; auto.
      intros k Hk. rewrite rd_wr_ne by lia. apply Hrest. lia.
    + split; simpl; auto.
      intros k Hk. apply Hrest. lia.
Qed.

Lemma segBase_loop_inv num_samples :
  0 <= num_samples ->
  seg_inv num_samples
    (for_ 0 num_samples (Utils.segBase_visit iupac iupac_rev ref min_snpq)
       (cb, [0; 0; 0; 0])).
Proof.
  intros Hn. apply (for_invariant seg_inv); [lia| |].
  - split; simpl; auto.
    + intros a Ha. unfold rd.
      destruct (Z.to_nat a) as [|[|[|[|[|n]]]]]; simpl; lia.
    + intros k Hk. lia.
  - intros i s Hi Hinv. apply segBase_visit_inv; [lia|easy].
Qed.

Lemma segBase_check_two bc a b :
  length bc = 4%nat -> 0 <= a < 4 -> 0 <= b < 4 -> a <> b ->
  0 < rd 0 bc a -> 0 < rd 0 bc b ->
  1 < fst (Utils.segBase_check bc).
Proof.
  intros Hlen Ha Hb Hab Hpa Hpb.
  destruct bc as [|c0 [|c1 [|c2 [|c3 [|]]]]]; try discriminate.
  unfold Utils.segBase_check, for_.
  change (seqZ 0 (NBASES - 0)) with [0; 1; 2; 3]. simpl.
  change (rd 0 [c0; c1; c2; c3] 0) with c0.
  change (rd 0 [c0; c1; c2; c3] 1) with c1.
  change (rd 0 [c0; c1; c2; c3] 2) with c2.
  change (rd 0 [c0; c1; c2; c3] 3) with c3.
  assert (Ea : a = 0 \/ a = 1 \/ a = 2 \/ a = 3) by lia.
  assert (Eb : b = 0 \/ b = 1 \/ b = 2 \/ b = 3) by lia.
  destruct Ea as [ -> | [ -> | [ -> | -> ] ] ], Eb as [ -> | [ -> | [ -> | -> ] ] ];
    try easy; unfold rd in Hpa, Hpb; simpl in Hpa, Hpb;
    destruct (Z.ltb_spec 0 c0), (Z.ltb_spec 0 c1),
             (Z.ltb_spec 0 c2), (Z.ltb_spec 0 c3); simpl; lia.
Qed.

End SegBase.

(** C7. If the calls that [segBase] tallies (homozygous, not the reference,
    SNP quality at least [min_snpq]) include two samples with different
    bases, the function returns the rejection signal -1, never a positive
    count. *)
Theorem segBase_rejects_multiallelic
    (iupac iupac_rev : Z -> Z) (num_samples : Z) (cb : list Z)
    (ref min_snpq : Z) (i1 i2 : Z) :
  0 <= i1 < num_samples ->
  0 <= i2 < num_samples ->
  tallied iupac ref min_snpq (rd 0 cb i1) = true ->
  tallied iupac ref min_snpq (rd 0 cb i2) = true ->
  call_base (rd 0 cb i1) <> call_base (rd 0 cb i2) ->
  snd (Utils.segBase iupac iupac_rev num_samples cb ref min_snpq) = -1.
Proof.
  intros H1 H2 T1 T2 Hne. unfold Utils.segBase.
  pose proof (segBase_loop_inv iupac iupac_rev ref min_snpq cb num_samples
                ltac:(lia)) as Hinv.
  destruct (for_ 0 num_samples _ _) as [cb' bc].
  destruct Hinv as [Hlen Hnn Hrest Htal]. simpl in *.
  pose proof (segBase_check_two bc _ _ Hlen
                (call_base_range (rd 0 cb i1)) (call_base_range (rd 0 cb i2))
                Hne (Htal i1 H1 T1) (Htal i2 H2 T2)) as Hj.
  destruct (Utils.segBase_check bc) as [j k]. simpl in *.
  destruct (Z.ltb_spec 1 j); [reflexivity|lia].
Qed.

Lemma segBase_rejects_multiallelic_witness :
  snd (Utils.segBase iupac_std iupac_rev_std 3
         [example_call 5 7 40; example_call 10 7 40; example_call 0 7 40]
         65 25) = -1.
Proof.
  apply (segBase_rejects_multiallelic iupac_std iupac_rev_std 3 _ 65 25 0 1);
    [lia | lia | reflexivity | reflexivity | vm_compute; lia].
Defined.

(** ** errmod_cal *)

Lemma rd_memset_zero q count i :
  0 <= i < count -> rd 0%float (Utils.memset_zero q count) i = 0%float.
Proof.
  intros Hi. unfold rd, Utils.memset_zero.
  rewrite app_nth1 by (rewrite repeat_length; lia).
  apply nth_repeat.
Qed.

(** Loops whose body may fail. *)

Section OptionLoops.

Context {S : Type}.
Variables (f : Z -> S -> option S) (g : Z -> S -> S) (d : Z -> bool).

Lemma fold_option_None (l : list Z) :
  fold_left (fun os i => s ← os; f i s) l None = None.
Proof. induction l as [|a l IH]; [reflexivity|exact IH]. Qed.

Lemma fold_option (l : list Z) : forall s,
  (forall i s, In i l -> f i s = if d i then Some (g i s) else None) ->
  fold_left (fun os i => s ← os; f i s) l (Some s)
  = if forallb d l then Some (fold_left (fun s i => g i s) l s) else None.
Proof.
  induction l as [|a l IH]; intros s H; [reflexivity|].
  cbn [fold_left forallb mbind option_bind].
  rewrite (H a s) by now left.
  destruct (d a); cbn [andb].
  - apply IH. intros i s' Hi. apply H. now right.
  - apply fold_option_None.
Qed.

Lemma for_option lo hi s :
  (forall i s, lo <= i < hi -> f i s = if d i then Some (g i s) else None) ->
  for_ lo hi (fun i os => s ← os; f i s) (Some s)
  = if forallb d (seqZ lo (hi - lo)) then Some (for_ lo hi g s) else None.
Proof.
  intros H. unfold for_. apply fold_option.
  intros i s' Hi. apply H.
  apply list_elem_of_In, elem_of_seqZ in Hi. lia.
Qed.

End OptionLoops.

Lemma errmod_row_run_spec em aux m j q :
  Utils.errmod_row_run em aux m j q
  = if row_defined aux m j then Some (Utils.errmod_row em aux m j q) else None.
Proof.
  unfold Utils.errmod_row_run, Utils.errmod_row, row_defined, bar_e_defined.
  destruct (Utils.errmod_rest aux m (fun k => k =? j)) as [[tmp1 tmp2] tmp3].
  set (body := fun (k : Z) (q : list float) =>
                 let cjk := rd 0 (Utils.c aux) j + rd 0 (Utils.c aux) k in
                 let '(tmp1, tmp2, _) :=
                   Utils.errmod_rest aux m (fun i => (i =? j) || (i =? k)) in
                 let l := Utils.lhet (Utils.coef em)
                            (Z.lor (Z.shiftl cjk 8) (rd 0 (Utils.c aux) k)) in
                 let het := (-4.343 * l)%float in
                 let x :=
                   if negb (tmp2 =? 0) then F32.round (het + tmp1)%float
                   else F32.round het in
                 wr (wr q (k * m + j) x) (j * m + k) x).
  set (dk := fun k : Z =>
               let '(tmp1, tmp2, tmp3) :=
                 Utils.errmod_rest aux m (fun i => (i =? j) || (i =? k)) in
               (tmp2 =? 0)
               || match Utils.errmod_bar_e tmp1 tmp3 with
                  | Some _ => true
                  | None => false
                  end).
  assert (Hhet : forall q0,
            for_ (j + 1) m
              (fun k oq =>
                 q ← oq;
                 let cjk := rd 0 (Utils.c aux) j + rd 0 (Utils.c aux) k in
                 let '(tmp1, tmp2, tmp3) :=
                   Utils.errmod_rest aux m (fun i => (i =? j) || (i =? k)) in
                 let l := Utils.lhet (Utils.coef em)
                            (Z.lor (Z.shiftl cjk 8) (rd 0 (Utils.c aux) k)) in
                 let het := (-4.343 * l)%float in
                 if negb (tmp2 =? 0) then
                   Utils.errmod_bar_e tmp1 tmp3 ;;
                   let x := F32.round (het + tmp1)%float in
                   Some (wr (wr q (k * m + j) x) (j * m + k) x)
                 else
                   let x := F32.round het in
                   Some (wr (wr q (k * m + j) x) (j * m + k) x))
              (Some q0)
            = if forallb dk (seqZ (j + 1) (m - (j + 1)))
              then Some (for_ (j + 1) m body q0) else None).
  { intros q0.
    apply (for_option
             (fun k q =>
                let cjk := rd 0 (Utils.c aux) j + rd 0 (Utils.c aux) k in
                let '(tmp1, tmp2, tmp3) :=
                  Utils.errmod_rest aux m (fun i => (i =? j) || (i =? k)) in
                let l := Utils.lhet (Utils.coef em)
                           (Z.lor (Z.shiftl cjk 8) (rd 0 (Utils.c aux) k)) in
                let het := (-4.343 * l)%float in
                if negb (tmp2 =? 0) then
                  Utils.errmod_bar_e tmp1 tmp3 ;;
                  let x := F32.round (het + tmp1)%float in
                  Some (wr (wr q (k * m + j) x) (j * m + k) x)
                else
                  let x := F32.round het in
                  Some (wr (wr q (k * m + j) x) (j * m + k) x))
             body dk).
    intros k q1 _. unfold body, dk. cbv zeta.
    destruct (Utils.errmod_rest aux m (fun i => (i =? j) || (i =? k)))
      as [[t1 t2] t3].
    destruct (t2 =? 0); cbn [negb orb]; [reflexivity|].
    destruct (Utils.errmod_bar_e t1 t3); reflexivity. }
  fold dk. fold body.
  destruct (tmp2 =? 0); cbn [negb orb andb mbind option_bind].
  - rewrite Hhet. destruct (forallb dk _); reflexivity.
  - destruct (Utils.errmod_bar_e tmp1 tmp3); cbn [mbind option_bind andb];
      [|reflexivity].
    rewrite Hhet. destruct (forallb dk _); reflexivity.
Qed.

Lemma errmod_cal_run_spec ks_shuffle em n m bases q :
  Utils.errmod_cal_run ks_shuffle em n m bases q
  = if errmod_defined ks_shuffle em n m bases q
    then Some (Utils.errmod_cal ks_shuffle em n m bases q) else None.
Proof.
  unfold Utils.errmod_cal_run, Utils.errmod_cal, errmod_defined, errmod_aux.
  assert (Hguard : (m >? m) = false) by (rewrite Z.gtb_ltb; apply Z.ltb_irrefl).
  rewrite Hguard.
  destruct (Z.ltb_spec (Z.of_nat (length q)) (SQ m)) as [Hq|Hq].
  { destruct (Z.leb_spec (SQ m) (Z.of_nat (length q))); [lia|reflexivity]. }
  destruct (Z.leb_spec (SQ m) (Z.of_nat (length q))); [|lia].
  cbn [andb].
  destruct (n =? 0); [reflexivity|]. cbn [orb].
  destruct (Z.ltb_spec (Z.of_nat (length bases)) n) as [Hb|Hb].
  { destruct (Z.leb_spec n (Z.of_nat (length bases))); [lia|reflexivity]. }
  destruct (Z.leb_spec n (Z.of_nat (length bases))); [|lia].
  cbn [andb].
  destruct (255 <? n).
  - destruct (Utils.errmod_tally em 255 _) as [aux w]. cbn [fst].
    destruct ((0 <=? m) && (m <=? 16)); [|reflexivity]. cbn [andb].
    rewrite (for_option (Utils.errmod_row_run em aux m) (Utils.errmod_row em aux m)
               (row_defined aux m))
      by (intros; apply errmod_row_run_spec).
    rewrite Z.sub_0_r. destruct (forallb _ _); reflexivity.
  - destruct (Utils.errmod_tally em n _) as [aux w]. cbn [fst].
    destruct ((0 <=? m) && (m <=? 16)); [|reflexivity]. cbn [andb].
    rewrite (for_option (Utils.errmod_row_run em aux m) (Utils.errmod_row em aux m)
               (row_defined aux m))
      by (intros; apply errmod_row_run_spec).
    rewrite Z.sub_0_r. destruct (forallb _ _); reflexivity.
Qed.


(** The conversions are a second way out of the defined behaviour: under
    an error model whose weights [fk] are zero the sums [tmp1] and [tmp3]
    of the first row are zero while [tmp2] is 1, and
    [(int)(0.0 / 0.0 + 0.499)] is undefined. *)
Example errmod_cal_undefined_conversion :
  Utils.errmod_bar_e 0 0 = None
  /\ bar_e_defined
       (errmod_aux (fun _ l => l) zero_weight_errmod 1 example_observation) 4
       (fun k => k =? 0) = false
  /\ Utils.errmod_cal_run (fun _ l => l) zero_weight_errmod 1 4
       example_observation (repeat 1%float 16) = None.
Proof. vm_compute. repeat split. Qed.



(** With no observation the sixteen likelihoods are zeroed; with the three
    observations above the likelihood of the pair (0, 0) is the smallest. *)
Example errmod_cal_runs :
  Utils.errmod_cal (fun _ l => l) example_errmod 0 4 [] (repeat 1%float 16)
  = (0, repeat 0%float 16)
  /\ fst (Utils.errmod_cal (fun _ l => l) example_errmod 3 4
            [Z.lor (Z.shiftl 30 5) 0; Z.lor (Z.shiftl 20 5) 0;
             Z.lor (Z.shiftl 30 5) 1]
            (repeat 1%float 16)) = 0.
Proof. vm_compute. repeat split. Qed.

(** ** make_ld: the per-column driver of the LD window *)

Section MakeLD.

Variable iupac : Z -> Z.
Variable iupac_rev : Z -> Z.
Variable BAM_HETEROZYGOTE : Z.
Variable cal_site_type : Z -> list Z -> Z.

Local Abbreviation make_ld :=
  (LD.make_ld iupac iupac_rev BAM_HETEROZYGOTE cal_site_type).
Local Abbreviation pileup :=
  (LD.pileup iupac iupac_rev BAM_HETEROZYGOTE cal_site_type).

Lemma make_ld_bounds pos cb t :
  LD.beg (make_ld pos cb t) = LD.beg t
  /\ LD.end_ (make_ld pos cb t) = LD.end_ t.
Proof.
  unfold LD.make_ld.
  destruct ((LD.beg t <=? pos) && (pos <? LD.end_ t)); [|easy].
  destruct (Utils.segBase _ _ _ _ _ _) as [cb1 fq].
  destruct (Utils.qualFilter _ _ _ _ _) as [cb2 sample_cov].
  destruct (0 <? rd 0 _ _); [destruct (0 <? fq)|]; easy.
Qed.

Lemma make_ld_step pos cb t : ld_step t (make_ld pos cb t).
Proof.
  unfold LD.make_ld.
  destruct ((LD.beg t <=? pos) && (pos <? LD.end_ t)); [|now apply ld_skip].
  destruct (Utils.segBase _ _ _ _ _ _) as [cb1 fq].
  destruct (Utils.qualFilter _ _ _ _ _) as [cb2 sample_cov].
  destruct (0 <? rd 0 _ _); [destruct (0 <? fq)|].
  - now eapply ld_segregating.
  - now apply ld_aligned.
  - now apply ld_skip.
Qed.

Lemma make_ld_outside pos cb t : in_window t pos = false -> make_ld pos cb t = t.
Proof. unfold in_window, LD.make_ld. now intros ->. Qed.

Lemma delivered_app t0 c1 c2 :
  delivered t0 (c1 ++ c2) = delivered t0 c1 ++ delivered t0 c2.
Proof. unfold delivered. now rewrite map_app, filter_app. Qed.

Lemma pileup_app c1 c2 t : pileup (c1 ++ c2) t = pileup c2 (pileup c1 t).
Proof. unfold LD.pileup. apply fold_left_app. Qed.

Lemma make_ld_inv t0 t k pos cb :
  ld_inv t0 t k ->
  ld_inv t0 (make_ld pos cb t)
    (if in_window t0 pos then k + 1 else k).
Proof.
  intros [Hb He Hs Hn Hl].
  destruct (make_ld_bounds pos cb t) as [Hb' He'].
  destruct (in_window t0 pos) eqn:Hin.
  - destruct (make_ld_step pos cb t) as [H1 H2 H3|H1 H2 H3|v H1 H2 H3];
      split; try congruence; try lia.
    rewrite H3, length_wr. exact Hl.
  - rewrite make_ld_outside; [now split|].
    unfold in_window in *. now rewrite Hb, He.
Qed.

Lemma pileup_inv t0 cols : forall t k,
  ld_inv t0 t k ->
  ld_inv t0 (pileup cols t) (k + Z.of_nat (length (delivered t0 cols))).
Proof.
  induction cols as [|[pos cb] cols IH]; intros t k Hinv.
  - simpl. now rewrite Z.add_0_r.
  - change (pileup ((pos, cb) :: cols) t)
      with (pileup cols (make_ld pos cb t)).
    pose proof (make_ld_inv t0 t k pos cb Hinv) as Hstep.
    apply IH in Hstep.
    unfold delivered in *. simpl. rewrite filter_cons.
    destruct (decide (in_window t0 pos = true)) as [Hin|Hout].
    + rewrite Hin in Hstep. simpl.
      replace (k + Z.of_nat (Datatypes.S (length (filter _ (map fst cols)))))
        with (k + 1 + Z.of_nat (length (filter (fun p => in_window t0 p = true)
                                         (map fst cols)))) by lia.
      exact Hstep.
    + destruct (in_window t0 pos); [easy|]. exact Hstep.
Qed.

(** Distinct positions of a window are no more than its length. *)
Lemma delivered_bound t0 cols :
  LD.beg t0 <= LD.end_ t0 ->
  NoDup (delivered t0 cols) ->
  Z.of_nat (length (delivered t0 cols)) <= LD.end_ t0 - LD.beg t0.
Proof.
  intros Hle Hnd.
  assert (Hsub : delivered t0 cols ⊆+ seqZ (LD.beg t0) (LD.end_ t0 - LD.beg t0)).
  { apply NoDup_submseteq; [exact Hnd|].
    intros p Hp. apply list_elem_of_filter in Hp as [Hp _].
    unfold in_window in Hp. apply elem_of_seqZ. lia. }
  apply submseteq_length in Hsub. rewrite length_seqZ in Hsub. lia.
Qed.

Lemma window_start_inv t0 mask nsmpl :
  LD.beg t0 <= LD.end_ t0 ->
  ld_inv t0 (LD.set_pops (LD.window_start t0) mask nsmpl) 0.
Proof.
  intros Hle. unfold LD.window_start, LD.init_ld. cbv zeta.
  destruct (LD.output _ =? 1); [|destruct (LD.output _ =? 2)];
    (split; cbn; try lia; unfold zeros; rewrite repeat_length; lia).
Qed.

End MakeLD.

(** C10. In the per-column driver [make_ld], when each position of
    [beg, end) is delivered at most once, every invocation leaves
    [segsites <= num_sites <= end - beg], and the buffer [types] is
    append-only: the invocation either leaves [types] and [segsites] as they
    were, or writes the one cell at index [segsites] (inside the buffer) and
    increments [segsites]; no cell below [segsites] changes. *)
Theorem make_ld_window_invariant
    (iupac iupac_rev : Z -> Z) (BAM_HETEROZYGOTE : Z)
    (cal_site_type : Z -> list Z -> Z)
    (t0 : LD.ldData) (mask nsmpl : list Z)
    (done rest : list (Z * list Z)) (pos : Z) (cb : list Z) :
  LD.beg t0 <= LD.end_ t0 ->
  NoDup (delivered t0 (done ++ (pos, cb) :: rest)) ->
  let t :=
    LD.pileup iupac iupac_rev BAM_HETEROZYGOTE cal_site_type done
      (LD.set_pops (LD.window_start t0) mask nsmpl) in
  let t' := LD.make_ld iupac iupac_rev BAM_HETEROZYGOTE cal_site_type pos cb t in
  (LD.segsites t' <= LD.num_sites t' <= LD.end_ t' - LD.beg t')
  /\ ((LD.segsites t' = LD.segsites t /\ LD.types t' = LD.types t)
      \/ (LD.segsites t' = LD.segsites t + 1
          /\ 0 <= LD.segsites t < Z.of_nat (length (LD.types t))
          /\ exists v, LD.types t' = wr (LD.types t) (LD.segsites t) v))
  /\ (forall i, 0 <= i < LD.segsites t ->
        rd 0 (LD.types t') i = rd 0 (LD.types t) i).
Proof.
  intros Hle Hnd t t'.
  pose proof (window_start_inv t0 mask nsmpl Hle) as H0.
  pose proof (pileup_inv iupac iupac_rev BAM_HETEROZYGOTE cal_site_type
                t0 done _ _ H0) as Ht.
  fold t in Ht.
  pose proof (make_ld_inv iupac iupac_rev BAM_HETEROZYGOTE cal_site_type
                t0 t _ pos cb Ht) as Ht'.
  fold t' in Ht'.
  assert (Hk : (if in_window t0 pos
                then 0 + Z.of_nat (length (delivered t0 done)) + 1
                else 0 + Z.of_nat (length (delivered t0 done)))
               <= LD.end_ t0 - LD.beg t0).
  { pose proof (delivered_bound t0 _ Hle Hnd) as Hb.
    rewrite delivered_app, length_app in Hb.
    unfold delivered at 2 in Hb. simpl in Hb. rewrite filter_cons in Hb.
    destruct (decide (in_window t0 pos = true)) as [Hin|Hout].
    - rewrite Hin. simpl in Hb. lia.
    - destruct (in_window t0 pos); [easy|]. lia. }
  destruct Ht as [Hb He Hs Hn Hl], Ht' as [Hb' He' Hs' Hn' Hl'].
  split; [rewrite Hb', He'; lia|].
  pose proof (make_ld_step iupac iupac_rev BAM_HETEROZYGOTE cal_site_type
                pos cb t) as Hstep.
  fold t' in Hstep.
  destruct Hstep as [H1 H2 H3|H1 H2 H3|v H1 H2 H3].
  - split; [left; easy|]. intros i Hi. now rewrite H3.
  - split; [left; easy|]. intros i Hi. now rewrite H3.
  - split.
    + right. split; [easy|]. split; [lia|]. now exists v.
    + intros i Hi. rewrite H3. apply wr_below. lia.
Qed.

Lemma make_ld_window_invariant_witness :
  let column := [example_call 5 7 40; example_call 0 7 40] in
  let t :=
    LD.pileup iupac_std iupac_rev_std example_BAM_HETEROZYGOTE cal_site_type_std
      [(0, column)] (example_start 2 0 10) in
  let t' :=
    LD.make_ld iupac_std iupac_rev_std example_BAM_HETEROZYGOTE cal_site_type_std
      1 column t in
  (LD.segsites t' <= LD.num_sites t' <= LD.end_ t' - LD.beg t')
  /\ ((LD.segsites t' = LD.segsites t /\ LD.types t' = LD.types t)
      \/ (LD.segsites t' = LD.segsites t + 1
          /\ 0 <= LD.segsites t < Z.of_nat (length (LD.types t))
          /\ exists v, LD.types t' = wr (LD.types t) (LD.segsites t) v))
  /\ (forall i, 0 <= i < LD.segsites t ->
        rd 0 (LD.types t') i = rd 0 (LD.types t) i).
Proof.
  apply (make_ld_window_invariant iupac_std iupac_rev_std
           example_BAM_HETEROZYGOTE cal_site_type_std
           (example_options 2 0 10) [3] [2]
           [(0, [example_call 5 7 40; example_call 0 7 40])] []
           1 [example_call 5 7 40; example_call 0 7 40]).
  - simpl. lia.
  - apply (bool_decide_unpack _). vm_compute. exact I.
Defined.

(** The columns of the witness are segregating: the driver records both. *)
Example make_ld_records_sites :
  let column := [example_call 5 7 40; example_call 0 7 40] in
  let t :=
    LD.pileup iupac_std iupac_rev_std example_BAM_HETEROZYGOTE cal_site_type_std
      [(0, column); (1, column)] (example_start 2 0 10) in
  LD.num_sites t = 2 /\ LD.segsites t = 2
  /\ LD.types t = [1; 1; 0; 0; 0; 0; 0; 0].
Proof. vm_compute. repeat split. Qed.

(** The hypothesis on [num_snps] below is the state of every window: the
    counters are zeroed by [init_ld] and the pileup does not write them. *)
Lemma pileup_num_snps_zero
    (iupac iupac_rev : Z -> Z) (BAM_HETEROZYGOTE : Z)
    (cal_site_type : Z -> list Z -> Z)
    (t0 : LD.ldData) (mask nsmpl : list Z) (cols : list (Z * list Z)) (j : Z) :
  rd 0 (LD.num_snps
          (LD.pileup iupac iupac_rev BAM_HETEROZYGOTE cal_site_type cols
             (LD.set_pops (LD.window_start t0) mask nsmpl))) j = 0.
Proof.
  assert (Hp : forall t,
            LD.num_snps (LD.pileup iupac iupac_rev BAM_HETEROZYGOTE
                           cal_site_type cols t) = LD.num_snps t).
  { induction cols as [|[pos cb] cols IH]; intros t; [reflexivity|].
    change (LD.pileup iupac iupac_rev BAM_HETEROZYGOTE cal_site_type
              ((pos, cb) :: cols) t)
      with (LD.pileup iupac iupac_rev BAM_HETEROZYGOTE cal_site_type cols
              (LD.make_ld iupac iupac_rev BAM_HETEROZYGOTE cal_site_type
                 pos cb t)).
    rewrite IH. unfold LD.make_ld.
    destruct ((LD.beg t <=? pos) && (pos <? LD.end_ t)); [|reflexivity].
    destruct (Utils.segBase _ _ _ _ _ _) as [cb1 fq].
    destruct (Utils.qualFilter _ _ _ _ _) as [cb2 sample_cov].
    destruct (0 <? rd 0 _ _); [destruct (0 <? fq)|]; reflexivity. }
  rewrite Hp. unfold LD.window_start, LD.init_ld. cbv zeta.
  destruct (LD.output _ =? 1); [|destruct (LD.output _ =? 2)];
    cbn; unfold rd, zeros; apply nth_repeat.
Qed.

(** ** Qualifying sites *)

Lemma nq_nonneg t i lo hi : 0 <= nq t i lo hi.
Proof. unfold nq. lia. Qed.

Lemma qualifying_in_last t i lo hi :
  lo <= hi ->
  qualifying_in t i lo (hi + 1)
  = qualifying_in t i lo hi ++ (if qualifies t i hi then [hi] else []).
Proof.
  intros Hle. unfold qualifying_in.
  replace (hi + 1 - lo) with ((hi - lo) + 1) by lia.
  rewrite seqZ_app by lia. rewrite filter_app.
  rewrite (seqZ_cons _ 1) by lia. rewrite (seqZ_nil _ (Z.pred 1)) by lia.
  replace (lo + (hi - lo)) with hi by lia.
  rewrite filter_cons, filter_nil.
  destruct (decide (qualifies t i hi = true)) as [-> | Hn]; [reflexivity|].
  now destruct (qualifies t i hi).
Qed.

Lemma qualifying_in_first t i lo hi :
  lo < hi ->
  qualifying_in t i lo hi
  = (if qualifies t i lo then [lo] else []) ++ qualifying_in t i (lo + 1) hi.
Proof.
  intros Hlt. unfold qualifying_in.
  rewrite seqZ_cons by lia. rewrite filter_cons.
  replace (Z.pred (hi - lo)) with (hi - (lo + 1)) by lia.
  replace (Z.succ lo) with (lo + 1) by lia.
  destruct (decide (qualifies t i lo = true)) as [-> | Hn]; [reflexivity|].
  now destruct (qualifies t i lo).
Qed.

Lemma qualifying_in_empty t i lo hi : hi <= lo -> qualifying_in t i lo hi = [].
Proof. intros H. unfold qualifying_in. now rewrite seqZ_nil by lia. Qed.

Lemma nq_last t i lo hi :
  lo <= hi ->
  nq t i lo (hi + 1) = nq t i lo hi + (if qualifies t i hi then 1 else 0).
Proof.
  intros Hle. unfold nq, qualifying_in.
  replace (hi + 1 - lo) with ((hi - lo) + 1) by lia.
  rewrite seqZ_app by lia. rewrite filter_app, length_app.
  rewrite (seqZ_cons _ 1) by lia. rewrite (seqZ_nil _ (Z.pred 1)) by lia.
  replace (lo + (hi - lo)) with hi by lia.
  rewrite filter_cons, filter_nil.
  destruct (decide (qualifies t i hi = true)) as [-> | Hn]; simpl; [lia|].
  destruct (qualifies t i hi); [easy|simpl; lia].
Qed.

Lemma nq_mono t i lo hi hi' : lo <= hi <= hi' -> nq t i lo hi <= nq t i lo hi'.
Proof.
  intros H. unfold nq, qualifying_in.
  replace (hi' - lo) with ((hi - lo) + (hi' - hi)) by lia.
  rewrite seqZ_app by lia. rewrite filter_app, length_app. lia.
Qed.

Lemma nq_empty t i lo hi : hi <= lo -> nq t i lo hi = 0.
Proof. intros H. unfold nq, qualifying_in. now rewrite seqZ_nil by lia. Qed.

Lemma same_sites_refl t : same_sites t t.
Proof. now split. Qed.

Lemma same_sites_set_stats t t' snps z o b q :
  same_sites t t' -> same_sites t (LD.set_stats t' snps z o b q).
Proof. intros []. now split. Qed.

Lemma qualifies_same t t' i j :
  same_sites t t' -> qualifies t' i j = qualifies t i j.
Proof.
  intros [H1 H2 H3 H4 H5 H6 H7 H8 H9].
  unfold qualifies, LD.wall_masks, LD.variable_in.
  now rewrite H1, H2, H3, H4, H6, H7.
Qed.

Lemma num_qualifying_same t t' i :
  same_sites t t' -> num_qualifying t' i = num_qualifying t i.
Proof.
  intros Hs. unfold num_qualifying, qualifying_in.
  rewrite (ss_segsites _ _ Hs). f_equal. f_equal.
  apply list_filter_iff. intros j. now rewrite (qualifies_same t t' i j Hs).
Qed.

Lemma qualifies_count t i j :
  LD.output t <> 2 ->
  qualifies t i j
  = LD.variable_in t (rd 0 (LD.pop_nsmpl t) i)
      (wrap16 (bitcount64 (Z.land (rd 0 (LD.types t) j) (rd 0 (LD.pop_mask t) i)))).
Proof.
  intros Ho. unfold qualifies. now destruct (Z.eqb_spec (LD.output t) 2).
Qed.

Lemma qualifies_wall t i j :
  LD.output t = 2 ->
  qualifies t i j
  = (0 <? fst (LD.wall_masks t j i))
    && (fst (LD.wall_masks t j i) <? rd 0 (LD.pop_mask t) i).
Proof. intros Ho. unfold qualifies. now rewrite Ho. Qed.

Lemma bitcount64_range x : 0 <= bitcount64 x <= 64.
Proof.
  unfold bitcount64.
  assert (H : forall l c,
            c <= fold_left (fun c i => if Z.testbit x i then c + 1 else c) l c
            <= c + Z.of_nat (length l)).
  { induction l as [|i l IH]; intros c; simpl; [lia|].
    destruct (Z.testbit x i).
    - specialize (IH (c + 1)). lia.
    - specialize (IH c). lia. }
  specialize (H (seqZ 0 64) 0). rewrite length_seqZ in H. lia.
Qed.

Lemma wrap16_bitcount64 x : wrap16 (bitcount64 x) = bitcount64 x.
Proof.
  unfold wrap16, wrap. apply Z.mod_small.
  pose proof (bitcount64_range x). lia.
Qed.

(** ** calc_zns *)

(** The pairs of qualifying sites, each site with the qualifying sites
    after it. *)
Lemma pairs_of_qualifying t i hi : forall (n : nat) lo,
  Z.of_nat n = hi - lo ->
  pairs_of (qualifying_in t i lo hi)
  = flat_map (fun a => map (fun b => (a, b)) (qualifying_in t i (a + 1) hi))
      (qualifying_in t i lo hi).
Proof.
  induction n as [|n IH]; intros lo Hn.
  - now rewrite qualifying_in_empty by lia.
  - rewrite qualifying_in_first by lia.
    specialize (IH (lo + 1) ltac:(lia)).
    destruct (qualifies t i lo); simpl; [|exact IH].
    now rewrite IH.
Qed.

Lemma calc_zns_pop_value t i :
  LD.output t <> 2 ->
  LD.calc_zns_pop t i
  = (nq t i 0 (LD.segsites t - 1) + 1,
     (fold_left (add_r2 t i) (pairs_of (qualifying_in t i 0 (LD.segsites t)))
        (rd 0%float (LD.zns t) i)
      * (1 / F64.of_Z (BINOM (nq t i 0 (LD.segsites t - 1) + 1))))%float).
Proof.
  intros Ho. unfold LD.calc_zns_pop.
  match goal with |- context [for_ 0 (LD.segsites t - 1) ?f ?s] =>
    set (body := f); set (s0 := s) end.
  set (after a := map (fun b => (a, b)) (qualifying_in t i (a + 1) (LD.segsites t))).
  assert (Hloop :
    for_ 0 (LD.segsites t - 1) body s0
    = (nq t i 0 (LD.segsites t - 1),
       fold_left (add_r2 t i)
         (flat_map after (qualifying_in t i 0 (LD.segsites t - 1)))
         (rd 0%float (LD.zns t) i))).
  { destruct (Z.le_gt_cases 0 (LD.segsites t - 1)) as [Hle|Hgt].
    - apply (for_invariant
               (fun j st =>
                  st = (nq t i 0 j,
                        fold_left (add_r2 t i)
                          (flat_map after (qualifying_in t i 0 j))
                          (rd 0%float (LD.zns t) i)))); [lia| |].
      + now rewrite nq_empty, qualifying_in_empty by lia.
      + intros j st Hj ->. unfold body.
        rewrite nq_last, qualifying_in_last by lia.
        rewrite qualifies_count by exact Ho.
        destruct (LD.variable_in t _ _) eqn:Hv;
          [|now rewrite Z.add_0_r, app_nil_r].
        f_equal. rewrite flat_map_app, fold_left_app. cbn [flat_map].
        rewrite app_nil_r. unfold after at 2.
        set (z := fold_left _ _ _).
        apply (for_invariant
                 (fun k z' =>
                    z' = fold_left (add_r2 t i)
                           (map (fun b => (j, b)) (qualifying_in t i (j + 1) k))
                           z)); [lia| |].
        * now rewrite qualifying_in_empty by lia.
        * intros k z' Hk ->. rewrite qualifying_in_last by lia.
          rewrite qualifies_count by exact Ho.
          cbv beta.
          destruct (LD.variable_in t _
                      (wrap16 (bitcount64 (Z.land (rd 0 (LD.types t) k) _))));
            [|now rewrite app_nil_r].
          rewrite map_app, fold_left_app. cbn [map fold_left].
          unfold add_r2, r2_sites. cbn [fst snd].
          rewrite !wrap16_bitcount64. reflexivity.
    - rewrite for_empty by lia.
      now rewrite nq_empty, qualifying_in_empty by lia. }
  rewrite Hloop. f_equal. f_equal. f_equal.
  destruct (Z.le_gt_cases (LD.segsites t) 0) as [Hle|Hgt].
  - now rewrite !qualifying_in_empty by lia.
  - rewrite (pairs_of_qualifying t i (LD.segsites t)
               (Z.to_nat (LD.segsites t)) 0) by lia.
    fold after.
    pose proof (qualifying_in_last t i 0 (LD.segsites t - 1) ltac:(lia)) as Hl.
    replace (LD.segsites t - 1 + 1) with (LD.segsites t) in Hl by lia.
    rewrite Hl, flat_map_app.
    destruct (qualifies t i (LD.segsites t - 1)); cbn [flat_map];
      [|now rewrite app_nil_r].
    unfold after.
    rewrite (qualifying_in_empty t i (LD.segsites t - 1 + 1)) by lia.
    cbn [map app]. now rewrite app_nil_r.
Qed.

(** The counter of [calc_zns] is the number of qualifying sites when the
    last site of the buffer qualifies, and one more when it does not. *)
Lemma calc_zns_pop_counter t i :
  LD.output t <> 2 -> 1 <= LD.segsites t ->
  fst (LD.calc_zns_pop t i)
  = num_qualifying t i
    + (if qualifies t i (LD.segsites t - 1) then 0 else 1).
Proof.
  intros Ho Hs. rewrite calc_zns_pop_value by exact Ho. simpl.
  unfold num_qualifying. fold (nq t i 0 (LD.segsites t)).
  replace (LD.segsites t) with (LD.segsites t - 1 + 1) at 2 by lia.
  rewrite nq_last by lia. destruct (qualifies t i _); lia.
Qed.

(** The scenario of the specification: ten samples, two qualifying sites
    with [x0 = 3], [x1 = 4], [x11 = 2]. *)
Example calc_zns_scenario :
  let t := example_window 10 0 10 [7; 30] in
  num_qualifying t 0 = 2
  /\ rd 0 (LD.num_snps (LD.calc_zns t)) 0 = 2
  /\ rd 0%float (LD.zns (LD.calc_zns t)) 0 = (64 / 504)%float
  /\ zns_spec t 0 = (64 / 504)%float.
Proof. vm_compute. repeat split. Qed.

(** C1. The same two sites followed by a site that does not qualify (all
    ten samples derived): [calc_zns] counts the last site of the buffer
    without testing it ([calc_zns_pop_counter]), and divides the sum 64/504
    by C(3,2) = 3 where the qualifying sites are two. *)
Theorem calc_zns_counts_last_site :
  let t := example_window 10 0 10 [7; 30; 1023] in
  num_qualifying t 0 = 2
  /\ zns_spec t 0 = (64 / 504)%float
  /\ rd 0 (LD.num_snps (LD.calc_zns t)) 0 = 3
  /\ rd 0%float (LD.zns (LD.calc_zns t)) 0 = (64 / 504 * (1 / 3))%float
  /\ rd 0%float (LD.zns (LD.calc_zns t)) 0 <> zns_spec t 0.
Proof.
  cbv zeta. repeat split; try (vm_compute; reflexivity). float_neq.
Qed.

(** C6. Two orders of the same three sites: with the site that does not
    qualify in the last place [calc_zns] returns a third of what it returns
    with that site in the first place. *)
Theorem calc_zns_depends_on_order :
  let t1 := example_window 10 0 10 [7; 30; 1023] in
  let t2 := example_window 10 0 10 [1023; 7; 30] in
  Permutation [7; 30; 1023] [1023; 7; 30]
  /\ rd 0%float (LD.zns (LD.calc_zns t1)) 0 = (64 / 504 * (1 / 3))%float
  /\ rd 0%float (LD.zns (LD.calc_zns t2)) 0 = (64 / 504)%float
  /\ rd 0%float (LD.zns (LD.calc_zns t1)) 0
     <> rd 0%float (LD.zns (LD.calc_zns t2)) 0.
Proof.
  cbv zeta. split; [|repeat split; try (vm_compute; reflexivity); float_neq].
  change [1023; 7; 30] with ([1023] ++ [7; 30]).
  change [7; 30; 1023] with ([7; 30] ++ [1023]).
  apply Permutation_app_comm.
Qed.

(** ** calc_omegamax *)

(** C2. Four qualifying sites, the first three alike: the sums of
    [calc_omegamax] are not reset between split points, so the second split
    is scored on the sums of both splits and the function returns less
    than 2 (about 37/23) where the largest omega(i) is 9.  With three sites
    and no r2 between the blocks it returns infinity. *)
Theorem calc_omegamax_accumulates :
  let t := example_window 4 1 10 [1; 1; 1; 2] in
  let u := example_window 4 1 10 [3; 3; 5] in
  num_qualifying t 0 = 4
  /\ fst (LD.calc_omegamax_pop t 0) = 4
  /\ (snd (LD.calc_omegamax_pop t 0) <? 2)%float = true
  /\ omegamax_spec (LD.r2 (LD.omega_matrix t 0)) 4 = 9%float
  /\ omega_at (LD.r2 (LD.omega_matrix u 0)) 3 1 = None
  /\ LD.calc_omegamax_pop u 0 = (3, infinity).
Proof. vm_compute. repeat split. Qed.

(** ** print_ld and the SNP counters *)

Lemma calc_zns_pop_snps t i :
  LD.output t <> 2 -> fst (LD.calc_zns_pop t i) <= num_qualifying t i + 1.
Proof.
  intros Ho. unfold LD.calc_zns_pop.
  match goal with |- context [for_ 0 (LD.segsites t - 1) ?f ?s] =>
    set (body := f); set (s0 := s) end.
  assert (Hb : fst (for_ 0 (LD.segsites t - 1) body s0)
               <= nq t i 0 (LD.segsites t)).
  { destruct (Z.le_gt_cases 0 (LD.segsites t - 1)) as [Hle|Hgt].
    - apply Z.le_trans with (nq t i 0 (LD.segsites t - 1));
        [|apply nq_mono; lia].
      apply (for_invariant (fun j st => fst st <= nq t i 0 j)); [lia| |].
      + simpl. apply nq_nonneg.
      + intros j [snps z] Hj Hst. simpl in Hst.
        rewrite nq_last by lia. rewrite qualifies_count by exact Ho.
        unfold body. destruct (LD.variable_in t _ _); simpl; lia.
    - rewrite for_empty by lia. simpl. apply nq_nonneg. }
  destruct (for_ 0 (LD.segsites t - 1) body s0) as [snps z].
  simpl in *. unfold num_qualifying. fold (nq t i 0 (LD.segsites t)). lia.
Qed.

Lemma snps_bounded_start t :
  (forall i, 0 <= i -> rd 0 (LD.num_snps t) i = 0) -> snps_bounded t t.
Proof.
  intros Hz. split; [apply same_sites_refl|].
  intros i Hi. rewrite Hz by lia. unfold num_qualifying. lia.
Qed.

Lemma snps_bounded_write t t' i snps z o b q :
  snps_bounded t t' -> 0 <= i -> snps <= num_qualifying t i + 1 ->
  snps_bounded t (LD.set_stats t' (wr (LD.num_snps t') i snps) z o b q).
Proof.
  intros [Hs Hb] Hi Hsn. split; [now apply same_sites_set_stats|].
  intros i' Hi'. cbn. rewrite rd_wr by lia.
  destruct ((i =? i') && _) eqn:E; [|now apply Hb].
  apply andb_true_iff in E as [E _]. apply Z.eqb_eq in E. now subst.
Qed.

Lemma calc_zns_bounded t :
  LD.output t <> 2 ->
  (forall i, 0 <= i -> rd 0 (LD.num_snps t) i = 0) ->
  snps_bounded t (LD.calc_zns t).
Proof.
  intros Ho Hz. unfold LD.calc_zns.
  destruct (LD.segsites t <? 1); [now apply snps_bounded_start|].
  apply for_preserves; [now apply snps_bounded_start|].
  intros i t' Hi Hb.
  pose proof (calc_zns_pop_snps t' i) as Hp.
  destruct (LD.calc_zns_pop t' i) as [snps z]. simpl in Hp.
  apply snps_bounded_write; [exact Hb|lia|].
  destruct Hb as [Hs _].
  rewrite <- (num_qualifying_same t t' i Hs). apply Hp.
  now rewrite (ss_output _ _ Hs).
Qed.

Lemma omega_matrix_snps t j :
  LD.output t <> 2 ->
  LD.m_snps (LD.omega_matrix t j) <= num_qualifying t j.
Proof.
  intros Ho. unfold LD.omega_matrix.
  match goal with |- context [for_ 0 (LD.segsites t - 1) ?f ?s] =>
    set (body := f); set (s0 := s) end.
  destruct (Z.le_gt_cases 0 (LD.segsites t - 1)) as [Hle|Hgt].
  - apply Z.le_trans with (nq t j 0 (LD.segsites t - 1));
      [|apply nq_mono; lia].
    apply (for_invariant (fun i st => LD.m_snps st <= nq t j 0 i)); [lia| |].
    + simpl. apply nq_nonneg.
    + intros i st Hi Hst. rewrite nq_last by lia.
      rewrite qualifies_count by exact Ho. unfold body.
      destruct (LD.variable_in t _ _); [|lia]. cbn [LD.m_snps].
      match goal with |- LD.m_snps (for_ ?lo ?hi ?f ?s) <= _ =>
        assert (Hin : LD.m_snps (for_ lo hi f s) = LD.m_snps st + 1) end.
      { apply (for_preserves (fun st' => LD.m_snps st' = LD.m_snps st + 1));
          [reflexivity|].
        intros k st' Hk Hst'. destruct (LD.variable_in t _ _); [|exact Hst'].
        exact Hst'. }
      lia.
  - rewrite for_empty by lia. simpl. unfold num_qualifying. lia.
Qed.

Lemma calc_omegamax_bounded t :
  LD.output t <> 2 ->
  (forall i, 0 <= i -> rd 0 (LD.num_snps t) i = 0) ->
  snps_bounded t (LD.calc_omegamax t).
Proof.
  intros Ho Hz. unfold LD.calc_omegamax.
  destruct (LD.segsites t <? 1); [now apply snps_bounded_start|].
  apply for_preserves; [now apply snps_bounded_start|].
  intros j t' Hj Hb. unfold LD.calc_omegamax_pop.
  apply snps_bounded_write; [exact Hb|lia|].
  destruct Hb as [Hs _].
  rewrite <- (num_qualifying_same t t' j Hs).
  pose proof (omega_matrix_snps t' j) as Hp.
  rewrite (ss_output _ _ Hs) in Hp. specialize (Hp Ho). lia.
Qed.

Lemma wall_visit_snps t i j st :
  LD.w_num_snps (LD.wall_visit t i j st)
  = if (0 <? fst (LD.wall_masks t i j))
       && (fst (LD.wall_masks t i j) <? rd 0 (LD.pop_mask t) j)
    then wr (LD.w_num_snps st) j (rd 0 (LD.w_num_snps st) j + 1)
    else LD.w_num_snps st.
Proof.
  unfold LD.wall_visit. destruct (LD.wall_masks t i j) as [type complem].
  simpl. destruct ((0 <? type) && _); [|reflexivity].
  destruct (rd 0 (LD.w_num_snps st) j =? 0); reflexivity.
Qed.

Lemma wall_scan_snps t :
  LD.output t = 2 ->
  (forall j, 0 <= j -> rd 0 (LD.num_snps t) j = 0) ->
  forall j, 0 <= j ->
    rd 0 (LD.w_num_snps (LD.wall_scan t)) j <= num_qualifying t j.
Proof.
  intros Ho Hz. unfold LD.wall_scan.
  match goal with |- context [for_ 0 (LD.segsites t) ?f ?s] =>
    set (body := f); set (s0 := s) end.
  assert (H0 : forall j, 0 <= j -> rd 0 (LD.w_num_snps s0) j <= nq t j 0 0).
  { intros j Hj. subst s0. cbn. rewrite Hz by lia. apply nq_nonneg. }
  destruct (Z.le_gt_cases 0 (LD.segsites t)) as [Hle|Hgt].
  - apply (for_invariant
             (fun i st => forall j, 0 <= j ->
                rd 0 (LD.w_num_snps st) j <= nq t j 0 i)); [lia|exact H0|].
    intros i st Hi Hst. unfold body.
    assert (Hin : forall hi, 0 <= hi ->
              forall j, 0 <= j ->
                rd 0 (LD.w_num_snps (for_ 0 hi (fun j => LD.wall_visit t i j) st)) j
                <= if j <? hi then nq t j 0 (i + 1) else nq t j 0 i).
    { intros hi Hhi.
      apply (for_invariant
               (fun hi st' => forall j, 0 <= j ->
                  rd 0 (LD.w_num_snps st') j
                  <= if j <? hi then nq t j 0 (i + 1) else nq t j 0 i));
        [lia| |].
      - intros j Hj. destruct (Z.ltb_spec j 0); [lia|]. now apply Hst.
      - intros p st' Hp Hst' j Hj. rewrite wall_visit_snps.
        rewrite <- (qualifies_wall t p i Ho).
        specialize (Hst' j Hj).
        pose proof (nq_last t j 0 i ltac:(lia)) as Hl.
        pose proof (nq_last t p 0 i ltac:(lia)) as Hlp.
        destruct (Z.ltb_spec j p), (Z.ltb_spec j (p + 1)); try lia.
        + destruct (qualifies t p i); [|exact Hst'].
          rewrite rd_wr_ne by lia. exact Hst'.
        + assert (j = p) by lia. subst j.
          destruct (qualifies t p i); [|lia].
          rewrite rd_wr by lia.
          destruct ((p =? p) && _); lia.
        + destruct (qualifies t p i); [|exact Hst'].
          rewrite rd_wr_ne by lia. exact Hst'. }
    intros j Hj.
    destruct (Z.le_gt_cases 0 (LD.sm_npops t)) as [Hn|Hn].
    + specialize (Hin (LD.sm_npops t) Hn j Hj).
      pose proof (nq_mono t j 0 i (i + 1) ltac:(lia)).
      destruct (j <? LD.sm_npops t); lia.
    + rewrite for_empty by lia.
      pose proof (nq_mono t j 0 i (i + 1) ltac:(lia)).
      specialize (Hst j Hj). lia.
  - rewrite for_empty by lia. intros j Hj.
    specialize (H0 j Hj). rewrite nq_empty in H0 by lia.
    unfold num_qualifying. lia.
Qed.

Lemma calc_wall_bounded t :
  LD.output t = 2 ->
  (forall i, 0 <= i -> rd 0 (LD.num_snps t) i = 0) ->
  snps_bounded t (LD.calc_wall t).
Proof.
  intros Ho Hz. unfold LD.calc_wall.
  destruct (LD.segsites t <? 1); [now apply snps_bounded_start|].
  apply for_preserves.
  - split; [now split|]. intros i Hi. cbn.
    pose proof (wall_scan_snps t Ho Hz i Hi). lia.
  - intros i t' Hi [Hs Hb]. split.
    + unfold LD.set_wall. now apply same_sites_set_stats.
    + exact Hb.
Qed.

Lemma calc_ld_bounded t :
  (forall i, 0 <= i -> rd 0 (LD.num_snps t) i = 0) ->
  0 <= LD.output t <= 2 ->
  snps_bounded t (LD.calc_ld t).
Proof.
  intros Hz Ho. unfold LD.calc_ld.
  destruct (Z.eqb_spec (LD.output t) 0); [apply calc_zns_bounded; auto; lia|].
  destruct (Z.eqb_spec (LD.output t) 1);
    [apply calc_omegamax_bounded; auto; lia|].
  apply calc_wall_bounded; auto. lia.
Qed.

(** C5, as stated, fails: [print_ld] prints a statistic whenever
    [num_snps[i] >= min_snps], and [min_snps] is an option of the run. *)
Lemma print_ld_prints_single_site :
  let t := example_window 4 0 1 [3] in
  num_qualifying t 0 = 1
  /\ LD.report_ld t = (8, [(1, [LD.Num nan])]).
Proof. vm_compute. repeat split. Qed.

(** C5, amended.  [print_ld] reports NA when the counter [num_snps[i]] is
    below the option [min_snps] (default 10), and the counter never exceeds
    the number of qualifying sites by more than one: whenever
    [min_snps >= 3], a population with fewer than 2 qualifying SNPs in the
    window has each of Zns, Omega-max and Wall's B and Q reported as NA. *)
Theorem print_ld_NA_below_two (t : LD.ldData) (i : Z) :
  0 <= LD.output t <= 2 ->
  (forall j, 0 <= j -> rd 0 (LD.num_snps t) j = 0) ->
  3 <= LD.min_snps t ->
  0 <= i < LD.sm_npops t ->
  num_qualifying t i < 2 ->
  exists snps,
    snd (LD.report_ld t) !! Z.to_nat i
    = Some (snps, if LD.output t =? 2 then [LD.NA; LD.NA] else [LD.NA])
    /\ snps < LD.min_snps t.
Proof.
  intros Ho Hz Hmin Hi Hq.
  destruct (calc_ld_bounded t Hz Ho) as [Hs Hb].
  unfold LD.report_ld, LD.print_ld. cbn [fst snd].
  exists (rd 0 (LD.num_snps (LD.calc_ld t)) i).
  specialize (Hb i ltac:(lia)).
  rewrite list_lookup_fmap, lookup_seqZ_lt
    by (rewrite (ss_npops _ _ Hs); lia).
  simpl. rewrite Z2Nat.id by lia. rewrite Z.add_0_l.
  unfold LD.print_pop.
  rewrite (ss_min_snps _ _ Hs), (ss_output _ _ Hs).
  destruct (Z.leb_spec (LD.min_snps t) (rd 0 (LD.num_snps (LD.calc_ld t)) i));
    [lia|].
  split; [reflexivity|lia].
Qed.

Lemma print_ld_NA_below_two_witness :
  exists snps,
    snd (LD.report_ld (example_window 4 2 10 [3])) !! Z.to_nat 0
    = Some (snps,
            if LD.output (example_window 4 2 10 [3]) =? 2
            then [LD.NA; LD.NA] else [LD.NA])
    /\ snps < LD.min_snps (example_window 4 2 10 [3]).
Proof.
  apply (print_ld_NA_below_two (example_window 4 2 10 [3]) 0).
  - simpl. lia.
  - intros j Hj. unfold rd. simpl. destruct (Z.to_nat j) as [|[|n]]; reflexivity.
  - simpl. lia.
  - simpl. lia.
  - vm_compute. reflexivity.
Defined.

(** With the default [min_snps = 10] the three statistics of a window with
    one qualifying site are all printed as NA. *)
Example print_ld_default_NA :
  LD.report_ld (example_window 4 0 10 [3]) = (8, [(1, [LD.NA])])
  /\ LD.report_ld (example_window 4 1 10 [3]) = (8, [(1, [LD.NA])])
  /\ LD.report_ld (example_window 4 2 10 [3]) = (8, [(1, [LD.NA; LD.NA])]).
Proof. vm_compute. repeat split. Qed.

(** Wall's B of five sites with the same bipartition is 1. *)
Example calc_wall_identical_sites :
  let t := LD.calc_wall (example_window 4 2 2 [3; 3; 3; 3; 3]) in
  rd 0 (LD.num_snps t) 0 = 5
  /\ rd 0%float (LD.wallb t) 0 = 1%float
  /\ rd 0%float (LD.wallq t) 0 = (4 / 5)%float.
Proof. vm_compute. repeat split. Qed.

(** ** calc_sfs and print_sfs *)

Section SfsCoverage.

Variable BAM_OUTGROUP : Z.

Local Abbreviation sfs_step := (sfs_step BAM_OUTGROUP).

Lemma calc_sfs_pop_below t p th :
  SFS.sites_threshold t = Some th ->
  rd 0 (SFS.ns t) p < th ->
  SFS.calc_sfs_pop BAM_OUTGROUP t p
  = Some (rd 0 (SFS.num_snps t) p, F64.quiet_NaN, F64.quiet_NaN).
Proof.
  intros Hth Hlt. unfold SFS.calc_sfs_pop. rewrite Hth.
  destruct (Z.leb_spec th (rd 0 (SFS.ns t) p)); [lia|reflexivity].
Qed.

Lemma calc_sfs_unfold t :
  SFS.calc_sfs BAM_OUTGROUP t
  = for_ 0 (SFS.sm_npops t) sfs_step
      (Some (SFS.set_results t (SFS.count_aligned t) (SFS.num_snps t)
               (SFS.td t) (SFS.fwh t))).
Proof. reflexivity. Qed.

End SfsCoverage.


(** The branch of population [i] reads, of the results, only its own
    entries. *)
Lemma calc_sfs_pop_frame BAM_OUTGROUP t1 snps td fwh i :
  rd 0 snps i = rd 0 (SFS.num_snps t1) i ->
  SFS.frd td i = SFS.frd (SFS.td t1) i ->
  SFS.frd fwh i = SFS.frd (SFS.fwh t1) i ->
  SFS.calc_sfs_pop BAM_OUTGROUP (SFS.set_results t1 (SFS.ns t1) snps td fwh) i
  = SFS.calc_sfs_pop BAM_OUTGROUP t1 i.
Proof.
  intros E1 E2 E3.
  unfold SFS.calc_sfs_pop, SFS.sites_threshold, SFS.sfs_sites, SFS.sfs_finalize.
  cbn [SFS.set_results SFS.beg SFS.end_ SFS.sm_n SFS.sm_npops SFS.flag
       SFS.outpop SFS.outidx SFS.min_sites SFS.pop_mask SFS.num_sites
       SFS.segsites SFS.types SFS.pop_cov SFS.ncov SFS.a1 SFS.a2 SFS.e1
       SFS.e2 SFS.dw SFS.hw SFS.ns SFS.num_snps SFS.td SFS.fwh].
  rewrite E1, E2, E3. reflexivity.
Qed.

Lemma sfs_step_run BAM_OUTGROUP t1 p th i t :
  SFS.sites_threshold t1 = Some th ->
  rd 0 (SFS.ns t1) p < th ->
  0 <= p < Z.of_nat (length (SFS.td t1)) ->
  0 <= p < Z.of_nat (length (SFS.fwh t1)) ->
  0 <= i ->
  SFS.calc_sfs_pop BAM_OUTGROUP t1 i <> None ->
  sfs_run_inv t1 p i t ->
  exists t', sfs_step BAM_OUTGROUP i (Some t) = Some t'
             /\ sfs_run_inv t1 p (i + 1) t'.
Proof.
  intros Hth Hlt Hp1 Hp2 Hi Hdef [Hst Hl1 Hl2 Hrest Hdone].
  destruct (Hrest i ltac:(lia)) as (E1 & E2 & E3).
  pose proof (calc_sfs_pop_frame BAM_OUTGROUP t1 (SFS.num_snps t) (SFS.td t)
                (SFS.fwh t) i E1 E2 E3) as Hframe.
  rewrite <- Hst in Hframe.
  unfold sfs_step. rewrite Hframe.
  destruct (SFS.calc_sfs_pop BAM_OUTGROUP t1 i) as [[[snps d] h]|] eqn:Hpop;
    [|contradiction].
  eexists. split; [reflexivity|].
  split; cbn [SFS.set_results SFS.ns SFS.num_snps SFS.td SFS.fwh].
  - rewrite Hst. reflexivity.
  - now rewrite length_wr.
  - now rewrite length_wr.
  - intros k Hk. unfold SFS.frd. rewrite !rd_wr_ne by lia.
    apply Hrest. lia.
  - intros Hpi. unfold SFS.frd.
    destruct (Z.eq_dec i p) as [-> | Hne].
    + rewrite calc_sfs_pop_below with (th := th) in Hpop by assumption.
      injection Hpop as _ <- <-.
      rewrite !rd_wr_eq by lia. auto.
    + rewrite !rd_wr_ne by lia. apply Hdone. lia.
Qed.



(** The condition on the other populations is needed: in the same window
    without the segregating site the first population is below the
    threshold as before, but the second reaches it with no segregating
    site, its average coverage is 0/0, and [calc_sfs] has no defined
    result. *)
Example calc_sfs_undefined_beside :
  SFS.sites_threshold (example_sfs_two_pops 0) = Some 2
  /\ SFS.count_aligned (example_sfs_two_pops 0) = [1; 5]
  /\ sfs_defined example_BAM_OUTGROUP (example_sfs_two_pops 0) 1 = false
  /\ SFS.calc_sfs example_BAM_OUTGROUP (example_sfs_two_pops 0) = None.
Proof. vm_compute. repeat split. Qed.

(** The window of the witness is computed to the end: one aligned site,
    and a window without any, both print NA twice. *)
Example calc_sfs_reports_NA :
  option_map SFS.print_sfs (SFS.calc_sfs example_BAM_OUTGROUP (example_sfs 1))
  = Some [(1, LD.NA, LD.NA)]
  /\ option_map SFS.print_sfs (SFS.calc_sfs example_BAM_OUTGROUP (example_sfs 0))
     = Some [(0, LD.NA, LD.NA)].
Proof. vm_compute. repeat split. Qed.

(** * Further properties *)

(** ** qualFilter *)

Lemma qualFilter_visit_inv min_rmsQ min_depth max_depth cb i st :
  0 <= i < 64 -> i < Z.of_nat (length cb) ->
  qual_inv min_rmsQ min_depth max_depth cb i st ->
  qual_inv min_rmsQ min_depth max_depth cb (i + 1)
    (Utils.qualFilter_visit min_rmsQ min_depth max_depth i st).
Proof.
  intros Hi Hlen [Hl Hrest Hdone Hbits]. destruct st as [cb' cov]. simpl in *.
  unfold Utils.qualFilter_visit.
  rewrite (Hrest i) by lia.
  change (Z.land (Z.shiftr (rd 0 cb i) (CHAR_BIT * 6)) 65535)
    with (CallWord.rms (rd 0 cb i)).
  change (Z.land (Z.shiftr (rd 0 cb i) (CHAR_BIT * 2)) 65535)
    with (CallWord.num_reads (rd 0 cb i)).
  cbv zeta.
  fold (passes_filter min_rmsQ min_depth max_depth (rd 0 cb i)).
  destruct (passes_filter min_rmsQ min_depth max_depth (rd 0 cb i)) eqn:Hp.
  - split; simpl.
    + now rewrite length_wr.
    + intros k Hk. rewrite rd_wr_ne by lia. apply Hrest. lia.
    + intros k Hk. destruct (Z.eq_dec k i) as [ -> | Hne].
      * rewrite rd_wr_eq by lia. now rewrite Hp.
      * rewrite rd_wr_ne by lia. apply Hdone. lia.
    + intros b. rewrite Z.lor_spec, Hbits.
      unfold wrap64, wrap. rewrite Z.shiftl_1_l.
      rewrite Z.mod_small by (split; [lia|apply Z.pow_lt_mono_r; lia]).
      rewrite Z.pow2_bits_eqb by lia.
      destruct (Z.eqb_spec i b) as [ <- | Hne].
      * rewrite Hp. lia.
      * rewrite orb_false_r.
        destruct (Z.ltb_spec b i), (Z.ltb_spec b (i + 1)); try lia; reflexivity.
  - split; simpl; auto.
    + intros k Hk. apply Hrest. lia.
    + intros k Hk. destruct (Z.eq_dec k i) as [ -> | Hne].
      * rewrite Hp. apply Hrest. lia.
      * apply Hdone. lia.
    + intros b. rewrite Hbits.
      destruct (Z.eq_dec b i) as [ -> | Hne].
      * rewrite Hp. now rewrite !andb_false_r.
      * destruct (Z.ltb_spec b i), (Z.ltb_spec b (i + 1)); try lia; reflexivity.
Qed.

Lemma qualFilter_inv min_rmsQ min_depth max_depth cb num_samples :
  0 <= num_samples <= 64 -> num_samples <= Z.of_nat (length cb) ->
  qual_inv min_rmsQ min_depth max_depth cb num_samples
    (Utils.qualFilter num_samples cb min_rmsQ min_depth max_depth).
Proof.
  intros Hn Hlen. unfold Utils.qualFilter.
  apply (for_invariant (qual_inv min_rmsQ min_depth max_depth cb)); [lia| |].
  - split; simpl; auto; try (intros; lia).
    intros b. rewrite Z.bits_0.
    destruct (Z.leb_spec 0 b), (Z.ltb_spec b 0); try lia; reflexivity.
  - intros i s Hi Hinv. apply qualFilter_visit_inv; [lia|lia|easy].
Qed.

(** X1. For at most 64 samples, all held by the array: bit [i] of the
    word that [qualFilter] returns is set exactly when [i < num_samples]
    and call [i] has an RMS mapping quality of at least [min_rmsQ] and a
    number of reads within [min_depth, max_depth]; every other bit is
    clear. *)
Theorem qualFilter_coverage
    (num_samples : Z) (cb : list Z) (min_rmsQ min_depth max_depth : Z) (i : Z) :
  0 <= num_samples <= 64 -> num_samples <= Z.of_nat (length cb) ->
  Z.testbit (snd (Utils.qualFilter num_samples cb min_rmsQ min_depth max_depth)) i
  = (0 <=? i) && (i <? num_samples)
    && passes_filter min_rmsQ min_depth max_depth (rd 0 cb i).
Proof.
  intros Hn Hlen.
  apply (qualFilter_inv min_rmsQ min_depth max_depth cb num_samples Hn Hlen).
Qed.

Lemma qualFilter_coverage_witness :
  Z.testbit (snd (Utils.qualFilter 3 example_column 25 3 255)) 1
  = (0 <=? 1) && (1 <? 3) && passes_filter 25 3 255 (rd 0 example_column 1).
Proof.
  apply (qualFilter_coverage 3 example_column 25 3 255 1); simpl; lia.
Defined.

(** X2. [qualFilter] keeps the length of the array, sets bit 0 (the
    filter flag) of exactly the calls among the first [num_samples] that
    meet the three thresholds, and changes no other bit of any word. *)
Theorem qualFilter_marks
    (num_samples : Z) (cb : list Z) (min_rmsQ min_depth max_depth : Z) (i : Z) :
  0 <= num_samples <= 64 -> num_samples <= Z.of_nat (length cb) ->
  0 <= i ->
  let cb' := fst (Utils.qualFilter num_samples cb min_rmsQ min_depth max_depth) in
  length cb' = length cb
  /\ rd 0 cb' i
     = (if (i <? num_samples)
           && passes_filter min_rmsQ min_depth max_depth (rd 0 cb i)
        then Z.lor (rd 0 cb i) 0x1 else rd 0 cb i)
  /\ Z.shiftr (rd 0 cb' i) 1 = Z.shiftr (rd 0 cb i) 1.
Proof.
  intros Hn Hlen Hi cb'.
  destruct (qualFilter_inv min_rmsQ min_depth max_depth cb num_samples Hn Hlen)
    as [Hl Hrest Hdone _].
  fold cb' in Hl, Hrest, Hdone.
  assert (E : rd 0 cb' i
     = (if (i <? num_samples)
           && passes_filter min_rmsQ min_depth max_depth (rd 0 cb i)
        then Z.lor (rd 0 cb i) 0x1 else rd 0 cb i)).
  { destruct (Z.ltb_spec i num_samples); simpl.
    - apply Hdone. lia.
    - apply Hrest. lia. }
  split; [exact Hl|]. split; [exact E|].
  rewrite E. destruct (_ && _); [|reflexivity].
  rewrite Z.shiftr_lor. change (Z.shiftr 1 1) with 0. apply Z.lor_0_r.
Qed.

Lemma qualFilter_marks_witness :
  let cb' := fst (Utils.qualFilter 3 example_column 25 3 255) in
  length cb' = length example_column
  /\ rd 0 cb' 0
     = (if (0 <? 3) && passes_filter 25 3 255 (rd 0 example_column 0)
        then Z.lor (rd 0 example_column 0) 0x1 else rd 0 example_column 0)
  /\ Z.shiftr (rd 0 cb' 0) 1 = Z.shiftr (rd 0 example_column 0) 1.
Proof.
  apply (qualFilter_marks 3 example_column 25 3 255 0); simpl; lia.
Defined.

(** ** cleanHeterozygotes: the fields of the word *)

Lemma allele1_range g : 0 <= CallWord.allele1 g < 4.
Proof.
  unfold CallWord.allele1. change 3 with (Z.ones 2).
  rewrite Z.land_ones by lia. apply Z.mod_pos_bound. lia.
Qed.

Lemma allele2_range g : 0 <= CallWord.allele2 g < 4.
Proof.
  unfold CallWord.allele2. change 3 with (Z.ones 2).
  rewrite Z.land_ones by lia. apply Z.mod_pos_bound. lia.
Qed.

(** The word that [cleanHeterozygotes] leaves: the two allele fields hold
    alleles of the call, everything else is as it was. *)
Lemma cleanHeterozygotes_word_shape (iupac_rev : Z -> Z) (ref min_snpq w : Z) :
  0 <= w < 2 ^ 64 ->
  let a1 := CallWord.allele1 (CallWord.genotype w) in
  let a2 := CallWord.allele2 (CallWord.genotype w) in
  exists x y,
    (x = a1 \/ x = a2) /\ (y = a1 \/ y = a2)
    /\ (a1 = a2 -> x = a1 /\ y = a2)
    /\ Utils.cleanHeterozygotes_word iupac_rev ref min_snpq w
       = (w / 2 ^ 12) * 2 ^ 12 + x * 2 ^ 10 + y * 2 ^ 8 + w mod 2 ^ 8.
Proof.
  intros Hw.
  unfold Utils.cleanHeterozygotes_word.
  change (Z.land (Z.shiftr w CHAR_BIT) 255) with (CallWord.genotype w).
  change (Z.land (Z.shiftr w (CHAR_BIT * 4)) 65535) with (CallWord.snp_quality w).
  change (Z.land (Z.shiftr (CallWord.genotype w) 2) 3)
    with (CallWord.allele1 (CallWord.genotype w)).
  change (Z.land (CallWord.genotype w) 3)
    with (CallWord.allele2 (CallWord.genotype w)).
  pose proof (word_parts w ltac:(lia)) as Hparts.
  pose proof (allele1_range (CallWord.genotype w)) as Ha1.
  pose proof (allele2_range (CallWord.genotype w)) as Ha2.
  assert (Hlo : 0 <= w mod 2 ^ 8 < 2 ^ 8) by (apply Z.mod_pos_bound; lia).
  assert (Hhi : 0 <= w / 2 ^ 12 < 2 ^ 52).
  { split; [apply Z.div_pos; lia|].
    apply Z.div_lt_upper_bound; [lia|]. change (2 ^ 12 * 2 ^ 52) with (2 ^ 64). lia. }
  cbv zeta.
  set (a1 := CallWord.allele1 (CallWord.genotype w)) in *.
  set (a2 := CallWord.allele2 (CallWord.genotype w)) in *.
  set (hi := w / 2 ^ 12) in *. set (lo := w mod 2 ^ 8) in *.
  set (q := CallWord.snp_quality w) in *.
  set (r := iupac_rev ref) in *.
  unfold CHAR_BIT.
  rewrite !Z.shiftl_mul_pow2 by lia.
  change (2 ^ (8 + 2)) with (2 ^ 10).
  assert (Hsame : forall x y,
            0 <= x < 4 -> 0 <= y < 4 ->
            wrap64 (hi * 2 ^ 12 + x * 2 ^ 10 + y * 2 ^ 8 + lo)
            = hi * 2 ^ 12 + x * 2 ^ 10 + y * 2 ^ 8 + lo).
  { intros x y Hx Hy. unfold wrap64, wrap. apply Z.mod_small. lia. }
  assert (Hup : wrap64 (w + (a2 - a1) * 2 ^ 10)
                = hi * 2 ^ 12 + a2 * 2 ^ 10 + a2 * 2 ^ 8 + lo).
  { rewrite <- Hsame by lia. f_equal. lia. }
  assert (Hdown : wrap64 (w - (a2 - a1) * 2 ^ 8)
                  = hi * 2 ^ 12 + a1 * 2 ^ 10 + a1 * 2 ^ 8 + lo).
  { rewrite <- Hsame by lia. f_equal. lia. }
  assert (Hswap : wrap64 (hi * 2 ^ 12 + a2 * 2 ^ 10 + a2 * 2 ^ 8 + lo
                          - (a2 - a1) * 2 ^ 8)
                  = hi * 2 ^ 12 + a2 * 2 ^ 10 + a1 * 2 ^ 8 + lo).
  { rewrite <- (Hsame a2 a1) by lia. f_equal. lia. }
  destruct (Z.eqb_spec a1 a2) as [E|Hhet]; cbn [negb andb].
  - exists a1, a2. repeat split; auto.
  - destruct (Z.leb_spec min_snpq q) as [Hq|Hq];
      destruct (Z.ltb_spec q min_snpq) as [Hq'|Hq']; try lia;
      destruct (Z.eqb_spec a1 r) as [E1|E1], (Z.eqb_spec a2 r) as [E2|E2];
      try lia; cbn [negb];
      rewrite ?Hup, ?Hswap, ?Hdown;
      first [ exists a2, a2; repeat split; auto; lia
            | exists a1, a1; repeat split; auto; lia
            | exists a2, a1; repeat split; auto; lia
            | exists a1, a2; repeat split; auto; lia ].
Qed.

Lemma cleanHeterozygotes_at (iupac_rev : Z -> Z) (ref min_snpq : Z) (cb : list Z)
    (num_samples : Z) :
  0 <= num_samples <= Z.of_nat (length cb) ->
  let cb' := Utils.cleanHeterozygotes iupac_rev num_samples cb ref min_snpq in
  length cb' = length cb
  /\ forall i, 0 <= i ->
       rd 0 cb' i
       = if i <? num_samples
         then Utils.cleanHeterozygotes_word iupac_rev ref min_snpq (rd 0 cb i)
         else rd 0 cb i.
Proof.
  intros Hn. cbv zeta. unfold Utils.cleanHeterozygotes.
  apply (for_invariant
           (fun n (l : list Z) =>
              length l = length cb
              /\ forall i, 0 <= i ->
                   rd 0 l i
                   = if i <? n
                     then Utils.cleanHeterozygotes_word iupac_rev ref min_snpq
                            (rd 0 cb i)
                     else rd 0 cb i)); [lia| |].
  - split; [reflexivity|]. intros i Hi.
    destruct (Z.ltb_spec i 0); [lia|reflexivity].
  - intros n l Hn' [Hl Hrd]. split; [now rewrite length_wr|].
    intros i Hi. rewrite rd_wr by lia. rewrite Hl.
    destruct (Z.eqb_spec n i) as [ -> | Hne]; simpl.
    + destruct (Z.ltb_spec i (Z.of_nat (length cb))); [|lia].
      destruct (Z.ltb_spec i (i + 1)); [|lia].
      rewrite Hrd by lia. destruct (Z.ltb_spec i i); [lia|reflexivity].
    + rewrite Hrd by lia.
      destruct (Z.ltb_spec i n), (Z.ltb_spec i (n + 1)); try lia; reflexivity.
Qed.

Lemma word_fields (w w' : Z) :
  0 <= w -> 0 <= w' ->
  w' / 2 ^ 12 = w / 2 ^ 12 -> w' mod 2 ^ 8 = w mod 2 ^ 8 ->
  CallWord.passes w' = CallWord.passes w
  /\ CallWord.variant w' = CallWord.variant w
  /\ CallWord.num_reads w' = CallWord.num_reads w
  /\ CallWord.snp_quality w' = CallWord.snp_quality w
  /\ CallWord.rms w' = CallWord.rms w.
Proof.
  intros Hw Hw' Hhi Hlo.
  unfold CallWord.passes, CallWord.variant, CallWord.num_reads,
    CallWord.snp_quality, CallWord.rms, CHAR_BIT.
  assert (Hbit : forall n, 0 <= n -> (n < 8 \/ 12 <= n) ->
                   Z.testbit w' n = Z.testbit w n).
  { intros n Hn [Hlt|Hge].
    - rewrite <- (Z.mod_pow2_bits_low w' 8 n), <- (Z.mod_pow2_bits_low w 8 n) by lia.
      now rewrite Hlo.
    - replace n with ((n - 12) + 12) by lia.
      rewrite <- !Z.shiftr_spec by lia.
      rewrite !Z.shiftr_div_pow2 by lia. now rewrite Hhi. }
  repeat split; apply Z.bits_inj'; intros n Hn;
    rewrite !Z.land_spec, ?Z.shiftr_spec by lia.
  - destruct (Z.eq_dec n 0) as [ -> |]; [now rewrite Hbit by lia|].
    change 1 with (Z.ones 1). rewrite Z.ones_spec_high by lia.
    now rewrite !andb_false_r.
  - destruct (Z.eq_dec n 1) as [ -> |]; [now rewrite Hbit by lia|].
    destruct (Z.eq_dec n 0) as [ -> |]; [now rewrite Hbit by lia|].
    replace (Z.testbit 2 n) with false; [now rewrite !andb_false_r|].
    symmetry. change 2 with (2 ^ 1). rewrite Z.pow2_bits_eqb by lia.
    apply Z.eqb_neq. lia.
  - now rewrite Hbit by lia.
  - now rewrite Hbit by lia.
  - now rewrite Hbit by lia.
Qed.

Lemma cleanHeterozygotes_word_range (iupac_rev : Z -> Z) (ref min_snpq w : Z) :
  0 <= w < 2 ^ 64 ->
  0 <= Utils.cleanHeterozygotes_word iupac_rev ref min_snpq w < 2 ^ 64.
Proof.
  intros Hw.
  destruct (cleanHeterozygotes_word_shape iupac_rev ref min_snpq w Hw)
    as (x & y & Hx & Hy & _ & ->).
  pose proof (allele1_range (CallWord.genotype w)).
  pose proof (allele2_range (CallWord.genotype w)).
  assert (Hlo : 0 <= w mod 2 ^ 8 < 2 ^ 8) by (apply Z.mod_pos_bound; lia).
  assert (Hhi : 0 <= w / 2 ^ 12 < 2 ^ 52).
  { split; [apply Z.div_pos; lia|].
    apply Z.div_lt_upper_bound; [lia|]. change (2 ^ 12 * 2 ^ 52) with (2 ^ 64). lia. }
  lia.
Qed.

(** X3. On an array of 64-bit words that holds the [num_samples] calls,
    [cleanHeterozygotes] keeps the length of the array, leaves unchanged
    the homozygous calls and the words from index [num_samples] on, and in
    every word keeps the two flags, the number of reads, the SNP quality
    and the RMS mapping quality; each allele of the new genotype is one of
    the two alleles of the old one. *)
Theorem cleanHeterozygotes_keeps_fields
    (iupac_rev : Z -> Z) (num_samples : Z) (cb : list Z) (ref min_snpq : Z) (i : Z) :
  0 <= num_samples <= Z.of_nat (length cb) ->
  (forall k, 0 <= rd 0 cb k < 2 ^ 64) ->
  0 <= i ->
  let cb' := Utils.cleanHeterozygotes iupac_rev num_samples cb ref min_snpq in
  let w := rd 0 cb i in
  let w' := rd 0 cb' i in
  length cb' = length cb
  /\ (CallWord.homozygous w = true \/ num_samples <= i -> w' = w)
  /\ CallWord.passes w' = CallWord.passes w
  /\ CallWord.variant w' = CallWord.variant w
  /\ CallWord.num_reads w' = CallWord.num_reads w
  /\ CallWord.snp_quality w' = CallWord.snp_quality w
  /\ CallWord.rms w' = CallWord.rms w
  /\ (CallWord.allele1 (CallWord.genotype w') = CallWord.allele1 (CallWord.genotype w)
      \/ CallWord.allele1 (CallWord.genotype w') = CallWord.allele2 (CallWord.genotype w))
  /\ (CallWord.allele2 (CallWord.genotype w') = CallWord.allele1 (CallWord.genotype w)
      \/ CallWord.allele2 (CallWord.genotype w') = CallWord.allele2 (CallWord.genotype w)).
Proof.
  intros Hn Hcb Hi cb' w w'.
  destruct (cleanHeterozygotes_at iupac_rev ref min_snpq cb num_samples Hn)
    as [Hl Hrd].
  fold cb' in Hl, Hrd. specialize (Hrd i Hi). fold w w' in Hrd.
  split; [exact Hl|].
  destruct (Z.ltb_spec i num_samples) as [Hlt|Hge].
  2:{ rewrite Hrd. repeat split; auto. }
  pose proof (Hcb i) as Hw. fold w in Hw.
  destruct (cleanHeterozygotes_word_shape iupac_rev ref min_snpq w Hw)
    as (x & y & Hx & Hy & Hhom & E).
  rewrite <- Hrd in E.
  pose proof (allele1_range (CallWord.genotype w)) as Ha1.
  pose proof (allele2_range (CallWord.genotype w)) as Ha2.
  assert (Hlo : 0 <= w mod 2 ^ 8 < 2 ^ 8) by (apply Z.mod_pos_bound; lia).
  assert (Hhi : 0 <= w / 2 ^ 12) by (apply Z.div_pos; lia).
  destruct (word_alleles (w / 2 ^ 12) x y (w mod 2 ^ 8))
    as (E1 & E2 & E3 & E4); try lia.
  cbv zeta in E1, E2, E3, E4. rewrite <- E in E1, E2, E3, E4.
  assert (Hw' : 0 <= w') by (rewrite E; lia).
  destruct (word_fields w w' ltac:(lia) Hw' E3 E4) as (F1 & F2 & F3 & F4 & F5).
  split.
  { intros [Hh|Hh]; [|lia].
    unfold CallWord.homozygous in Hh. apply Z.eqb_eq in Hh.
    destruct (Hhom Hh) as [-> ->]. rewrite E.
    symmetry. apply word_parts. lia. }
  repeat split; auto; rewrite ?E1, ?E2; auto.
Qed.

Lemma example_hets_words k : 0 <= rd 0 example_hets k < 2 ^ 64.
Proof.
  unfold rd. destruct (Z.to_nat k) as [|[|[|[|n]]]]; vm_compute;
    split; congruence.
Qed.

Lemma cleanHeterozygotes_keeps_fields_witness :
  let cb' := Utils.cleanHeterozygotes iupac_rev_std 3 example_hets 65 25 in
  let w := rd 0 example_hets 2 in
  let w' := rd 0 cb' 2 in
  length cb' = length example_hets
  /\ (CallWord.homozygous w = true \/ 3 <= 2 -> w' = w)
  /\ CallWord.passes w' = CallWord.passes w
  /\ CallWord.variant w' = CallWord.variant w
  /\ CallWord.num_reads w' = CallWord.num_reads w
  /\ CallWord.snp_quality w' = CallWord.snp_quality w
  /\ CallWord.rms w' = CallWord.rms w
  /\ (CallWord.allele1 (CallWord.genotype w') = CallWord.allele1 (CallWord.genotype w)
      \/ CallWord.allele1 (CallWord.genotype w') = CallWord.allele2 (CallWord.genotype w))
  /\ (CallWord.allele2 (CallWord.genotype w') = CallWord.allele1 (CallWord.genotype w)
      \/ CallWord.allele2 (CallWord.genotype w') = CallWord.allele2 (CallWord.genotype w)).
Proof.
  apply (cleanHeterozygotes_keeps_fields iupac_rev_std 3 example_hets 65 25 2);
    [simpl; lia | exact example_hets_words | lia].
Defined.

(** X4. A heterozygous call among the first [num_samples], one of whose
    alleles is the reference allele [iupac_rev[ref]], leaves
    [cleanHeterozygotes] homozygous: for the other allele when its SNP
    quality is at least [min_snpq], for the reference allele otherwise. *)
Theorem cleanHeterozygotes_resolves_ref_pair
    (iupac_rev : Z -> Z) (num_samples : Z) (cb : list Z) (ref min_snpq : Z) (i : Z) :
  0 <= i < num_samples -> num_samples <= Z.of_nat (length cb) ->
  0 <= rd 0 cb i < 2 ^ 64 ->
  let w := rd 0 cb i in
  let a1 := CallWord.allele1 (CallWord.genotype w) in
  let a2 := CallWord.allele2 (CallWord.genotype w) in
  a1 <> a2 -> a1 = iupac_rev ref \/ a2 = iupac_rev ref ->
  let w' := rd 0 (Utils.cleanHeterozygotes iupac_rev num_samples cb ref min_snpq) i in
  CallWord.homozygous w' = true
  /\ CallWord.allele1 (CallWord.genotype w')
     = (if min_snpq <=? CallWord.snp_quality w
        then (if a1 =? iupac_rev ref then a2 else a1)
        else iupac_rev ref).
Proof.
  intros Hi Hn Hw w a1 a2 Hhet Href w'.
  destruct (cleanHeterozygotes_at iupac_rev ref min_snpq cb num_samples
              ltac:(lia)) as [_ Hrd].
  specialize (Hrd i ltac:(lia)).
  destruct (Z.ltb_spec i num_samples); [|lia].
  fold w w' in Hrd.
  destruct (cleanHeterozygotes_word_one_ref iupac_rev ref min_snpq w Hw Hhet Href)
    as (E1 & E2 & _).
  cbv zeta in E1, E2. rewrite <- Hrd in E1, E2.
  split.
  - unfold CallWord.homozygous. rewrite E1, E2. apply Z.eqb_refl.
  - exact E1.
Qed.

Lemma cleanHeterozygotes_resolves_ref_pair_witness :
  let w := rd 0 example_hets 0 in
  let a1 := CallWord.allele1 (CallWord.genotype w) in
  let a2 := CallWord.allele2 (CallWord.genotype w) in
  let w' := rd 0 (Utils.cleanHeterozygotes iupac_rev_std 3 example_hets 65 25) 0 in
  CallWord.homozygous w' = true
  /\ CallWord.allele1 (CallWord.genotype w')
     = (if 25 <=? CallWord.snp_quality w
        then (if a1 =? iupac_rev_std 65 then a2 else a1)
        else iupac_rev_std 65).
Proof.
  apply (cleanHeterozygotes_resolves_ref_pair iupac_rev_std 3 example_hets 65 25 0);
    [lia | simpl; lia | exact (example_hets_words 0)
    | vm_compute; congruence | left; reflexivity].
Defined.

(** ** segBase: the tallies and the words *)

Lemma count_below_0 P : count_below P 0 = 0.
Proof. reflexivity. Qed.

Lemma count_below_last P n :
  0 <= n -> count_below P (n + 1) = count_below P n + (if P n then 1 else 0).
Proof.
  intros Hn. unfold count_below.
  rewrite seqZ_app by lia. rewrite filter_app, length_app.
  rewrite (seqZ_cons _ 1) by lia. rewrite (seqZ_nil _ (Z.pred 1)) by lia.
  rewrite Z.add_0_l.
  destruct (P n) eqn:E.
  - rewrite filter_cons_True by exact E. simpl. lia.
  - rewrite filter_cons_False by (rewrite E; discriminate). simpl. lia.
Qed.

Lemma count_below_nonneg P n : 0 <= count_below P n.
Proof. unfold count_below. lia. Qed.

Lemma count_below_bound P n : 0 <= n -> count_below P n <= n.
Proof.
  intros Hn. unfold count_below.
  pose proof (length_filter (fun k => P k = true) (seqZ 0 n)) as H.
  rewrite length_seqZ in H. lia.
Qed.

Lemma count_below_pos P n :
  0 < count_below P n -> exists k, 0 <= k < n /\ P k = true.
Proof.
  unfold count_below. intros H.
  destruct (filter (fun k => P k = true) (seqZ 0 n)) as [|k l] eqn:E;
    [simpl in H; lia|].
  assert (Hin : k ∈ filter (fun k => P k = true) (seqZ 0 n))
    by (rewrite E; left).
  apply list_elem_of_filter in Hin. destruct Hin as [Hp Hk].
  apply elem_of_seqZ in Hk. exists k. split; [lia|exact Hp].
Qed.

Section SegCount.

Variable iupac : Z -> Z.
Variable iupac_rev : Z -> Z.
Variables (ref min_snpq : Z) (cb : list Z).

Local Abbreviation inv := (seg_count_inv iupac iupac_rev ref min_snpq cb).
Local Abbreviation tallied' := (tallied iupac ref min_snpq).

Lemma tallied_reverted w : tallied' w = true -> reverted iupac ref min_snpq w = false.
Proof.
  unfold tallied, reverted.
  destruct (CallWord.homozygous w), (iupac (CallWord.genotype w) =? ref); simpl;
    try discriminate.
  lia.
Qed.

Lemma segBase_visit_count i st :
  0 <= i < Z.of_nat (length cb) -> inv i st ->
  inv (i + 1) (Utils.segBase_visit iupac iupac_rev ref min_snpq i st).
Proof.
  intros Hi [Hlen Hcb Htal Hrest Hdone]. destruct st as [cb' bc]. simpl in *.
  unfold Utils.segBase_visit.
  rewrite (Hrest i) by lia.
  set (w := rd 0 cb i) in *.
  change (Z.land (Z.shiftr w CHAR_BIT) 255) with (CallWord.genotype w).
  change (Z.land (Z.shiftr w (CHAR_BIT * 4)) 65535) with (CallWord.snp_quality w).
  change (Z.land (Z.shiftr (CallWord.genotype w) 2) 3) with (call_base w).
  change (Z.land (CallWord.genotype w) 3)
    with (CallWord.allele2 (CallWord.genotype w)).
  cbv zeta.
  change ((call_base w =? CallWord.allele2 (CallWord.genotype w))
          && negb (iupac (CallWord.genotype w) =? ref)
          && (min_snpq <=? CallWord.snp_quality w)) with (tallied' w).
  change ((call_base w =? CallWord.allele2 (CallWord.genotype w))
          && negb (iupac (CallWord.genotype w) =? ref)
          && (CallWord.snp_quality w <? min_snpq))
    with (reverted iupac ref min_snpq w).
  assert (Hstep : forall a, tally_of iupac ref min_snpq cb a (i + 1)
                  = tally_of iupac ref min_snpq cb a i
                    + (if tallied' w && (call_base w =? a) then 1 else 0)).
  { intros a. unfold tally_of. now rewrite count_below_last by lia. }
  pose proof (call_base_range w) as Hr.
  destruct (tallied' w) eqn:Ht.
  - split; simpl.
    + now rewrite length_wr.
    + now rewrite length_wr.
    + intros a Ha. rewrite Hstep, rd_wr by lia. rewrite Hlen. simpl.
      destruct (Z.eqb_spec (call_base w) a) as [ <- | Hne]; simpl.
      * destruct (Z.ltb_spec (call_base w) (Z.of_nat 4)); [|lia].
        rewrite Htal by lia. reflexivity.
      * rewrite Htal by lia. lia.
    + intros k Hk. rewrite rd_wr_ne by lia. apply Hrest. lia.
    + intros k Hk. destruct (Z.eq_dec k i) as [ -> | Hne].
      * rewrite rd_wr_eq by lia. fold w. now rewrite Ht.
      * rewrite rd_wr_ne by lia. apply Hdone. lia.
  - assert (Htal' : forall a, 0 <= a < 4 ->
              rd 0 bc a = tally_of iupac ref min_snpq cb a (i + 1)).
    { intros a Ha. rewrite Hstep. simpl. rewrite Htal by lia. lia. }
    destruct (reverted iupac ref min_snpq w) eqn:Hrev.
    + split; simpl; auto.
      * now rewrite length_wr.
      * intros k Hk. rewrite rd_wr_ne by lia. apply Hrest. lia.
      * intros k Hk. destruct (Z.eq_dec k i) as [ -> | Hne].
        -- rewrite rd_wr_eq by lia. fold w. now rewrite Ht, Hrev.
        -- rewrite rd_wr_ne by lia. apply Hdone. lia.
    + split; simpl; auto.
      * intros k Hk. apply Hrest. lia.
      * intros k Hk. destruct (Z.eq_dec k i) as [ -> | Hne].
        -- fold w. rewrite Ht, Hrev. apply Hrest. lia.
        -- apply Hdone. lia.
Qed.

Lemma segBase_loop_count num_samples :
  0 <= num_samples <= Z.of_nat (length cb) ->
  inv num_samples
    (for_ 0 num_samples (Utils.segBase_visit iupac iupac_rev ref min_snpq)
       (cb, [0; 0; 0; 0])).
Proof.
  intros Hn. apply (for_invariant inv); [lia| |].
  - split; simpl; auto; try (intros; lia).
    intros a Ha. unfold tally_of. rewrite count_below_0.
    assert (E : a = 0 \/ a = 1 \/ a = 2 \/ a = 3) by lia.
    destruct E as [ -> | [ -> | [ -> | -> ] ] ]; reflexivity.
  - intros i s Hi Hinv. apply segBase_visit_count; [lia|easy].
Qed.

(** Every tallied call is tallied at one of the four bases. *)
Lemma num_tallied_sum n :
  0 <= n ->
  num_tallied iupac ref min_snpq cb n
  = tally_of iupac ref min_snpq cb 0 n + tally_of iupac ref min_snpq cb 1 n
    + tally_of iupac ref min_snpq cb 2 n + tally_of iupac ref min_snpq cb 3 n.
Proof.
  intros Hn. pattern n. apply natlike_ind; [reflexivity| |exact Hn].
  intros i Hi IH. unfold num_tallied, tally_of, Z.succ in *.
  rewrite !count_below_last by lia. rewrite IH.
  pose proof (call_base_range (rd 0 cb i)) as Hr.
  destruct (tallied' (rd 0 cb i)); simpl; [|lia].
  assert (E : call_base (rd 0 cb i) = 0 \/ call_base (rd 0 cb i) = 1
              \/ call_base (rd 0 cb i) = 2 \/ call_base (rd 0 cb i) = 3) by lia.
  destruct E as [ -> | [ -> | [ -> | -> ] ] ]; simpl; lia.
Qed.

Lemma tally_of_pos a n :
  0 < tally_of iupac ref min_snpq cb a n ->
  exists k, 0 <= k < n /\ tallied' (rd 0 cb k) = true /\ call_base (rd 0 cb k) = a.
Proof.
  intros H. apply count_below_pos in H. destruct H as (k & Hk & Hp).
  apply andb_true_iff in Hp. destruct Hp as [Ht Hb].
  exists k. split; [lia|]. split; [exact Ht|lia].
Qed.

End SegCount.

(** The check on four tallies of which one at most is positive. *)
Lemma segBase_check_one c0 c1 c2 c3 :
  0 <= c0 -> 0 <= c1 -> 0 <= c2 -> 0 <= c3 ->
  (0 < c0 -> c1 = 0 /\ c2 = 0 /\ c3 = 0) ->
  (0 < c1 -> c0 = 0 /\ c2 = 0 /\ c3 = 0) ->
  (0 < c2 -> c0 = 0 /\ c1 = 0 /\ c3 = 0) ->
  (0 < c3 -> c0 = 0 /\ c1 = 0 /\ c2 = 0) ->
  let '(j, k) := Utils.segBase_check [c0; c1; c2; c3] in
  (if 1 <? j then -1 else rd 0 [c0; c1; c2; c3] k) = c0 + c1 + c2 + c3.
Proof.
  intros H0 H1 H2 H3 P0 P1 P2 P3.
  unfold Utils.segBase_check, for_.
  change (seqZ 0 (NBASES - 0)) with [0; 1; 2; 3]. simpl.
  change (rd 0 [c0; c1; c2; c3] 0) with c0.
  change (rd 0 [c0; c1; c2; c3] 1) with c1.
  change (rd 0 [c0; c1; c2; c3] 2) with c2.
  change (rd 0 [c0; c1; c2; c3] 3) with c3.
  destruct (Z.ltb_spec 0 c0), (Z.ltb_spec 0 c1),
           (Z.ltb_spec 0 c2), (Z.ltb_spec 0 c3); simpl;
    unfold rd; simpl; lia.
Qed.

(** X5. When all the calls that [segBase] tallies (homozygous, different
    from the reference letter, SNP quality at least [min_snpq], among the
    first [num_samples]) carry the same base, the function returns their
    number, which lies between 0 and [num_samples]. *)
Theorem segBase_counts_variants
    (iupac iupac_rev : Z -> Z) (num_samples : Z) (cb : list Z)
    (ref min_snpq : Z) :
  0 <= num_samples <= Z.of_nat (length cb) ->
  (forall i1 i2, 0 <= i1 < num_samples -> 0 <= i2 < num_samples ->
     tallied iupac ref min_snpq (rd 0 cb i1) = true ->
     tallied iupac ref min_snpq (rd 0 cb i2) = true ->
     call_base (rd 0 cb i1) = call_base (rd 0 cb i2)) ->
  snd (Utils.segBase iupac iupac_rev num_samples cb ref min_snpq)
  = num_tallied iupac ref min_snpq cb num_samples
  /\ 0 <= snd (Utils.segBase iupac iupac_rev num_samples cb ref min_snpq)
     <= num_samples.
Proof.
  intros Hn Hsame.
  assert (E : snd (Utils.segBase iupac iupac_rev num_samples cb ref min_snpq)
              = num_tallied iupac ref min_snpq cb num_samples).
  { unfold Utils.segBase.
    pose proof (segBase_loop_count iupac iupac_rev ref min_snpq cb num_samples Hn)
      as Hinv.
    destruct (for_ 0 num_samples _ _) as [cb' bc].
    destruct Hinv as [Hlen _ Htal _ _]. simpl in *.
    destruct bc as [|c0 [|c1 [|c2 [|c3 [|]]]]]; try discriminate.
    pose proof (Htal 0 ltac:(lia)) as T0. pose proof (Htal 1 ltac:(lia)) as T1.
    pose proof (Htal 2 ltac:(lia)) as T2. pose proof (Htal 3 ltac:(lia)) as T3.
    change (rd 0 [c0; c1; c2; c3] 0) with c0 in T0.
    change (rd 0 [c0; c1; c2; c3] 1) with c1 in T1.
    change (rd 0 [c0; c1; c2; c3] 2) with c2 in T2.
    change (rd 0 [c0; c1; c2; c3] 3) with c3 in T3.
    rewrite num_tallied_sum by lia. rewrite <- T0, <- T1, <- T2, <- T3.
    assert (Hone : forall a b ca cb0, a <> b ->
              ca = tally_of iupac ref min_snpq cb a num_samples ->
              cb0 = tally_of iupac ref min_snpq cb b num_samples ->
              0 < ca -> cb0 = 0).
    { intros a b ca cb0 Hab -> -> Hpos.
      pose proof (count_below_nonneg
                    (fun k => tallied iupac ref min_snpq (rd 0 cb k)
                              && (call_base (rd 0 cb k) =? b)) num_samples) as Hnn.
      fold (tally_of iupac ref min_snpq cb b num_samples) in Hnn.
      destruct (Z.eq_dec (tally_of iupac ref min_snpq cb b num_samples) 0)
        as [|Hnz]; [easy|].
      apply tally_of_pos in Hpos. destruct Hpos as (k1 & Hk1 & Ht1 & Hb1).
      destruct (tally_of_pos iupac ref min_snpq cb b num_samples ltac:(lia))
        as (k2 & Hk2 & Ht2 & Hb2).
      specialize (Hsame k1 k2 Hk1 Hk2 Ht1 Ht2). congruence. }
    assert (N0 : 0 <= c0) by (rewrite T0; apply count_below_nonneg).
    assert (N1 : 0 <= c1) by (rewrite T1; apply count_below_nonneg).
    assert (N2 : 0 <= c2) by (rewrite T2; apply count_below_nonneg).
    assert (N3 : 0 <= c3) by (rewrite T3; apply count_below_nonneg).
    pose proof (segBase_check_one c0 c1 c2 c3 N0 N1 N2 N3) as Hc.
    destruct (Utils.segBase_check [c0; c1; c2; c3]) as [j k].
    apply Hc; intros Hp; repeat split;
      first [ apply (Hone 0 1 c0 c1); easy | apply (Hone 0 2 c0 c2); easy
            | apply (Hone 0 3 c0 c3); easy | apply (Hone 1 0 c1 c0); easy
            | apply (Hone 1 2 c1 c2); easy | apply (Hone 1 3 c1 c3); easy
            | apply (Hone 2 0 c2 c0); easy | apply (Hone 2 1 c2 c1); easy
            | apply (Hone 2 3 c2 c3); easy | apply (Hone 3 0 c3 c0); easy
            | apply (Hone 3 1 c3 c1); easy | apply (Hone 3 2 c3 c2); easy ]. }
  split; [exact E|]. rewrite E. unfold num_tallied.
  split; [apply count_below_nonneg|apply count_below_bound; lia].
Qed.

Lemma segBase_counts_variants_witness :
  snd (Utils.segBase iupac_std iupac_rev_std 3 example_column 65 25)
  = num_tallied iupac_std 65 25 example_column 3
  /\ 0 <= snd (Utils.segBase iupac_std iupac_rev_std 3 example_column 65 25) <= 3.
Proof.
  apply (segBase_counts_variants iupac_std iupac_rev_std 3 example_column 65 25);
    [simpl; lia|].
  intros i1 i2 H1 H2.
  assert (E1 : i1 = 0 \/ i1 = 1 \/ i1 = 2) by lia.
  assert (E2 : i2 = 0 \/ i2 = 1 \/ i2 = 2) by lia.
  destruct E1 as [->|[->| ->]], E2 as [->|[->| ->]]; vm_compute; congruence.
Defined.

Lemma wrap64_low_byte x k : wrap64 (x - k * 2 ^ 8) mod 2 ^ 8 = x mod 2 ^ 8.
Proof.
  unfold wrap64, wrap.
  change (2 ^ 64) with 18446744073709551616. change (2 ^ 8) with 256.
  Z.div_mod_to_equations. lia.
Qed.

Lemma flags_of_low_byte w w' :
  w' mod 2 ^ 8 = w mod 2 ^ 8 ->
  CallWord.passes w' = CallWord.passes w
  /\ CallWord.variant w' = CallWord.variant w.
Proof.
  intros H. unfold CallWord.passes, CallWord.variant.
  assert (Hbit : forall n, 0 <= n < 8 -> Z.testbit w' n = Z.testbit w n).
  { intros n Hn.
    rewrite <- (Z.mod_pow2_bits_low w' 8 n), <- (Z.mod_pow2_bits_low w 8 n) by lia.
    now rewrite H. }
  split; apply Z.bits_inj'; intros n Hn; rewrite !Z.land_spec.
  - destruct (Z.eq_dec n 0) as [ -> |]; [now rewrite Hbit by lia|].
    change 1 with (Z.ones 1). rewrite Z.ones_spec_high by lia.
    now rewrite !andb_false_r.
  - destruct (Z.eq_dec n 1) as [ -> |]; [now rewrite Hbit by lia|].
    replace (Z.testbit 2 n) with false; [now rewrite !andb_false_r|].
    symmetry. change 2 with (2 ^ 1). rewrite Z.pow2_bits_eqb by lia.
    apply Z.eqb_neq. lia.
Qed.

Lemma segBase_at (iupac iupac_rev : Z -> Z) (num_samples : Z) (cb : list Z)
    (ref min_snpq : Z) :
  0 <= num_samples <= Z.of_nat (length cb) ->
  let cb' := fst (Utils.segBase iupac iupac_rev num_samples cb ref min_snpq) in
  length cb' = length cb
  /\ forall i, 0 <= i ->
       rd 0 cb' i
       = let w := rd 0 cb i in
         if (i <? num_samples) && tallied iupac ref min_snpq w then Z.lor w 0x2
         else if (i <? num_samples) && reverted iupac ref min_snpq w then
           wrap64 (wrap64 (w - Z.shiftl (CallWord.genotype w - iupac_rev ref) CHAR_BIT)
                   - Z.shiftl (CallWord.genotype w - iupac_rev ref) (CHAR_BIT + 2))
         else w.
Proof.
  intros Hn. cbv zeta. unfold Utils.segBase.
  pose proof (segBase_loop_count iupac iupac_rev ref min_snpq cb num_samples Hn)
    as Hinv.
  destruct (for_ 0 num_samples _ _) as [cb' bc].
  destruct Hinv as [_ Hcb _ Hrest Hdone]. simpl in *.
  destruct (Utils.segBase_check bc) as [j k]. simpl.
  split; [exact Hcb|]. intros i Hi.
  destruct (Z.ltb_spec i num_samples); simpl.
  - apply Hdone. lia.
  - apply Hrest. lia.
Qed.

(** X6. [segBase] never changes the filter flag of a call; it sets the
    variant flag (bit 1) of the tallied calls, whose words are otherwise
    unchanged, keeps the variant flag of every other call, and leaves
    untouched each word that is heterozygous, that carries the reference
    letter, or that lies beyond [num_samples]. *)
Theorem segBase_marks_variants
    (iupac iupac_rev : Z -> Z) (num_samples : Z) (cb : list Z)
    (ref min_snpq : Z) (i : Z) :
  0 <= num_samples <= Z.of_nat (length cb) -> 0 <= i ->
  let w := rd 0 cb i in
  let w' := rd 0 (fst (Utils.segBase iupac iupac_rev num_samples cb ref min_snpq)) i in
  CallWord.passes w' = CallWord.passes w
  /\ CallWord.variant w'
     = (if (i <? num_samples) && tallied iupac ref min_snpq w
        then 0x2 else CallWord.variant w)
  /\ ((i <? num_samples) && tallied iupac ref min_snpq w = true ->
      w' = Z.lor w 0x2)
  /\ ((i <? num_samples) && CallWord.homozygous w
      && negb (iupac (CallWord.genotype w) =? ref) = false -> w' = w).
Proof.
  intros Hn Hi w w'.
  destruct (segBase_at iupac iupac_rev num_samples cb ref min_snpq Hn) as [_ Hrd].
  specialize (Hrd i Hi). cbv zeta in Hrd. fold w w' in Hrd.
  destruct ((i <? num_samples) && tallied iupac ref min_snpq w) eqn:Ht.
  - rewrite Hrd. repeat split.
    + unfold CallWord.passes. rewrite Z.land_lor_distr_l.
      change (Z.land 2 1) with 0. apply Z.lor_0_r.
    + unfold CallWord.variant. rewrite Z.land_lor_distr_l.
      change (Z.land 2 2) with 2.
      apply Z.bits_inj'. intros n Hn'.
      rewrite Z.lor_spec, Z.land_spec.
      destruct (Z.testbit 2 n); [apply orb_true_r|now rewrite andb_false_r].
    + intros E.
      apply andb_true_iff in Ht. destruct Ht as [Hlt Ht].
      unfold tallied in Ht. rewrite Hlt in E. simpl in E.
      destruct (CallWord.homozygous w),
               (negb (iupac (CallWord.genotype w) =? ref)); simpl in *;
        discriminate.
  - destruct ((i <? num_samples) && reverted iupac ref min_snpq w) eqn:Hr.
    + assert (Hlow : w' mod 2 ^ 8 = w mod 2 ^ 8).
      { rewrite Hrd. unfold CHAR_BIT. rewrite !Z.shiftl_mul_pow2 by lia.
        change (2 ^ (8 + 2)) with (2 ^ 2 * 2 ^ 8).
        rewrite Z.mul_assoc. rewrite wrap64_low_byte. apply wrap64_low_byte. }
      destruct (flags_of_low_byte w w' Hlow) as [F1 F2].
      repeat split; auto; try discriminate.
      intros E.
      apply andb_true_iff in Hr. destruct Hr as [Hlt Hr].
      unfold reverted in Hr. rewrite Hlt in E. simpl in E.
      destruct (CallWord.homozygous w),
               (negb (iupac (CallWord.genotype w) =? ref)); simpl in *;
        discriminate.
    + rewrite Hrd. repeat split; auto. discriminate.
Qed.

Lemma segBase_marks_variants_witness :
  let w := rd 0 example_column 0 in
  let w' := rd 0 (fst (Utils.segBase iupac_std iupac_rev_std 3 example_column 65 25)) 0 in
  CallWord.passes w' = CallWord.passes w
  /\ CallWord.variant w'
     = (if (0 <? 3) && tallied iupac_std 65 25 w then 0x2 else CallWord.variant w)
  /\ ((0 <? 3) && tallied iupac_std 65 25 w = true -> w' = Z.lor w 0x2)
  /\ ((0 <? 3) && CallWord.homozygous w
      && negb (iupac_std (CallWord.genotype w) =? 65) = false -> w' = w).
Proof.
  apply (segBase_marks_variants iupac_std iupac_rev_std 3 example_column 65 25 0);
    [simpl; lia | lia].
Defined.

(** X7. For a homozygous call that differs from the reference letter and
    has a SNP quality below [min_snpq], the two subtractions of [segBase]
    take [5 * (genotype - iupac_rev[ref]) * 2^8] from the word, modulo
    2^64, so the genotype byte [g] becomes [(5 r - 4 g) mod 2^8] with
    [r = iupac_rev[ref]].  That is the homozygous reference genotype
    [5 r], with the fields above the genotype byte as they were, when
    [g = 0] (the call A/A) and [r] is one of the four bases.  The left
    shift of a negative difference is its product with the power of two,
    as in the definition of [segBase_visit]. *)
Theorem segBase_revert
    (iupac iupac_rev : Z -> Z) (num_samples : Z) (cb : list Z)
    (ref min_snpq : Z) (i : Z) :
  0 <= i < num_samples -> num_samples <= Z.of_nat (length cb) ->
  let w := rd 0 cb i in
  let w' := rd 0 (fst (Utils.segBase iupac iupac_rev num_samples cb ref min_snpq)) i in
  0 <= w < 2 ^ 64 ->
  reverted iupac ref min_snpq w = true ->
  w' = wrap64 (w - 5 * (CallWord.genotype w - iupac_rev ref) * 2 ^ 8)
  /\ CallWord.genotype w'
     = (5 * iupac_rev ref - 4 * CallWord.genotype w) mod 2 ^ 8
  /\ (CallWord.genotype w = 0 -> 0 <= iupac_rev ref < 4 ->
      CallWord.genotype w' = 5 * iupac_rev ref
      /\ w' / 2 ^ 16 = w / 2 ^ 16).
Proof.
  intros Hi Hn w w' Hw Hr.
  destruct (segBase_at iupac iupac_rev num_samples cb ref min_snpq ltac:(lia))
    as [_ Hrd].
  specialize (Hrd i ltac:(lia)). cbv zeta in Hrd. fold w w' in Hrd.
  assert (Ht : tallied iupac ref min_snpq w = false).
  { destruct (tallied iupac ref min_snpq w) eqn:E; [|reflexivity].
    apply tallied_reverted in E. congruence. }
  destruct (Z.ltb_spec i num_samples); [|lia].
  rewrite Ht, Hr in Hrd. simpl in Hrd.
  set (g := CallWord.genotype w) in *. set (r := iupac_rev ref) in *.
  assert (E : w' = wrap64 (w - 5 * (g - r) * 2 ^ 8)).
  { rewrite Hrd. unfold CHAR_BIT. rewrite !Z.shiftl_mul_pow2 by lia.
    change (2 ^ (8 + 2)) with (4 * 2 ^ 8).
    unfold wrap64, wrap. rewrite Zminus_mod_idemp_l. f_equal. lia. }
  assert (Hg : g = (w / 2 ^ 8) mod 2 ^ 8).
  { unfold g, CallWord.genotype, CHAR_BIT. change 255 with (Z.ones 8).
    rewrite Z.land_ones, Z.shiftr_div_pow2 by lia. reflexivity. }
  assert (Hg' : CallWord.genotype w' = (w' / 2 ^ 8) mod 2 ^ 8).
  { unfold CallWord.genotype, CHAR_BIT. change 255 with (Z.ones 8).
    rewrite Z.land_ones, Z.shiftr_div_pow2 by lia. reflexivity. }
  split; [exact E|].
  rewrite Hg', E. clear Hrd E Hg'. unfold wrap64, wrap.
  change (2 ^ 64) with 18446744073709551616 in *. change (2 ^ 8) with 256 in *.
  change (2 ^ 16) with 65536.
  split.
  - Z.div_mod_to_equations. lia.
  - intros G0 Hr4. rewrite G0 in *.
    split; Z.div_mod_to_equations; lia.
Qed.

Lemma segBase_revert_witness :
  let w := rd 0 example_low_quality 0 in
  let w' := rd 0 (fst (Utils.segBase iupac_std iupac_rev_std 1
                         example_low_quality 67 25)) 0 in
  w' = wrap64 (w - 5 * (CallWord.genotype w - iupac_rev_std 67) * 2 ^ 8)
  /\ CallWord.genotype w'
     = (5 * iupac_rev_std 67 - 4 * CallWord.genotype w) mod 2 ^ 8
  /\ (CallWord.genotype w = 0 -> 0 <= iupac_rev_std 67 < 4 ->
      CallWord.genotype w' = 5 * iupac_rev_std 67
      /\ w' / 2 ^ 16 = w / 2 ^ 16).
Proof.
  apply (segBase_revert iupac_std iupac_rev_std 1 example_low_quality 67 25 0);
    [lia | simpl; lia | vm_compute; split; congruence | reflexivity].
Defined.

(** ** errmod_cal: the table of likelihoods *)

Lemma index_inj m a b j k :
  0 <= b < m -> 0 <= k < m -> a * m + b = j * m + k -> a = j /\ b = k.
Proof.
  intros Hb Hk E.
  assert (a = j).
  { destruct (Z.lt_trichotomy a j) as [H|[H|H]]; [|exact H|].
    - assert (m * 1 <= m * (j - a)) by (apply Z.mul_le_mono_nonneg_l; lia). lia.
    - assert (m * 1 <= m * (a - j)) by (apply Z.mul_le_mono_nonneg_l; lia). lia. }
  subst a. split; [reflexivity|lia].
Qed.

Lemma index_range m j k : 0 <= j < m -> 0 <= k < m -> 0 <= j * m + k < m * m.
Proof.
  intros Hj Hk.
  assert (j * m <= (m - 1) * m) by (apply Z.mul_le_mono_nonneg_r; lia).
  assert (0 <= j * m) by (apply Z.mul_nonneg_nonneg; lia).
  lia.
Qed.

Section Likelihoods.

Variables (em : Utils.errmod_t) (aux : Utils.call_aux_t) (m : Z) (q0 : list float).
Hypothesis Hm : 0 <= m.
Hypothesis Hlen : m * m <= Z.of_nat (length q0).

Local Abbreviation rows_done := (rows_done em aux m q0).

Lemma entry_wr q a b x j k :
  length q = length q0 ->
  0 <= a < m -> 0 <= b < m -> 0 <= j < m -> 0 <= k < m ->
  entry m (wr q (a * m + b) x) j k
  = if (a =? j) && (b =? k) then x else entry m q j k.
Proof.
  intros Hl Ha Hb Hj Hk. unfold entry, Utils.frd.
  pose proof (index_range m j k Hj Hk) as Hr.
  rewrite rd_wr by lia. rewrite Hl.
  destruct (Z.eqb_spec (a * m + b) (j * m + k)) as [E|E]; simpl.
  - apply index_inj in E; [|lia|lia]. destruct E as [-> ->].
    rewrite !Z.eqb_refl. simpl.
    destruct (Z.ltb_spec (j * m + k) (Z.of_nat (length q0))); [reflexivity|lia].
  - destruct (Z.eqb_spec a j) as [->|]; [|reflexivity].
    destruct (Z.eqb_spec b k) as [->|]; [|reflexivity]. lia.
Qed.

Lemma outside_wr q a b x i :
  0 <= a < m -> 0 <= b < m -> m * m <= i ->
  Utils.frd (wr q (a * m + b) x) i = Utils.frd q i.
Proof.
  intros Ha Hb Hi. unfold Utils.frd.
  pose proof (index_range m a b Ha Hb). apply rd_wr_ne; lia.
Qed.

Lemma errmod_row_done J q :
  0 <= J < m -> rows_done J q ->
  rows_done (J + 1) (Utils.errmod_row em aux m J q).
Proof.
  intros HJ (Hl & Hout & Hent).
  unfold Utils.errmod_row.
  (* homozygous *)
  set (q1 := let '(tmp1, tmp2, _) := Utils.errmod_rest aux m (fun k => k =? J) in
             if negb (tmp2 =? 0) then wr q (J * m + J) tmp1 else q).
  assert (H1 : length q1 = length q0
               /\ (forall i, m * m <= i -> Utils.frd q1 i = Utils.frd q0 i)
               /\ forall j k, 0 <= j < m -> 0 <= k < m ->
                    entry m q1 j k
                    = if (j =? J) && (k =? J)
                      then hom_cost aux m J (entry m q0 J J)
                      else entry m q j k).
  { unfold q1, hom_cost.
    destruct (Utils.errmod_rest aux m (fun k => k =? J)) as [[tmp1 tmp2] tmp3].
    destruct (negb (tmp2 =? 0)).
    - split; [now rewrite length_wr|]. split.
      + intros i Hi. rewrite outside_wr by lia. now apply Hout.
      + intros j k Hj Hk. rewrite entry_wr by lia.
        rewrite (Z.eqb_sym J j), (Z.eqb_sym J k). reflexivity.
    - split; [exact Hl|]. split; [exact Hout|].
      intros j k Hj Hk.
      destruct (Z.eqb_spec j J) as [->|]; [|reflexivity].
      destruct (Z.eqb_spec k J) as [->|]; [|reflexivity]. simpl.
      rewrite Hent by lia.
      destruct (Z.ltb_spec J J); [lia|reflexivity]. }
  replace (let '(tmp1, tmp2, _) := Utils.errmod_rest aux m (fun k => k =? J) in
           _) with
    (for_ 0 m
       (fun k q => if (Utils.frd q (J * m + k) <? 0)%float
                   then wr q (J * m + k) 0%float else q)
       (for_ (J + 1) m
          (fun k q =>
             let cjk := rd 0 (Utils.c aux) J + rd 0 (Utils.c aux) k in
             let '(tmp1, tmp2, _) :=
               Utils.errmod_rest aux m (fun i => (i =? J) || (i =? k)) in
             let l := Utils.lhet (Utils.coef em)
                        (Z.lor (Z.shiftl cjk 8) (rd 0 (Utils.c aux) k)) in
             let het := (-4.343 * l)%float in
             let x :=
               if negb (tmp2 =? 0) then F32.round (het + tmp1)%float
               else F32.round het in
             wr (wr q (k * m + J) x) (J * m + k) x)
          q1)).
  2:{ unfold q1.
      destruct (Utils.errmod_rest aux m (fun k => k =? J)) as [[tmp1 tmp2] tmp3].
      reflexivity. }
  clearbody q1. destruct H1 as (Hl1 & Hout1 & Hent1).
  (* heterozygous *)
  match goal with
  | |- context [for_ (J + 1) m ?b q1] => set (body2 := b)
  end.
  assert (H2 : length (for_ (J + 1) m body2 q1) = length q0
               /\ (forall i, m * m <= i ->
                     Utils.frd (for_ (J + 1) m body2 q1) i = Utils.frd q0 i)
               /\ forall j k, 0 <= j < m -> 0 <= k < m ->
                    entry m (for_ (J + 1) m body2 q1) j k
                    = if (j =? J) && (J <? k) then het_cost em aux m J k
                      else if (k =? J) && (J <? j) then het_cost em aux m J j
                      else entry m q1 j k).
  { pose (P := fun K q2 =>
                length q2 = length q0
                /\ (forall i, m * m <= i -> Utils.frd q2 i = Utils.frd q0 i)
                /\ forall j k, 0 <= j < m -> 0 <= k < m ->
                     entry m q2 j k
                     = if (j =? J) && (J <? k) && (k <? K)
                       then het_cost em aux m J k
                       else if (k =? J) && (J <? j) && (j <? K)
                       then het_cost em aux m J j
                       else entry m q1 j k).
    assert (Hloop : P m (for_ (J + 1) m body2 q1)).
    { apply (for_invariant P); [lia| |].
      - split; [exact Hl1|]. split; [exact Hout1|].
        intros j k Hj Hk.
        destruct (Z.ltb_spec k (J + 1)), (Z.ltb_spec j (J + 1)),
                 (Z.ltb_spec J k), (Z.ltb_spec J j); try lia;
          now rewrite ?andb_false_r.
      - intros K q2 HK (A & B & C).
        assert (Hb : body2 K q2
                     = wr (wr q2 (K * m + J) (het_cost em aux m J K))
                         (J * m + K) (het_cost em aux m J K)).
        { unfold body2, het_cost. cbv zeta.
          destruct (Utils.errmod_rest aux m (fun i => (i =? J) || (i =? K)))
            as [[t1 t2] t3]. reflexivity. }
        rewrite Hb.
        split; [now rewrite !length_wr|]. split.
        + intros i Hi. rewrite !outside_wr by lia. now apply B.
        + intros j k Hj Hk.
          rewrite entry_wr by (rewrite ?length_wr; lia).
          rewrite entry_wr by lia. rewrite C by lia.
          destruct (Z.eqb_spec J j), (Z.eqb_spec K k), (Z.eqb_spec K j),
                   (Z.eqb_spec J k), (Z.eqb_spec j J), (Z.eqb_spec k J),
                   (Z.ltb_spec J k), (Z.ltb_spec J j),
                   (Z.ltb_spec k K), (Z.ltb_spec j K),
                   (Z.ltb_spec k (K + 1)), (Z.ltb_spec j (K + 1));
            try lia; subst; simpl; reflexivity. }
    destruct Hloop as (A & B & C). split; [exact A|]. split; [exact B|].
    intros j k Hj Hk. rewrite C by lia.
    destruct (Z.ltb_spec k m), (Z.ltb_spec j m); try lia.
    now rewrite !andb_true_r. }
  set (q2 := for_ (J + 1) m body2 q1) in *.
  clearbody q2. destruct H2 as (Hl2 & Hout2 & Hent2).
  (* clamp *)
  match goal with
  | |- context [for_ 0 m ?b q2] => set (body3 := b)
  end.
  assert (H3 : length (for_ 0 m body3 q2) = length q0
               /\ (forall i, m * m <= i ->
                     Utils.frd (for_ 0 m body3 q2) i = Utils.frd q0 i)
               /\ forall j k, 0 <= j < m -> 0 <= k < m ->
                    entry m (for_ 0 m body3 q2) j k
                    = if j =? J then clamp0 (entry m q2 j k)
                      else entry m q2 j k).
  { pose (P := fun K q3 =>
                length q3 = length q0
                /\ (forall i, m * m <= i -> Utils.frd q3 i = Utils.frd q0 i)
                /\ forall j k, 0 <= j < m -> 0 <= k < m ->
                     entry m q3 j k
                     = if (j =? J) && (k <? K) then clamp0 (entry m q2 j k)
                       else entry m q2 j k).
    assert (Hloop : P m (for_ 0 m body3 q2)).
    { apply (for_invariant P); [lia| |].
      - split; [exact Hl2|]. split; [exact Hout2|].
        intros j k Hj Hk.
        destruct (Z.ltb_spec k 0); try lia. now rewrite andb_false_r.
      - intros K q3 HK (A & B & C). unfold body3.
        change (Utils.frd q3 (J * m + K)) with (entry m q3 J K).
        pose proof (C J K ltac:(lia) ltac:(lia)) as CK.
        rewrite Z.eqb_refl in CK. destruct (Z.ltb_spec K K); [lia|]. simpl in CK.
        destruct (entry m q3 J K <? 0)%float eqn:Hneg.
        + split; [now rewrite length_wr|]. split.
          * intros i Hi. rewrite outside_wr by lia. now apply B.
          * intros j k Hj Hk. rewrite entry_wr by lia. rewrite C by lia.
            destruct (Z.eqb_spec J j), (Z.eqb_spec K k), (Z.eqb_spec j J),
                     (Z.ltb_spec k K), (Z.ltb_spec k (K + 1));
              try lia; subst; simpl; try reflexivity.
            unfold clamp0. rewrite <- CK, Hneg. reflexivity.
        + split; [exact A|]. split; [exact B|].
          intros j k Hj Hk. rewrite C by lia.
          destruct (Z.eqb_spec j J), (Z.ltb_spec k K), (Z.ltb_spec k (K + 1));
            try lia; subst; simpl; try reflexivity.
          assert (k = K) by lia. subst k.
          unfold clamp0. rewrite <- CK, Hneg. reflexivity. }
    destruct Hloop as (A & B & C). split; [exact A|]. split; [exact B|].
    intros j k Hj Hk. rewrite C by lia.
    destruct (Z.ltb_spec k m); try lia. now rewrite andb_true_r. }
  set (q3 := for_ 0 m body3 q2) in *.
  clearbody q3. destruct H3 as (Hl3 & Hout3 & Hent3).
  split; [exact Hl3|]. split; [exact Hout3|].
  intros j k Hj Hk.
  rewrite Hent3, Hent2, Hent1, Hent by lia.
  unfold pair_cost.
  destruct (Z.eqb_spec j J), (Z.eqb_spec k J),
           (Z.ltb_spec J k), (Z.ltb_spec J j),
           (Z.ltb_spec j k), (Z.ltb_spec k j),
           (Z.ltb_spec j J), (Z.ltb_spec k J),
           (Z.ltb_spec j (J + 1)), (Z.ltb_spec k (J + 1));
    try lia; subst; simpl; reflexivity.
Qed.

Lemma errmod_rows_done :
  rows_done m (for_ 0 m (Utils.errmod_row em aux m) q0).
Proof.
  apply (for_invariant rows_done); [lia| |].
  - split; [reflexivity|]. split; [reflexivity|].
    intros j k Hj Hk.
    destruct (Z.ltb_spec j 0), (Z.ltb_spec k 0); try lia. reflexivity.
  - intros J q HJ Hinv. now apply errmod_row_done.
Qed.

End Likelihoods.

Lemma clamp0_not_negative x : (clamp0 x <? 0)%float = false.
Proof.
  unfold clamp0. destruct (x <? 0)%float eqn:E; [reflexivity|exact E].
Qed.

Lemma pair_cost_sym em aux m q0 j k :
  j <> k -> pair_cost em aux m q0 j k = pair_cost em aux m q0 k j.
Proof.
  intros Hne. unfold pair_cost.
  destruct (Z.ltb_spec j k), (Z.ltb_spec k j); try lia; reflexivity.
Qed.

Lemma length_memset_zero q count :
  0 <= count <= Z.of_nat (length q) ->
  length (Utils.memset_zero q count) = length q.
Proof.
  intros H. unfold Utils.memset_zero.
  rewrite length_app, repeat_length, length_drop. lia.
Qed.

Lemma rd_memset_zero_above q count i :
  0 <= count <= Z.of_nat (length q) -> count <= i ->
  rd 0%float (Utils.memset_zero q count) i = rd 0%float q i.
Proof.
  intros Hc Hi. unfold rd, Utils.memset_zero.
  rewrite app_nth2 by (rewrite repeat_length; lia).
  rewrite repeat_length. rewrite !nth_lookup, lookup_drop.
  do 2 f_equal. lia.
Qed.



(** [gl2cns] reads the ten entries of the pairs only. *)
Lemma gl2cns_scan_ext q q' :
  (forall ij, In ij genotype_indices -> rd 0%float q ij = rd 0%float q' ij) ->
  Utils.gl2cns_scan q = Utils.gl2cns_scan q'.
Proof.
  intros H. rewrite !gl2cns_scan_fold.
  assert (G : forall l s,
            (forall p, In p l -> In (pair_index p) genotype_indices) ->
            fold_left (fun s p => Utils.gl2cns_visit q (fst p) (snd p) s) l s
            = fold_left (fun s p => Utils.gl2cns_visit q' (fst p) (snd p) s) l s).
  { induction l as [|p l IH]; intros s Hin; [reflexivity|]. simpl.
    rewrite IH by (intros p' Hp'; apply Hin; now right).
    f_equal. unfold Utils.gl2cns_visit.
    change (Z.lor (Z.shiftl (fst p) 2) (snd p)) with (pair_index p).
    rewrite (H (pair_index p)) by (apply Hin; now left). reflexivity. }
  apply G. intros p Hp. unfold genotype_indices. now apply in_map.
Qed.

(** X9. With no observation ([n = 0]) [errmod_cal] leaves sixteen zero
    likelihoods, on which [gl2cns] with a depth [k < 2^16] returns the
    word [k * 2^16]: the depth [k], the genotype A/A, and a SNP quality
    and RMS mapping quality of zero. *)
Theorem gl2cns_of_no_observation
    (ks_shuffle : Z -> list Z -> list Z) (em : Utils.errmod_t)
    (bases : list Z) (q : list float) (k : Z) :
  16 <= Z.of_nat (length q) -> 0 <= k < 2 ^ 16 ->
  Utils.gl2cns (snd (Utils.errmod_cal ks_shuffle em 0 NBASES bases q)) k
  = Some (k * 2 ^ 16).
Proof.
  intros Hlen Hk.
  assert (E : Utils.gl2cns_scan (snd (Utils.errmod_cal ks_shuffle em 0 NBASES bases q))
              = Utils.gl2cns_scan (repeat 0%float 16)).
  { apply gl2cns_scan_ext. intros ij Hin.
    change (snd (Utils.errmod_cal ks_shuffle em 0 NBASES bases q))
      with (Utils.memset_zero q 16).
    assert (0 <= ij < 16).
    { unfold genotype_indices, genotype_pairs in Hin. simpl in Hin.
      repeat (destruct Hin as [<-|Hin]; [vm_compute; split; congruence|]).
      destruct Hin. }
    rewrite rd_memset_zero by lia.
    unfold rd. symmetry. apply nth_repeat. }
  unfold Utils.gl2cns, Utils.gl2cns_gap. rewrite E.
  replace (Utils.gl2cns_scan (repeat 0%float 16))
    with {| Utils.s_min_ij := 0; Utils.s_min := 0%float; Utils.s_min_next := 0%float |}
    by (vm_compute; reflexivity).
  simpl Utils.s_min_ij. simpl Utils.s_min. simpl Utils.s_min_next.
  replace (F64.to_ull (F32.sub 0 0 + 0.499)%float) with (Some 0)
    by (vm_compute; reflexivity).
  f_equal. unfold wrap64, wrap, CHAR_BIT.
  rewrite !Z.shiftl_mul_pow2 by lia.
  change (0 * 2 ^ (8 * 4)) with 0. change (0 * 2 ^ 8) with 0.
  change (0 mod 2 ^ 64) with 0. change (8 * 2) with 16.
  rewrite Z.add_0_l, Z.add_0_r.
  rewrite Z.mod_mod by lia. apply Z.mod_small. lia.
Qed.

Lemma gl2cns_of_no_observation_witness :
  Utils.gl2cns
    (snd (Utils.errmod_cal (fun _ l => l) example_errmod 0 NBASES []
            (repeat 1%float 16))) 0
  = Some (0 * 2 ^ 16).
Proof.
  apply (gl2cns_of_no_observation (fun _ l => l) example_errmod []
           (repeat 1%float 16) 0); simpl; lia.
Defined.

(** ** Comparisons of doubles *)
Lemma SFleb_ltb_trans x y z :
  SFleb x y = true -> SFltb y z = true -> SFleb x z = true.
Proof.
  unfold SFleb, SFltb, SFcompare.
  destruct x as [[|]|[|]| |[|] mx ex], y as [[|]|[|]| |[|] my ey],
           z as [[|]|[|]| |[|] mz ez];
    try discriminate; try reflexivity;
    destruct (Z.compare_spec ex ey), (Z.compare_spec ey ez),
             (Z.compare_spec ex ez);
    try discriminate; try reflexivity; try lia; subst;
    rewrite ?Pos.compare_cont_spec; simpl;
    destruct (Pos.compare_spec mx my), (Pos.compare_spec my mz),
             (Pos.compare_spec mx mz);
    simpl; try discriminate; try reflexivity; lia.
Qed.

Lemma leb_ltb_trans (x y z : float) :
  (x <=? y)%float = true -> (y <? z)%float = true -> (x <=? z)%float = true.
Proof. rewrite !leb_spec, ltb_spec. apply SFleb_ltb_trans. Qed.

(** A value that is at least zero is not a NaN. *)
Lemma leb_not_nan (x : float) : (0 <=? x)%float = true -> F64.isnan x = false.
Proof.
  unfold F64.isnan, is_nan. rewrite leb_spec, FloatAxioms.eqb_spec.
  unfold SFleb, SFeqb, SFcompare.
  destruct (Prim2SF x) as [[|]|[|]| |[|] m e]; try reflexivity;
    try (vm_compute; discriminate); intros _;
    rewrite Z.compare_refl, Pos.compare_cont_refl; reflexivity.
Qed.

(** ** make_ld: the columns outside the window *)

(** X10. [make_ld] ignores the columns outside [beg, end): the pileup of
    a window gives the same result on a list of columns and on its
    columns inside the window. *)
Theorem pileup_skips_outside
    (iupac iupac_rev : Z -> Z) (BAM_HETEROZYGOTE : Z)
    (cal_site_type : Z -> list Z -> Z)
    (cols : list (Z * list Z)) (t : LD.ldData) :
  LD.pileup iupac iupac_rev BAM_HETEROZYGOTE cal_site_type cols t
  = LD.pileup iupac iupac_rev BAM_HETEROZYGOTE cal_site_type
      (filter (fun c => in_window t (fst c) = true) cols) t.
Proof.
  assert (G : forall t0 cols t,
            LD.beg t = LD.beg t0 -> LD.end_ t = LD.end_ t0 ->
            LD.pileup iupac iupac_rev BAM_HETEROZYGOTE cal_site_type cols t
            = LD.pileup iupac iupac_rev BAM_HETEROZYGOTE cal_site_type
                (filter (fun c => in_window t0 (fst c) = true) cols) t).
  { intros t0. induction cols0 as [|[pos cb] cols0 IH]; intros t1 Hb He;
      [reflexivity|].
    change (LD.pileup iupac iupac_rev BAM_HETEROZYGOTE cal_site_type
              ((pos, cb) :: cols0) t1)
      with (LD.pileup iupac iupac_rev BAM_HETEROZYGOTE cal_site_type cols0
              (LD.make_ld iupac iupac_rev BAM_HETEROZYGOTE cal_site_type
                 pos cb t1)).
    destruct (make_ld_bounds iupac iupac_rev BAM_HETEROZYGOTE cal_site_type
                pos cb t1) as [Hb' He'].
    rewrite filter_cons.
    destruct (decide (in_window t0 (fst (pos, cb)) = true)) as [Hin|Hout].
    - change (LD.pileup iupac iupac_rev BAM_HETEROZYGOTE cal_site_type
                ((pos, cb) :: filter (fun c => in_window t0 (fst c) = true) cols0) t1)
        with (LD.pileup iupac iupac_rev BAM_HETEROZYGOTE cal_site_type
                (filter (fun c => in_window t0 (fst c) = true) cols0)
                (LD.make_ld iupac iupac_rev BAM_HETEROZYGOTE cal_site_type
                   pos cb t1)).
      apply IH; congruence.
    - rewrite make_ld_outside.
      + apply IH; assumption.
      + simpl in Hout. unfold in_window in *. rewrite Hb, He.
        now destruct ((LD.beg t0 <=? pos) && (pos <? LD.end_ t0)). }
  now apply G.
Qed.

(** ** calc_omegamax *)

Lemma omega_split_nonneg r2 snps i st :
  (0 <=? LD.omax st)%float = true ->
  (0 <=? LD.omax (LD.omega_split r2 snps i st))%float = true.
Proof.
  intros H. unfold LD.omega_split. cbv zeta. cbn [LD.omax].
  match goal with |- context [if ?c then ?a else _] => destruct c eqn:E end.
  - exact (leb_ltb_trans _ _ _ H E).
  - exact H.
Qed.

Lemma calc_omegamax_pop_nonneg t j :
  (0 <=? snd (LD.calc_omegamax_pop t j))%float = true.
Proof.
  unfold LD.calc_omegamax_pop. cbv zeta. cbn [snd].
  apply (for_preserves (fun st => (0 <=? LD.omax st)%float = true)).
  - reflexivity.
  - intros i st _ H. now apply omega_split_nonneg.
Qed.

(** X11. If no entry of [omegamax] is negative or NaN before the call, as
    after [init_ld], none is after [calc_omegamax]: every entry is at
    least 0.0 and is not NaN. *)
Theorem calc_omegamax_not_negative (t : LD.ldData) (i : Z) :
  (forall k, 0 <= k -> (0 <=? rd 0%float (LD.omegamax t) k)%float = true) ->
  0 <= i ->
  (0 <=? rd 0%float (LD.omegamax (LD.calc_omegamax t)) i)%float = true
  /\ F64.isnan (rd 0%float (LD.omegamax (LD.calc_omegamax t)) i) = false.
Proof.
  intros H0 Hi.
  assert (G : forall k, 0 <= k ->
            (0 <=? rd 0%float (LD.omegamax (LD.calc_omegamax t)) k)%float = true).
  { unfold LD.calc_omegamax. destruct (LD.segsites t <? 1); [exact H0|].
    apply (for_preserves
             (fun t' => forall k, 0 <= k ->
                (0 <=? rd 0%float (LD.omegamax t') k)%float = true));
      [exact H0|].
    intros j t' _ Ht' k Hk.
    pose proof (calc_omegamax_pop_nonneg t' j) as Hp.
    destruct (LD.calc_omegamax_pop t' j) as [snps o]. cbn in *.
    rewrite rd_wr by lia. destruct (_ && _); [exact Hp|now apply Ht']. }
  split; [now apply G|].
  specialize (G i Hi). apply leb_not_nan in G. exact G.
Qed.

Lemma zero_window_omegamax k :
  0 <= k ->
  (0 <=? rd 0%float (LD.omegamax example_four_sites) k)%float = true.
Proof.
  intros _. unfold rd. simpl LD.omegamax.
  destruct (Z.to_nat k) as [|[|n]]; reflexivity.
Qed.

Lemma calc_omegamax_not_negative_witness :
  let t := example_four_sites in
  (0 <=? rd 0%float (LD.omegamax (LD.calc_omegamax t)) 0)%float = true
  /\ F64.isnan (rd 0%float (LD.omegamax (LD.calc_omegamax t)) 0) = false.
Proof.
  apply (calc_omegamax_not_negative example_four_sites 0);
    [exact zero_window_omegamax | lia].
Defined.

(** ** calc_zns *)

(** The statistic of one population reads the window, the masks and its
    own accumulator. *)
Lemma calc_zns_pop_same t t' i :
  same_sites t t' -> rd 0%float (LD.zns t') i = rd 0%float (LD.zns t) i ->
  LD.calc_zns_pop t' i = LD.calc_zns_pop t i.
Proof.
  intros [H1 H2 H3 H4 H5 _ _ _ _] Hz.
  unfold LD.calc_zns_pop, LD.variable_in.
  now rewrite H1, H2, H3, H4, H5, Hz.
Qed.

Lemma calc_zns_loop t :
  0 <= LD.sm_npops t <= Z.of_nat (length (LD.num_snps t)) ->
  LD.sm_npops t <= Z.of_nat (length (LD.zns t)) ->
  zns_inv t (LD.sm_npops t)
    (for_ 0 (LD.sm_npops t)
       (fun i t =>
          let '(snps, z) := LD.calc_zns_pop t i in
          LD.set_stats t (wr (LD.num_snps t) i snps) (wr (LD.zns t) i z)
            (LD.omegamax t) (LD.wallb t) (LD.wallq t))
       t).
Proof.
  intros Hn Hz. apply (for_invariant (zns_inv t)); [lia| |].
  - split; auto using same_sites_refl. intros; lia.
  - intros i t' Hi [Hs Hl1 Hl2 Hrest Hdone].
    rewrite (calc_zns_pop_same t t' i Hs) by (apply Hrest; lia).
    destruct (LD.calc_zns_pop t i) as [snps z] eqn:E.
    split; cbn.
    + now apply same_sites_set_stats.
    + now rewrite length_wr.
    + now rewrite length_wr.
    + intros k Hk. rewrite rd_wr_ne by lia. apply Hrest. lia.
    + intros k Hk. destruct (Z.eq_dec k i) as [->|Hne].
      * rewrite !rd_wr_eq by lia. now rewrite E.
      * rewrite !rd_wr_ne by lia. apply Hdone. lia.
Qed.

(** X12. In an analysis other than Wall's ([output] other than 2, so that
    a site qualifies when its derived count [x] in the population has
    [min_freq <= x <= n - min_freq]), on a window with a segregating site,
    [calc_zns] stores for each population [i]: in [num_snps[i]] the number
    of qualifying sites, plus one when the last segregating site does not
    qualify; in [zns[i]] the sum of r2 over the pairs of qualifying sites,
    added in the order of the buffer to the previous content, times
    [1.0 / BINOM(num_snps[i])]. *)
Theorem calc_zns_stores (t : LD.ldData) (i : Z) :
  LD.output t <> 2 -> 1 <= LD.segsites t ->
  0 <= i < LD.sm_npops t ->
  LD.sm_npops t <= Z.of_nat (length (LD.num_snps t)) ->
  LD.sm_npops t <= Z.of_nat (length (LD.zns t)) ->
  let snps :=
    num_qualifying t i + (if qualifies t i (LD.segsites t - 1) then 0 else 1) in
  rd 0 (LD.num_snps (LD.calc_zns t)) i = snps
  /\ rd 0%float (LD.zns (LD.calc_zns t)) i
     = (fold_left (add_r2 t i) (pairs_of (qualifying_in t i 0 (LD.segsites t)))
          (rd 0%float (LD.zns t) i)
        * (1 / F64.of_Z (BINOM snps)))%float.
Proof.
  intros Ho Hs Hi Hl1 Hl2 snps.
  unfold LD.calc_zns. destruct (Z.ltb_spec (LD.segsites t) 1); [lia|].
  destruct (calc_zns_loop t ltac:(lia) Hl2) as [_ _ _ _ Hdone].
  destruct (Hdone i Hi) as [E1 E2]. rewrite E1, E2.
  pose proof (calc_zns_pop_counter t i Ho Hs) as Hc.
  rewrite calc_zns_pop_value in * by exact Ho. cbn [fst snd] in *.
  split; [exact Hc|]. unfold snps. now rewrite <- Hc.
Qed.

Lemma calc_zns_stores_witness :
  let t := example_window 10 0 10 [7; 30; 1023] in
  let snps :=
    num_qualifying t 0 + (if qualifies t 0 (LD.segsites t - 1) then 0 else 1) in
  rd 0 (LD.num_snps (LD.calc_zns t)) 0 = snps
  /\ rd 0%float (LD.zns (LD.calc_zns t)) 0
     = (fold_left (add_r2 t 0) (pairs_of (qualifying_in t 0 0 (LD.segsites t)))
          (rd 0%float (LD.zns t) 0)
        * (1 / F64.of_Z (BINOM snps)))%float.
Proof.
  apply (calc_zns_stores (example_window 10 0 10 [7; 30; 1023]) 0);
    [discriminate | simpl; lia | simpl; lia | simpl; lia | simpl; lia].
Defined.

(** ** calc_wall *)

Lemma rd_wr_incr (l : list Z) i j :
  0 <= j -> rd 0 l j <= rd 0 (wr l i (rd 0 l i + 1)) j <= rd 0 l j + 1.
Proof.
  intros Hj. rewrite rd_wr by lia.
  destruct (Z.eqb_spec i j) as [->|]; simpl; [|lia].
  destruct (j <? Z.of_nat (length l)); lia.
Qed.

Lemma rd_wr_incr_at (l : list Z) i :
  0 <= i ->
  rd 0 (wr l i (rd 0 l i + 1)) i
  = if i <? Z.of_nat (length l) then rd 0 l i + 1 else rd 0 l i.
Proof.
  intros Hi. rewrite rd_wr by lia. now rewrite Z.eqb_refl.
Qed.

Lemma rd_zeros n j : rd 0 (zeros n) j = 0.
Proof. unfold rd, zeros. apply nth_repeat. Qed.

Lemma rd_beyond (l : list Z) j : Z.of_nat (length l) <= j -> rd 0 l j = 0.
Proof. intros H. unfold rd. apply nth_overflow. lia. Qed.

Lemma wall_visit_inv t i j st :
  0 <= j ->
  length (LD.num_congruent st) = length (LD.num_part st) ->
  wall_inv st ->
  wall_inv (LD.wall_visit t i j st)
  /\ length (LD.num_congruent (LD.wall_visit t i j st))
     = length (LD.num_part (LD.wall_visit t i j st)).
Proof.
  intros Hj Hlen [Hs Hp Hc]. unfold LD.wall_visit.
  destruct (LD.wall_masks t i j) as [type complem].
  destruct ((0 <? type) && _); [|split; [now split|exact Hlen]].
  destruct (Z.eqb_spec (rd 0 (LD.w_num_snps st) j) 0) as [E0|E0].
  - split; [|exact Hlen]. split; cbn.
    + intros k Hk. pose proof (rd_wr_incr (LD.w_num_snps st) j k Hk).
      specialize (Hs k Hk). lia.
    + exact Hp.
    + intros k Hk. pose proof (rd_wr_incr (LD.w_num_snps st) j k Hk).
      specialize (Hc k Hk). lia.
  - set (congruent := (type =? LD.last_type st) || (complem =? LD.last_type st)).
    set (novel := congruent && _ && _).
    assert (Hnc : novel = true -> congruent = true).
    { unfold novel. destruct congruent; [reflexivity|discriminate]. }
    assert (Hsj : 1 <= rd 0 (LD.w_num_snps st) j) by (specialize (Hs j Hj); lia).
    assert (Hin : j < Z.of_nat (length (LD.w_num_snps st))).
    { destruct (Z.lt_ge_cases j (Z.of_nat (length (LD.w_num_snps st))));
        [easy|]. rewrite rd_beyond in Hsj by lia. lia. }
    split.
    2:{ cbn. destruct congruent, novel; rewrite ?length_wr; exact Hlen. }
    split; cbn.
    + intros k Hk. pose proof (rd_wr_incr (LD.w_num_snps st) j k Hk).
      specialize (Hs k Hk). lia.
    + intros k Hk. specialize (Hp k Hk).
      pose proof (rd_wr_incr (LD.num_part st) j k Hk).
      pose proof (rd_wr_incr (LD.num_congruent st) j k Hk).
      destruct novel.
      * rewrite (Hnc eq_refl).
        rewrite !rd_wr by lia. rewrite Hlen.
        destruct (Z.eqb_spec j k) as [->|]; simpl; [|lia].
        destruct (k <? Z.of_nat (length (LD.num_part st))); lia.
      * destruct congruent; lia.
    + intros k Hk. specialize (Hc k Hk).
      pose proof (rd_wr_incr (LD.num_congruent st) j k Hk).
      destruct (Z.eq_dec k j) as [->|Hne].
      * rewrite rd_wr_incr_at by lia.
        destruct (Z.ltb_spec j (Z.of_nat (length (LD.w_num_snps st)))); [|lia].
        destruct congruent; lia.
      * rewrite (rd_wr_ne 0 (LD.w_num_snps st)) by lia.
        destruct congruent; [|lia].
        rewrite rd_wr_ne by lia. lia.
Qed.

(** X13. In the scan of [calc_wall] over the segregating sites, started
    with the SNP counters at zero, the counters of each population end
    with [0 <= num_part <= num_congruent <= max(0, num_snps - 1)]. *)
Theorem calc_wall_counters (t : LD.ldData) (j : Z) :
  (forall k, 0 <= k -> rd 0 (LD.num_snps t) k = 0) -> 0 <= j ->
  let st := LD.wall_scan t in
  0 <= rd 0 (LD.num_part st) j <= rd 0 (LD.num_congruent st) j
  /\ rd 0 (LD.num_congruent st) j <= Z.max 0 (rd 0 (LD.w_num_snps st) j - 1).
Proof.
  intros Hz Hj st.
  assert (G : wall_inv st
              /\ length (LD.num_congruent st) = length (LD.num_part st)).
  { unfold st, LD.wall_scan.
    apply (for_preserves
             (fun st => wall_inv st
                /\ length (LD.num_congruent st) = length (LD.num_part st))).
    - split; [|reflexivity]. split; cbn.
      + intros k Hk. rewrite Hz by lia. lia.
      + intros k Hk. rewrite !rd_zeros. lia.
      + intros k Hk. rewrite rd_zeros, Hz by lia. lia.
    - intros i st0 _ H0.
      apply (for_preserves
               (fun st => wall_inv st
                  /\ length (LD.num_congruent st) = length (LD.num_part st)));
        [exact H0|].
      intros p st1 Hp [H1 H2]. apply wall_visit_inv; [lia|exact H2|exact H1]. }
  destruct G as [[_ Hp Hc] _]. split; [now apply Hp|now apply Hc].
Qed.

Lemma zero_window_snps k :
  0 <= k -> rd 0 (LD.num_snps example_four_sites) k = 0.
Proof.
  intros _. unfold rd. simpl LD.num_snps.
  destruct (Z.to_nat k) as [|[|n]]; reflexivity.
Qed.

Lemma calc_wall_counters_witness :
  let st := LD.wall_scan example_four_sites in
  0 <= rd 0 (LD.num_part st) 0 <= rd 0 (LD.num_congruent st) 0
  /\ rd 0 (LD.num_congruent st) 0 <= Z.max 0 (rd 0 (LD.w_num_snps st) 0 - 1).
Proof.
  apply (calc_wall_counters example_four_sites 0);
    [exact zero_window_snps | lia].
Defined.

(** ** A window without segregating sites *)

Lemma pileup_keeps_options
    (iupac iupac_rev : Z -> Z) (BAM_HETEROZYGOTE : Z)
    (cal_site_type : Z -> list Z -> Z) (cols : list (Z * list Z)) :
  forall t,
    let t' := LD.pileup iupac iupac_rev BAM_HETEROZYGOTE cal_site_type cols t in
    LD.min_snps t' = LD.min_snps t /\ LD.output t' = LD.output t
    /\ LD.sm_npops t' = LD.sm_npops t /\ LD.num_snps t' = LD.num_snps t.
Proof.
  induction cols as [|[pos cb] cols IH]; intros t; [easy|].
  cbv zeta.
  change (LD.pileup iupac iupac_rev BAM_HETEROZYGOTE cal_site_type
            ((pos, cb) :: cols) t)
    with (LD.pileup iupac iupac_rev BAM_HETEROZYGOTE cal_site_type cols
            (LD.make_ld iupac iupac_rev BAM_HETEROZYGOTE cal_site_type
               pos cb t)).
  destruct (IH (LD.make_ld iupac iupac_rev BAM_HETEROZYGOTE cal_site_type pos cb t))
    as (E1 & E2 & E3 & E4).
  rewrite E1, E2, E3, E4. unfold LD.make_ld.
  destruct ((LD.beg t <=? pos) && (pos <? LD.end_ t)); [|easy].
  destruct (Utils.segBase _ _ _ _ _ _) as [cb1 fq].
  destruct (Utils.qualFilter _ _ _ _ _) as [cb2 sample_cov].
  destruct (0 <? rd 0 _ _); [destruct (0 <? fq)|]; easy.
Qed.

(** X14. A window whose pileup records no segregating site, with
    [min_snps >= 1]: the statistic returns at once, and the printed line
    gives the number of aligned sites and, for every population, the SNP
    count 0 and NA for each statistic (two for Wall's statistics, one
    otherwise). *)
Theorem report_ld_without_sites
    (iupac iupac_rev : Z -> Z) (BAM_HETEROZYGOTE : Z)
    (cal_site_type : Z -> list Z -> Z)
    (t0 : LD.ldData) (mask nsmpl : list Z) (cols : list (Z * list Z)) :
  let t := LD.pileup iupac iupac_rev BAM_HETEROZYGOTE cal_site_type cols
             (LD.set_pops (LD.window_start t0) mask nsmpl) in
  LD.segsites t = 0 -> 1 <= LD.min_snps t0 ->
  LD.report_ld t
  = (LD.num_sites t,
     map (fun _ => (0, if LD.output t0 =? 2 then [LD.NA; LD.NA] else [LD.NA]))
       (seqZ 0 (LD.sm_npops t0))).
Proof.
  intros t Hs Hmin.
  destruct (pileup_keeps_options iupac iupac_rev BAM_HETEROZYGOTE cal_site_type
              cols (LD.set_pops (LD.window_start t0) mask nsmpl))
    as (E1 & E2 & E3 & E4).
  fold t in E1, E2, E3, E4.
  assert (F1 : LD.min_snps t = LD.min_snps t0).
  { rewrite E1. unfold LD.window_start, LD.init_ld. cbv zeta.
    destruct (LD.output _ =? 1); [|destruct (LD.output _ =? 2)]; reflexivity. }
  assert (F2 : LD.output t = LD.output t0).
  { rewrite E2. unfold LD.window_start, LD.init_ld. cbv zeta.
    destruct (LD.output _ =? 1); [|destruct (LD.output _ =? 2)]; reflexivity. }
  assert (F3 : LD.sm_npops t = LD.sm_npops t0).
  { rewrite E3. unfold LD.window_start, LD.init_ld. cbv zeta.
    destruct (LD.output _ =? 1); [|destruct (LD.output _ =? 2)]; reflexivity. }
  assert (Hc : LD.calc_ld t = t).
  { unfold LD.calc_ld, LD.calc_zns, LD.calc_omegamax, LD.calc_wall.
    rewrite Hs. simpl.
    destruct (LD.output t =? 0); [|destruct (LD.output t =? 1)]; reflexivity. }
  unfold LD.report_ld. rewrite Hc. unfold LD.print_ld. cbn [fst].
  f_equal. rewrite F3. apply map_ext. intros i.
  unfold LD.print_pop.
  pose proof (pileup_num_snps_zero iupac iupac_rev BAM_HETEROZYGOTE
                cal_site_type t0 mask nsmpl cols i) as Hz.
  fold t in Hz. rewrite Hz, F1, F2.
  destruct (Z.leb_spec (LD.min_snps t0) 0); [lia|]. reflexivity.
Qed.

Lemma report_ld_without_sites_witness :
  let t :=
    LD.pileup iupac_std iupac_rev_std example_BAM_HETEROZYGOTE cal_site_type_std
      [(0, [example_call 0 7 40; example_call 0 7 40])]
      (LD.set_pops (LD.window_start (example_options 2 0 10)) [3] [2]) in
  LD.report_ld t
  = (LD.num_sites t,
     map (fun _ => (0, if LD.output (example_options 2 0 10) =? 2
                       then [LD.NA; LD.NA] else [LD.NA]))
       (seqZ 0 (LD.sm_npops (example_options 2 0 10)))).
Proof.
  apply (report_ld_without_sites iupac_std iupac_rev_std example_BAM_HETEROZYGOTE
           cal_site_type_std (example_options 2 0 10) [3] [2]
           [(0, [example_call 0 7 40; example_call 0 7 40])]);
    [vm_compute; reflexivity | simpl; lia].
Defined.

(** ** The tables of calc_dw and calc_hw *)

Lemma frd2_fwr2 n d a b x j k :
  square n d -> 0 <= a < n -> 0 <= b < n -> 0 <= j -> 0 <= k ->
  SFS.frd2 (SFS.fwr2 d a b x) j k
  = if (a =? j) && (b =? k) then x else SFS.frd2 d j k.
Proof.
  intros [Hl Hr] Ha Hb Hj Hk. unfold SFS.frd2, SFS.fwr2.
  rewrite rd_wr by lia.
  destruct (Z.eqb_spec a j) as [->|]; simpl; [|reflexivity].
  destruct (Z.ltb_spec j (Z.of_nat (length d))); [|lia].
  rewrite rd_wr by lia. rewrite Hr by lia.
  destruct (Z.eqb_spec b k) as [->|]; simpl; [|reflexivity].
  destruct (Z.ltb_spec k n); [reflexivity|lia].
Qed.

Lemma square_fwr2 n d a b x : square n d -> square n (SFS.fwr2 d a b x).
Proof.
  intros [Hl Hr]. unfold SFS.fwr2. split; [now rewrite length_wr|].
  intros j Hj. rewrite rd_wr by lia.
  destruct (Z.eqb_spec a j) as [->|]; simpl; [|now apply Hr].
  destruct (Z.ltb_spec j (Z.of_nat (length d))); [|lia].
  rewrite length_wr. now apply Hr.
Qed.

Lemma fmatrix_square n : 0 <= n -> square (n + 1) (SFS.fmatrix n).
Proof.
  intros Hn. unfold SFS.fmatrix, fzeros. split.
  - rewrite repeat_length. lia.
  - intros a Ha. unfold rd. rewrite nth_repeat_lt by lia.
    rewrite repeat_length. lia.
Qed.

Lemma fmatrix_zero n j k : SFS.frd2 (SFS.fmatrix n) j k = 0%float.
Proof.
  unfold SFS.frd2, SFS.fmatrix, fzeros, rd.
  destruct (Nat.lt_ge_cases (Z.to_nat j) (Z.to_nat (n + 1))).
  - rewrite nth_repeat_lt by lia. apply nth_repeat.
  - rewrite (nth_overflow (repeat _ _)) by (rewrite repeat_length; lia).
    now destruct (Z.to_nat k).
Qed.

Section Tables.

Variables (sm_n : Z) (f : Z -> Z -> float).
Hypothesis Hn : 0 <= sm_n.

(** The nest of loops shared by [calc_dw] and [calc_hw]. *)
Lemma table_fill :
  let d :=
    for_ 2 (sm_n + 1)
      (fun n => for_ n (sm_n + 1) (fun i d => SFS.fwr2 d n i (f n i)))
      (SFS.fmatrix sm_n) in
  forall j k, 0 <= j -> 0 <= k ->
    SFS.frd2 d j k
    = if (2 <=? j) && (j <=? k) && (k <=? sm_n) then f j k else 0%float.
Proof.
  cbv zeta.
  pose (P := fun N d =>
               square (sm_n + 1) d
               /\ forall j k, 0 <= j -> 0 <= k ->
                    SFS.frd2 d j k
                    = if (2 <=? j) && (j <? N) && (j <=? k) && (k <=? sm_n)
                      then f j k else 0%float).
  destruct (Z.le_gt_cases 2 (sm_n + 1)) as [Hle|Hgt].
  2:{ rewrite for_empty by lia. intros j k Hj Hk. rewrite fmatrix_zero.
      destruct (Z.leb_spec 2 j), (Z.leb_spec j k), (Z.leb_spec k sm_n);
        try lia; reflexivity. }
  assert (H : P (sm_n + 1)
                (for_ 2 (sm_n + 1)
                   (fun n => for_ n (sm_n + 1) (fun i d => SFS.fwr2 d n i (f n i)))
                   (SFS.fmatrix sm_n))).
  { apply (for_invariant P); [lia| |].
    - split; [now apply fmatrix_square|]. intros j k Hj Hk.
      rewrite fmatrix_zero.
      destruct (Z.leb_spec 2 j), (Z.ltb_spec j 2); try lia; reflexivity.
    - intros N d HN [Hsq Hd].
      pose (Q := fun I d' =>
                   square (sm_n + 1) d'
                   /\ forall j k, 0 <= j -> 0 <= k ->
                        SFS.frd2 d' j k
                        = if (j =? N) && (N <=? k) && (k <? I) then f j k
                          else SFS.frd2 d j k).
      assert (HQ : Q (sm_n + 1)
                     (for_ N (sm_n + 1) (fun i d => SFS.fwr2 d N i (f N i)) d)).
      { apply (for_invariant Q); [lia| |].
        - split; [exact Hsq|]. intros j k Hj Hk.
          destruct (Z.eqb_spec j N), (Z.leb_spec N k), (Z.ltb_spec k N);
            try lia; reflexivity.
        - intros I d' HI [Hsq' Hd']. split; [now apply square_fwr2|].
          intros j k Hj Hk.
          rewrite (frd2_fwr2 (sm_n + 1)) by (auto; lia).
          rewrite Hd' by lia.
          destruct (Z.eqb_spec N j), (Z.eqb_spec j N), (Z.eqb_spec I k),
                   (Z.leb_spec N k), (Z.ltb_spec k I), (Z.ltb_spec k (I + 1));
            try lia; subst; simpl; reflexivity. }
      destruct HQ as [Hsq' Hd']. split; [exact Hsq'|].
      intros j k Hj Hk. rewrite Hd', Hd by lia.
      destruct (Z.eqb_spec j N), (Z.leb_spec N k), (Z.ltb_spec k (sm_n + 1)),
               (Z.leb_spec 2 j), (Z.ltb_spec j N), (Z.ltb_spec j (N + 1)),
               (Z.leb_spec j k), (Z.leb_spec k sm_n);
        try lia; subst; simpl; reflexivity. }
  destruct H as [_ H]. intros j k Hj Hk. rewrite H by lia.
  destruct (Z.leb_spec 2 j), (Z.ltb_spec j (sm_n + 1)),
           (Z.leb_spec j k), (Z.leb_spec k sm_n); try lia; reflexivity.
Qed.

End Tables.

Lemma calc_dw_hw_fill (sm_n : Z) (a1 : list float) (n i : Z) :
  0 <= sm_n -> 0 <= n -> 0 <= i ->
  SFS.frd2 (SFS.calc_dw sm_n a1) n i
  = (if (2 <=? n) && (n <=? i) && (i <=? sm_n) then dw_entry a1 n i else 0%float)
  /\ SFS.frd2 (SFS.calc_hw sm_n a1) n i
     = (if (2 <=? n) && (n <=? i) && (i <=? sm_n) then hw_entry a1 n i else 0%float).
Proof.
  intros Hs Hn Hi. split.
  - exact (table_fill sm_n (dw_entry a1) Hs n i Hn Hi).
  - exact (table_fill sm_n (hw_entry a1) Hs n i Hn Hi).
Qed.

(** X15. For [0 <= n, i <= sm->n] the tables of [calc_dw] and [calc_hw]
    hold [dw[n][i] = 2 i (n - i) / (n - 1)^2 - 1 / a1[n]] and
    [hw[n][i] = 1 / a1[n] - i / (n - 1)] when [2 <= n <= i], and 0.0
    otherwise: the entries with [i < n] are never assigned. *)
Theorem calc_dw_hw_entries (sm_n : Z) (a1 : list float) (n i : Z) :
  0 <= n <= sm_n -> 0 <= i <= sm_n ->
  SFS.frd2 (SFS.calc_dw sm_n a1) n i
  = (if (2 <=? n) && (n <=? i) then dw_entry a1 n i else 0%float)
  /\ SFS.frd2 (SFS.calc_hw sm_n a1) n i
     = (if (2 <=? n) && (n <=? i) then hw_entry a1 n i else 0%float).
Proof.
  intros Hn Hi.
  assert (C : (2 <=? n) && (n <=? i) && (i <=? sm_n) = (2 <=? n) && (n <=? i))
    by lia.
  rewrite <- C. apply calc_dw_hw_fill; lia.
Qed.

Lemma calc_dw_hw_entries_witness :
  SFS.frd2 (SFS.calc_dw 4 (SFS.calc_a1 4)) 3 2
  = (if (2 <=? 3) && (3 <=? 2) then dw_entry (SFS.calc_a1 4) 3 2 else 0%float)
  /\ SFS.frd2 (SFS.calc_hw 4 (SFS.calc_a1 4)) 3 2
     = (if (2 <=? 3) && (3 <=? 2) then hw_entry (SFS.calc_a1 4) 3 2 else 0%float).
Proof. apply (calc_dw_hw_entries 4 (SFS.calc_a1 4) 3 2); lia. Defined.

(** X16. With the tables that [calc_dw] and [calc_hw] build and the
    accumulators [td[i]] and [fwh[i]] at zero, as [init_sfs] leaves them,
    the loop of [calc_sfs] over the segregating sites leaves both sums at
    0.0: each entry [dw[ncov][freq]] and [hw[ncov][freq]] that it adds has
    [freq < ncov], where the tables hold zero. *)
Theorem sfs_sites_adds_zeros (BAM_OUTGROUP : Z) (t : SFS.sfsData) (i : Z)
    (a a' : list float) :
  0 <= SFS.sm_n t ->
  (forall j, 0 <= j < SFS.segsites t ->
     0 <= rd 0 (rd [] (SFS.ncov t) i) j <= SFS.sm_n t) ->
  SFS.dw t = SFS.calc_dw (SFS.sm_n t) a ->
  SFS.hw t = SFS.calc_hw (SFS.sm_n t) a' ->
  SFS.frd (SFS.td t) i = 0%float -> SFS.frd (SFS.fwh t) i = 0%float ->
  SFS.sp_td (SFS.sfs_sites BAM_OUTGROUP t i) = 0%float
  /\ SFS.sp_fwh (SFS.sfs_sites BAM_OUTGROUP t i) = 0%float.
Proof.
  intros Hn _ Hdw Hhw Htd Hfwh. unfold SFS.sfs_sites.
  apply (for_preserves
           (fun sp => SFS.sp_td sp = 0%float /\ SFS.sp_fwh sp = 0%float)).
  - cbn. now rewrite Htd, Hfwh.
  - intros j sp _ [E1 E2]. cbv zeta.
    match goal with |- context [if ?c then _ else _] => destruct c eqn:Hc end;
      [|now split].
    cbn [SFS.sp_td SFS.sp_fwh].
    apply andb_true_iff in Hc. destruct Hc as [Hpos Hlt].
    apply Z.ltb_lt in Hpos, Hlt.
    rewrite Hdw, Hhw, E1, E2.
    match type of Hlt with ?fr < ?cv =>
      destruct (calc_dw_hw_fill (SFS.sm_n t) a cv fr Hn ltac:(lia) ltac:(lia))
        as [D _];
      destruct (calc_dw_hw_fill (SFS.sm_n t) a' cv fr Hn ltac:(lia) ltac:(lia))
        as [_ H];
      assert (C : (2 <=? cv) && (cv <=? fr) && (fr <=? SFS.sm_n t) = false)
        by lia;
      rewrite C in D, H
    end.
    rewrite D, H. split; reflexivity.
Qed.

Lemma sfs_sites_adds_zeros_witness :
  SFS.sp_td (SFS.sfs_sites example_BAM_OUTGROUP (example_sfs 2) 0) = 0%float
  /\ SFS.sp_fwh (SFS.sfs_sites example_BAM_OUTGROUP (example_sfs 2) 0) = 0%float.
Proof.
  apply (sfs_sites_adds_zeros example_BAM_OUTGROUP (example_sfs 2) 0
           (SFS.calc_a1 4) (SFS.calc_a1 4));
    [simpl; lia | | reflexivity | reflexivity | reflexivity | reflexivity].
  intros j Hj. assert (j = 0) as -> by (simpl in Hj; lia).
  vm_compute. split; congruence.
Defined.

(** ** count_aligned *)

Lemma count_aligned_value (t : SFS.sfsData) (j : Z) :
  0 <= SFS.num_sites t -> 0 <= j ->
  SFS.sm_npops t <= Z.of_nat (length (SFS.ns t)) ->
  rd 0 (SFS.count_aligned t) j
  = rd 0 (SFS.ns t) j
    + (if j <? SFS.sm_npops t then count_below (covered t j) (SFS.num_sites t) else 0)
  /\ rd 0 (SFS.count_aligned t) j <= rd 0 (SFS.ns t) j + SFS.num_sites t.
Proof.
  intros Hn Hj Hlen.
  assert (E : rd 0 (SFS.count_aligned t) j
              = rd 0 (SFS.ns t) j
                + (if j <? SFS.sm_npops t
                   then count_below (covered t j) (SFS.num_sites t) else 0)).
  { unfold SFS.count_aligned.
    pose (P := fun I ns =>
                 length ns = length (SFS.ns t)
                 /\ forall j, 0 <= j ->
                      rd 0 ns j
                      = rd 0 (SFS.ns t) j
                        + (if j <? SFS.sm_npops t
                           then count_below (covered t j) I else 0)).
    assert (H : P (SFS.num_sites t)
                  (for_ 0 (SFS.num_sites t)
                     (fun i => for_ 0 (SFS.sm_npops t)
                        (fun j ns =>
                           if negb (CHECK_BIT (rd 0 (SFS.pop_cov t) i) j =? 0)
                           then wr ns j (rd 0 ns j + 1) else ns))
                     (SFS.ns t))).
    { apply (for_invariant P); [lia| |].
      - split; [reflexivity|]. intros k Hk.
        destruct (k <? SFS.sm_npops t); unfold count_below; simpl; lia.
      - intros I ns HI [Hl Hns].
        pose (Q := fun J ns' =>
                     length ns' = length (SFS.ns t)
                     /\ forall j, 0 <= j ->
                          rd 0 ns' j
                          = rd 0 ns j
                            + (if (j <? J) && covered t j I then 1 else 0)).
        destruct (Z.le_gt_cases 0 (SFS.sm_npops t)) as [Hp|Hp].
        2:{ rewrite for_empty by lia. split; [exact Hl|].
            intros k Hk. rewrite Hns by lia.
            destruct (Z.ltb_spec k (SFS.sm_npops t)); [lia|reflexivity]. }
        assert (HQ : Q (SFS.sm_npops t)
                       (for_ 0 (SFS.sm_npops t)
                          (fun j ns =>
                             if negb (CHECK_BIT (rd 0 (SFS.pop_cov t) I) j =? 0)
                             then wr ns j (rd 0 ns j + 1) else ns) ns)).
        { apply (for_invariant Q); [lia| |].
          - split; [exact Hl|]. intros k Hk.
            destruct (Z.ltb_spec k 0); [lia|]. simpl. lia.
          - intros J ns' HJ [Hl' Hns'].
            fold (covered t J I).
            destruct (covered t J I) eqn:Hc.
            + split; [now rewrite length_wr|]. intros k Hk.
              rewrite rd_wr by lia. rewrite Hl'.
              destruct (Z.eqb_spec J k) as [<-|Hne]; simpl.
              * destruct (Z.ltb_spec J (Z.of_nat (length (SFS.ns t)))); [|lia].
                rewrite Hns' by lia. rewrite Hc.
                destruct (Z.ltb_spec J J), (Z.ltb_spec J (J + 1)); try lia.
                simpl. lia.
              * rewrite Hns' by lia.
                destruct (Z.ltb_spec k J), (Z.ltb_spec k (J + 1)); try lia;
                  reflexivity.
            + split; [exact Hl'|]. intros k Hk. rewrite Hns' by lia.
              destruct (Z.eq_dec k J) as [->|Hne].
              * rewrite Hc, !andb_false_r. reflexivity.
              * destruct (Z.ltb_spec k J), (Z.ltb_spec k (J + 1)); try lia;
                  reflexivity. }
        destruct HQ as [Hl' Hns']. split; [exact Hl'|].
        intros k Hk. rewrite Hns', Hns by lia.
        rewrite count_below_last by lia.
        destruct (k <? SFS.sm_npops t); simpl; lia. }
    destruct H as [_ H]. now apply H. }
  split; [exact E|]. rewrite E.
  pose proof (count_below_bound (covered t j) (SFS.num_sites t) Hn).
  pose proof (count_below_nonneg (covered t j) (SFS.num_sites t)).
  destruct (j <? SFS.sm_npops t); lia.
Qed.

(** X17. The first loop of [calc_sfs] adds to [ns[j]], for a population
    [j < npops], the number of the [num_sites] aligned sites whose word
    [pop_cov] has bit [j] set, and leaves the entries of the other indices
    as they were; no entry grows by more than [num_sites]. *)
Theorem count_aligned_counts (t : SFS.sfsData) (j : Z) :
  0 <= SFS.num_sites t -> 0 <= j ->
  SFS.sm_npops t <= Z.of_nat (length (SFS.ns t)) ->
  rd 0 (SFS.count_aligned t) j
  = rd 0 (SFS.ns t) j
    + (if j <? SFS.sm_npops t then count_below (covered t j) (SFS.num_sites t) else 0)
  /\ rd 0 (SFS.count_aligned t) j <= rd 0 (SFS.ns t) j + SFS.num_sites t.
Proof. exact (count_aligned_value t j). Qed.

Lemma count_aligned_counts_witness :
  rd 0 (SFS.count_aligned (example_sfs 2)) 0
  = rd 0 (SFS.ns (example_sfs 2)) 0
    + (if 0 <? SFS.sm_npops (example_sfs 2)
       then count_below (covered (example_sfs 2) 0) (SFS.num_sites (example_sfs 2))
       else 0)
  /\ rd 0 (SFS.count_aligned (example_sfs 2)) 0
     <= rd 0 (SFS.ns (example_sfs 2)) 0 + SFS.num_sites (example_sfs 2).
Proof.
  apply (count_aligned_counts (example_sfs 2) 0); simpl; lia.
Defined.

(** ** make_sfs: the per-column driver of the SFS window *)

Section MakeSFS.

Variable iupac : Z -> Z.
Variable iupac_rev : Z -> Z.
Variable BAM_HETEROZYGOTE : Z.
Variable cal_site_type : Z -> list Z -> Z.
Variable o : SFSPileup.options.

Local Abbreviation make_sfs :=
  (SFSPileup.make_sfs iupac iupac_rev BAM_HETEROZYGOTE cal_site_type o).
Local Abbreviation pileup :=
  (SFSPileup.pileup iupac iupac_rev BAM_HETEROZYGOTE cal_site_type o).

Lemma make_sfs_inv t0 t t' k pos cb :
  sfs_window_inv t0 t k -> make_sfs pos cb t = Some t' ->
  sfs_window_inv t0 t' (if sfs_in_window t0 pos then k + 1 else k).
Proof.
  intros [Hb He Hp Hns Hs Hn Hl]. unfold SFSPileup.make_sfs, sfs_in_window.
  rewrite Hb, He.
  destruct ((SFS.beg t0 <=? pos) && (pos <? SFS.end_ t0)).
  2:{ intros [= <-]. now split. }
  destruct (Utils.segBase _ _ _ _ _ _) as [cb1 fq].
  destruct (Utils.qualFilter _ _ _ _ _) as [cb2 sample_cov].
  destruct (SFSPileup.coverage o t sample_cov) as [[nc pc]|]; [|discriminate].
  destruct (0 <? rd 0 pc _); [destruct (0 <? fq)|];
    intros [= <-]; split; cbn; try lia; try assumption.
  now rewrite length_wr.
Qed.

Lemma pileup_none cols :
  fold_left
    (fun ot c =>
       match ot with
       | Some t => make_sfs (fst c) (snd c) t
       | None => None
       end) cols None = None.
Proof. induction cols as [|c cols IH]; [reflexivity|exact IH]. Qed.

Lemma pileup_sfs_inv t0 cols : forall t t' k,
  sfs_window_inv t0 t k -> pileup cols t = Some t' ->
  sfs_window_inv t0 t' (k + Z.of_nat (length (sfs_delivered t0 cols))).
Proof.
  induction cols as [|[pos cb] cols IH]; intros t t' k Hinv.
  - intros [= <-]. simpl. now rewrite Z.add_0_r.
  - unfold SFSPileup.pileup. simpl.
    destruct (make_sfs pos cb t) as [t1|] eqn:E.
    2:{ rewrite pileup_none. discriminate. }
    intros Hrest.
    pose proof (make_sfs_inv t0 t t1 k pos cb Hinv E) as Hstep.
    apply (IH t1 t' _ Hstep) in Hrest.
    unfold sfs_delivered in *. simpl. rewrite filter_cons.
    destruct (decide (sfs_in_window t0 pos = true)) as [Hin|Hout].
    + rewrite Hin in Hrest. simpl.
      replace (k + Z.of_nat (Datatypes.S (length (filter _ (map fst cols)))))
        with (k + 1 + Z.of_nat (length (filter (fun p => sfs_in_window t0 p = true)
                                         (map fst cols)))) by lia.
      exact Hrest.
    + destruct (sfs_in_window t0 pos); [easy|]. exact Hrest.
Qed.

Lemma sfs_delivered_bound t0 cols :
  SFS.beg t0 <= SFS.end_ t0 ->
  NoDup (sfs_delivered t0 cols) ->
  Z.of_nat (length (sfs_delivered t0 cols)) <= SFS.end_ t0 - SFS.beg t0.
Proof.
  intros Hle Hnd.
  assert (Hsub : sfs_delivered t0 cols
                 ⊆+ seqZ (SFS.beg t0) (SFS.end_ t0 - SFS.beg t0)).
  { apply NoDup_submseteq; [exact Hnd|].
    intros p Hp. apply list_elem_of_filter in Hp as [Hp _].
    unfold sfs_in_window in Hp. apply elem_of_seqZ. lia. }
  apply submseteq_length in Hsub. rewrite length_seqZ in Hsub. lia.
Qed.

Lemma sfs_window_start_inv t0 mask :
  SFS.beg t0 <= SFS.end_ t0 ->
  sfs_window_inv t0 (SFSPileup.set_pops (SFSPileup.window_start t0) mask) 0.
Proof.
  intros Hle. split; cbn; try lia; try reflexivity.
  unfold zeros. rewrite repeat_length. lia.
Qed.

End MakeSFS.

(** X18. After [init_sfs] and the pileup of a window in which each
    position of [beg, end) is delivered at most once, whenever the
    conversions of [make_sfs] are defined:
    [0 <= segsites <= num_sites <= end - beg], and the number of aligned
    sites that [calc_sfs] then counts for a population lies between 0 and
    [num_sites]. *)
Theorem make_sfs_window_invariant
    (iupac iupac_rev : Z -> Z) (BAM_HETEROZYGOTE : Z)
    (cal_site_type : Z -> list Z -> Z) (o : SFSPileup.options)
    (t0 : SFS.sfsData) (mask : list Z) (cols : list (Z * list Z))
    (t : SFS.sfsData) (j : Z) :
  SFS.beg t0 <= SFS.end_ t0 ->
  NoDup (sfs_delivered t0 cols) ->
  SFSPileup.pileup iupac iupac_rev BAM_HETEROZYGOTE cal_site_type o cols
    (SFSPileup.set_pops (SFSPileup.window_start t0) mask) = Some t ->
  0 <= j ->
  0 <= SFS.segsites t <= SFS.num_sites t
  /\ SFS.num_sites t <= SFS.end_ t - SFS.beg t
  /\ 0 <= rd 0 (SFS.count_aligned t) j <= SFS.num_sites t.
Proof.
  intros Hle Hnd Hp Hj.
  pose proof (pileup_sfs_inv iupac iupac_rev BAM_HETEROZYGOTE cal_site_type o
                t0 cols _ t 0 (sfs_window_start_inv t0 mask Hle) Hp) as Hinv.
  pose proof (sfs_delivered_bound t0 cols Hle Hnd) as Hd.
  destruct Hinv as [Hb He Hn Hns Hs Hk Hl].
  split; [exact Hs|]. split; [lia|].
  destruct (count_aligned_value t j ltac:(lia) Hj) as [E Hle'].
  { rewrite Hns, Hn. unfold zeros. rewrite repeat_length. lia. }
  rewrite Hns in E, Hle'.
  assert (Hz : rd 0 (zeros (SFS.sm_npops t0)) j = 0)
    by (unfold rd, zeros; apply nth_repeat).
  rewrite Hz in E, Hle'. split; [|lia]. rewrite E.
  pose proof (count_below_nonneg (covered t j) (SFS.num_sites t)).
  destruct (j <? SFS.sm_npops t); lia.
Qed.

Lemma make_sfs_window_invariant_witness :
  exists t,
    SFSPileup.pileup iupac_std iupac_rev_std example_BAM_HETEROZYGOTE
      cal_site_type_std example_sfs_options example_sfs_columns
      (SFSPileup.set_pops (SFSPileup.window_start (example_sfs 0)) [15]) = Some t
    /\ 0 <= SFS.segsites t <= SFS.num_sites t
    /\ SFS.num_sites t <= SFS.end_ t - SFS.beg t
    /\ 0 <= rd 0 (SFS.count_aligned t) 0 <= SFS.num_sites t.
Proof.
  eexists. split; [vm_compute; reflexivity|].
  apply (make_sfs_window_invariant iupac_std iupac_rev_std example_BAM_HETEROZYGOTE
           cal_site_type_std example_sfs_options (example_sfs 0) [15]
           example_sfs_columns _ 0);
    [simpl; lia
    | vm_compute; repeat constructor; rewrite ?elem_of_cons, ?elem_of_nil;
      intuition discriminate
    | vm_compute; reflexivity | lia].
Defined.

(** ** The coverage that a population needs *)

Lemma required_full_table :
  forallb
    (fun n =>
       match F64.to_int 0 (2 ^ 32 - 1) (1 * F64.of_Z n + 0.4999)%float with
       | Some m => m =? n
       | None => false
       end)
    (seqZ 0 256) = true.
Proof. vm_compute. reflexivity. Qed.

(** X19. With [min_pop = 1.0], the value that the constructor sets, and a
    population of at most 255 samples ([pop_nsmpl] is an array of
    [unsigned char]), the coverage that [make_sfs] requires,
    [(unsigned int)(min_pop * pop_nsmpl[i] + 0.4999)], is the size of the
    population. *)
Theorem required_all_samples (o : SFSPileup.options) (i : Z) :
  SFSPileup.min_pop o = 1%float ->
  0 <= rd 0 (SFSPileup.pop_nsmpl o) i <= 255 ->
  SFSPileup.required o i = Some (rd 0 (SFSPileup.pop_nsmpl o) i).
Proof.
  intros Hm Hn. unfold SFSPileup.required. cbv zeta. rewrite Hm.
  pose proof required_full_table as H.
  rewrite forallb_forall in H.
  specialize (H (rd 0 (SFSPileup.pop_nsmpl o) i)).
  destruct (F64.to_int _ _ _) as [m|].
  - f_equal. apply Z.eqb_eq. apply H.
    apply list_elem_of_In, elem_of_seqZ. lia.
  - exfalso. assert (false = true); [|discriminate]. apply H.
    apply list_elem_of_In, elem_of_seqZ. lia.
Qed.

Lemma required_all_samples_witness :
  SFSPileup.required example_sfs_options 0
  = Some (rd 0 (SFSPileup.pop_nsmpl example_sfs_options) 0).
Proof.
  apply (required_all_samples example_sfs_options 0);
    [reflexivity | unfold rd; simpl; lia].
Defined.

(** ** calc_sfs on a window without segregating sites *)

Lemma for_split {S : Type} lo mid hi (body : Z -> S -> S) s :
  lo <= mid <= hi ->
  for_ lo hi body s = for_ mid hi body (for_ lo mid body s).
Proof.
  intros H. unfold for_.
  replace (hi - lo) with ((mid - lo) + (hi - mid)) by lia.
  rewrite seqZ_app by lia. rewrite fold_left_app.
  now replace (lo + (mid - lo)) with mid by lia.
Qed.

Lemma calc_sfs_pop_no_sites BAM_OUTGROUP th p t :
  no_segregating th p t -> SFS.calc_sfs_pop BAM_OUTGROUP t p = None.
Proof.
  intros (Hs & Hth & Hns). unfold SFS.calc_sfs_pop. rewrite Hth.
  destruct (Z.leb_spec th (rd 0 (SFS.ns t) p)); [|lia].
  unfold SFS.sfs_sites. rewrite for_empty by lia.
  unfold SFS.sfs_finalize. cbn [SFS.avgn SFS.sp_snps]. reflexivity.
Qed.

(** X20. When the window holds no segregating site and some population
    has the aligned sites that the threshold [(end - beg) * min_sites]
    asks for, [calc_sfs] has no defined result: the average coverage
    [avgn / num_snps[i]] is 0/0, and the conversion of NaN to [int] is
    undefined. *)
Theorem calc_sfs_without_segregating_sites
    (BAM_OUTGROUP : Z) (t : SFS.sfsData) (p th : Z) :
  0 <= p < SFS.sm_npops t ->
  SFS.segsites t = 0 ->
  SFS.sites_threshold t = Some th ->
  th <= rd 0 (SFS.count_aligned t) p ->
  SFS.calc_sfs BAM_OUTGROUP t = None.
Proof.
  intros Hp Hs Hth Hns. rewrite calc_sfs_unfold.
  set (t1 := SFS.set_results t (SFS.count_aligned t) (SFS.num_snps t)
               (SFS.td t) (SFS.fwh t)).
  assert (H1 : no_segregating th p t1) by (repeat split; assumption).
  rewrite (for_split 0 p (SFS.sm_npops t)) by lia.
  assert (Hbefore : forall t', for_ 0 p (sfs_step BAM_OUTGROUP) (Some t1) = Some t' ->
                      no_segregating th p t').
  { apply (for_preserves
             (fun ot => forall t', ot = Some t' -> no_segregating th p t')).
    - now intros t' [= <-].
    - intros i [t0|] Hi Hot t'; [|discriminate].
      specialize (Hot t0 eq_refl). unfold sfs_step.
      destruct (SFS.calc_sfs_pop BAM_OUTGROUP t0 i) as [[[snps d] h]|];
        [|discriminate].
      intros [= <-]. exact Hot. }
  rewrite (for_split p (p + 1) (SFS.sm_npops t)) by lia.
  replace (for_ p (p + 1) (sfs_step BAM_OUTGROUP)
             (for_ 0 p (sfs_step BAM_OUTGROUP) (Some t1))) with (@None SFS.sfsData).
  - apply (for_preserves (fun ot => ot = None)); [reflexivity|].
    now intros i ot _ ->.
  - rewrite for_last, for_empty by lia.
    destruct (for_ 0 p (sfs_step BAM_OUTGROUP) (Some t1)) as [tp|];
      [|reflexivity].
    unfold sfs_step.
    now rewrite (calc_sfs_pop_no_sites BAM_OUTGROUP th p tp (Hbefore tp eq_refl)).
Qed.

Lemma calc_sfs_without_segregating_sites_witness :
  SFS.calc_sfs example_BAM_OUTGROUP example_sfs_no_sites = None.
Proof.
  apply (calc_sfs_without_segregating_sites example_BAM_OUTGROUP
           example_sfs_no_sites 0 2);
    [simpl; lia | reflexivity | vm_compute; reflexivity | vm_compute; congruence].
Defined.

Section RegionProperties.

Import Text Region Windows.

(** ** Texts *)

Lemma remove_id c s : Forall (fun x => x <> c) s -> remove c s = s.
Proof.
  unfold remove. induction 1 as [|x s Hx _ IH]; [reflexivity|].
  rewrite filter_cons_True by exact Hx. now rewrite IH.
Qed.

Lemma remove_remove c s : remove c (remove c s) = remove c s.
Proof.
  apply remove_id. unfold remove. apply Forall_forall. intros x Hx.
  apply list_elem_of_filter in Hx. tauto.
Qed.

Lemma remove_comm c d s : remove c (remove d s) = remove d (remove c s).
Proof.
  unfold remove. induction s as [|x s IH]; [reflexivity|].
  rewrite !filter_cons.
  destruct (decide (x <> d)), (decide (x <> c));
    rewrite ?filter_cons_True, ?filter_cons_False by tauto;
    now rewrite IH.
Qed.

Lemma find_if_app_hit p s c t : forall i,
  Forall (fun x => p x = false) s -> p c = true ->
  find_if p (s ++ c :: t) i = i + Z.of_nat (length s).
Proof.
  induction s as [|x s IH]; intros i Hs Hc; simpl.
  - rewrite Hc. lia.
  - inversion Hs as [|? ? Hx Hs']; subst. rewrite Hx.
    rewrite IH by assumption. lia.
Qed.

Lemma find_if_none p s : forall i,
  Forall (fun x => p x = false) s -> find_if p s i = npos.
Proof.
  induction s as [|x s IH]; intros i Hs; simpl; [reflexivity|].
  inversion Hs as [|? ? Hx Hs']; subst. rewrite Hx. now apply IH.
Qed.

Lemma find_if_range p s : forall i,
  0 <= i ->
  find_if p s i = npos
  \/ i <= find_if p s i < i + Z.of_nat (length s).
Proof.
  induction s as [|x s IH]; intros i Hi; simpl; [now left|].
  destruct (p x); [right; lia|].
  destruct (IH (i + 1) ltac:(lia)) as [->|H]; [now left|right; lia].
Qed.

Lemma count_app c s t : count c (s ++ t) = count c s + count c t.
Proof. unfold count. rewrite filter_app, length_app. lia. Qed.

Lemma count_none c s : Forall (fun x => x <> c) s -> count c s = 0.
Proof.
  unfold count. induction 1 as [|x s Hx _ IH]; [reflexivity|].
  now rewrite filter_cons_False by tauto.
Qed.

Lemma substr_prefix s t :
  substr (s ++ t) 0 (Z.of_nat (length s)) = Some s.
Proof.
  unfold substr.
  destruct (Z.ltb_spec (Z.of_nat (length (s ++ t))) 0); [lia|].
  f_equal. change (Z.to_nat 0) with 0%nat. rewrite drop_0.
  replace (Z.to_nat (Z.min _ _)) with (length s) by (rewrite length_app; lia).
  apply take_app_length.
Qed.

Lemma substr_whole s n :
  Z.of_nat (length s) <= n -> substr s 0 n = Some s.
Proof.
  intros Hn. unfold substr.
  destruct (Z.ltb_spec (Z.of_nat (length s)) 0); [lia|].
  f_equal. change (Z.to_nat 0) with 0%nat. rewrite drop_0. apply take_ge. lia.
Qed.

Lemma substr_suffix s t :
  Z.of_nat (length t) <= npos ->
  substr (s ++ t) (Z.of_nat (length s)) npos = Some t.
Proof.
  intros Hl. unfold substr. rewrite length_app.
  destruct (Z.ltb_spec (Z.of_nat (length s + length t)) (Z.of_nat (length s)));
    [lia|].
  f_equal. rewrite Nat2Z.id, drop_app_length. apply take_ge. lia.
Qed.

(** *** Decimal digits *)

Lemma digit_digit_char d : 0 <= d < 10 -> digit (digit_char d) = Some d.
Proof.
  intros Hd.
  assert (E : d = 0 \/ d = 1 \/ d = 2 \/ d = 3 \/ d = 4 \/ d = 5 \/ d = 6
              \/ d = 7 \/ d = 8 \/ d = 9) by lia.
  repeat (destruct E as [->|E]; [reflexivity|]). now subst.
Qed.

Lemma digits_value_app s t : forall acc,
  Forall (fun c => is_digit c = true) s ->
  digits_value acc (s ++ t) = digits_value (digits_value acc s) t.
Proof.
  induction s as [|c s IH]; intros acc Hs; [reflexivity|]. simpl.
  inversion Hs as [|? ? Hc Hs']; subst. unfold is_digit in Hc.
  destruct (digit c); [|discriminate]. now apply IH.
Qed.

(** The digits of [n], written in front of [acc]. *)
Lemma decimal_digits_spec : forall fuel n acc,
  0 <= n -> (Z.to_nat (Z.log2 n) < fuel)%nat ->
  exists ds,
    decimal_digits fuel n acc = ds ++ acc
    /\ ds <> []
    /\ Forall (fun c => is_digit c = true) ds
    /\ digits_value 0 ds = n
    /\ (length ds <= fuel)%nat.
Proof.
  induction fuel as [|fuel IH]; intros n acc Hn Hf; [lia|].
  simpl. destruct (Z.ltb_spec n 10) as [Hlt|Hge].
  - exists [digit_char (n mod 10)]. rewrite Z.mod_small by lia.
    repeat split; try easy.
    + constructor; [|constructor]. unfold is_digit.
      now rewrite digit_digit_char by lia.
    + simpl. rewrite digit_digit_char by lia. lia.
    + simpl. lia.
  - assert (Hlog : Z.log2 (n / 10) < Z.log2 n).
    { assert (n / 10 <= n / 2).
      { apply Z.div_le_compat_l; lia. }
      assert (Z.log2 (n / 10) <= Z.log2 (n / 2)) by (apply Z.log2_le_mono; lia).
      rewrite <- (Z.div2_div n), Z.div2_spec, Z.log2_shiftr in * by lia.
      assert (1 <= Z.log2 n) by (apply (Z.log2_le_mono 2 n); lia).
      lia. }
    assert (Hq : 0 <= n / 10) by (apply Z.div_pos; lia).
    destruct (IH (n / 10) (digit_char (n mod 10) :: acc) Hq) as
      (ds & E & Hne & Hall & Hval & Hlen).
    { pose proof (Z.log2_nonneg (n / 10)). lia. }
    exists (ds ++ [digit_char (n mod 10)]).
    pose proof (Z.mod_pos_bound n 10 ltac:(lia)) as Hm.
    repeat split.
    + rewrite E, <- app_assoc. reflexivity.
    + intros C. apply app_eq_nil in C. destruct C as [_ C]. discriminate.
    + apply Forall_app. split; [exact Hall|].
      constructor; [|constructor]. unfold is_digit.
      now rewrite digit_digit_char by lia.
    + rewrite digits_value_app by exact Hall. rewrite Hval. simpl.
      rewrite digit_digit_char by lia.
      pose proof (Z.div_mod n 10 ltac:(lia)). lia.
    + rewrite length_app. simpl. lia.
Qed.

Lemma decimal_spec n :
  0 <= n ->
  decimal n <> []
  /\ Forall (fun c => is_digit c = true) (decimal n)
  /\ digits_value 0 (decimal n) = n
  /\ Z.of_nat (length (decimal n)) <= Z.log2 n + 1.
Proof.
  intros Hn. unfold decimal.
  destruct (Z.ltb_spec n 0); [lia|].
  destruct (decimal_digits_spec (S (Z.to_nat (Z.log2 n))) n [] Hn ltac:(lia))
    as (ds & E & Hne & Hall & Hval & Hlen).
  rewrite app_nil_r in E. rewrite E.
  pose proof (Z.log2_nonneg n).
  repeat split; auto. lia.
Qed.

Lemma digit_not c x : is_digit c = true -> is_digit x = false -> c <> x.
Proof. intros H1 H2 ->. congruence. Qed.

Lemma digits_value_nonneg s : forall acc, 0 <= acc -> 0 <= digits_value acc s.
Proof.
  induction s as [|c s IH]; intros acc Hacc; simpl; [exact Hacc|].
  unfold digit. destruct (_ && _) eqn:E; [|exact Hacc].
  apply IH. lia.
Qed.

(** A digit is no white space, no sign and no separator. *)
Lemma is_digit_plain c :
  is_digit c = true ->
  isspace c = false /\ Ascii.eqb c "-" = false /\ Ascii.eqb c "+" = false
  /\ c <> ":"%char /\ c <> " "%char /\ c <> ","%char /\ c <> "-"%char
  /\ existsb (Ascii.eqb c) (lit "0123456789,-") = true.
Proof.
  destruct c as [[] [] [] [] [] [] [] []]; vm_compute; intros H;
    try discriminate H; repeat split; discriminate.
Qed.

Lemma skip_spaces_suffix s : exists pre, s = pre ++ skip_spaces s.
Proof.
  induction s as [|c s [pre IH]]; [now exists []|]. simpl.
  destruct (isspace c).
  - exists (c :: pre). simpl. now rewrite <- IH.
  - now exists [].
Qed.

(** Without a minus sign, [atoi] is not negative. *)
Lemma atoi_nonneg s v :
  Forall (fun c => c <> "-"%char) s -> atoi s = Some v -> 0 <= v.
Proof.
  intros Hs. unfold atoi.
  destruct (skip_spaces_suffix s) as [pre E].
  assert (Hs' : Forall (fun c => c <> "-"%char) (skip_spaces s)).
  { rewrite E in Hs. apply Forall_app in Hs. tauto. }
  destruct (skip_spaces s) as [|c r]; cbv beta iota zeta.
  - simpl. intros [= <-]. lia.
  - inversion Hs' as [|? ? Hc _]; subst.
    destruct (Ascii.eqb_spec c "-"); [contradiction|].
    pose proof (digits_value_nonneg (c :: r) 0 ltac:(lia)) as N1.
    pose proof (digits_value_nonneg r 0 ltac:(lia)) as N2.
    destruct (Ascii.eqb c "+"); cbv beta iota zeta;
      [set (v1 := digits_value 0 r) in * | set (v1 := digits_value 0 (c :: r)) in *];
      clearbody v1;
      (destruct (_ && _); [|discriminate]; intros [= <-]; lia).
Qed.

Lemma atoi_of_digits s :
  Forall (fun c => is_digit c = true) s ->
  atoi s
  = if digits_value 0 s <=? 2 ^ 31 - 1 then Some (digits_value 0 s) else None.
Proof.
  intros Hs. unfold atoi.
  pose proof (digits_value_nonneg s 0 ltac:(lia)) as Hnn.
  destruct s as [|c s]; [reflexivity|].
  inversion Hs as [|? ? Hc Hs']; subst.
  destruct (is_digit_plain c Hc) as (H1 & H2 & H3 & _).
  cbn [skip_spaces]. rewrite H1, H2, H3.
  destruct (Z.leb_spec (- 2 ^ 31) (digits_value 0 (c :: s))); [|lia].
  reflexivity.
Qed.

Lemma atoi_decimal n :
  0 <= n <= 2 ^ 31 - 1 -> atoi (decimal n) = Some n.
Proof.
  intros Hn. destruct (decimal_spec n ltac:(lia)) as (_ & Hall & Hval & _).
  rewrite atoi_of_digits by exact Hall. rewrite Hval.
  destruct (Z.leb_spec n (2 ^ 31 - 1)); [reflexivity|lia].
Qed.

Lemma decimal_length n : 0 <= n <= 2 ^ 31 - 1 -> Z.of_nat (length (decimal n)) <= 32.
Proof.
  intros Hn. destruct (decimal_spec n ltac:(lia)) as (_ & _ & _ & Hlen).
  assert (Z.log2 n <= Z.log2 (2 ^ 31 - 1)) by (apply Z.log2_le_mono; lia).
  change (Z.log2 (2 ^ 31 - 1)) with 30 in *. lia.
Qed.

(** *** find *)

Lemma find_if_spec p s :
  Z.of_nat (length s) < npos ->
  (find_if p s 0 = npos /\ Forall (fun c => p c = false) s)
  \/ exists pre c post,
       s = pre ++ c :: post /\ Forall (fun c => p c = false) pre
       /\ p c = true /\ find_if p s 0 = Z.of_nat (length pre).
Proof.
  intros Hlen.
  assert (G : forall s i,
            (find_if p s i = npos /\ Forall (fun c => p c = false) s
             \/ i + Z.of_nat (length s) > npos)
            \/ exists pre c post,
                 s = pre ++ c :: post /\ Forall (fun c => p c = false) pre
                 /\ p c = true /\ find_if p s i = i + Z.of_nat (length pre)).
  { clear. induction s as [|c s IH]; intros i; [left; left; now split|].
    simpl. destruct (p c) eqn:Hc.
    - right. exists [], c, s. repeat split; auto. simpl. lia.
    - destruct (IH (i + 1)) as [[[E F]|Hbig]|(pre & x & post & -> & F & Hx & E)].
      + left. left. split; [exact E|]. now constructor.
      + left. right. lia.
      + right. exists (c :: pre), x, post. repeat split; auto.
        rewrite E. simpl. lia. }
  destruct (G s 0) as [[H|H]|H]; [now left|lia|].
  right. destruct H as (pre & x & post & E & F & Hx & Ef).
  exists pre, x, post. now rewrite Ef.
Qed.

Lemma find_spec c s :
  Z.of_nat (length s) < npos ->
  (find c s = npos /\ Forall (fun x => x <> c) s)
  \/ exists pre post,
       s = pre ++ c :: post /\ Forall (fun x => x <> c) pre
       /\ find c s = Z.of_nat (length pre).
Proof.
  intros Hlen. unfold find.
  assert (Hne : forall l, Forall (fun x => Ascii.eqb c x = false) l ->
                  Forall (fun x => x <> c) l).
  { intros l H. eapply Forall_impl; [exact H|]. simpl. intros x Hx ->.
    rewrite Ascii.eqb_refl in Hx. discriminate. }
  destruct (find_if_spec (Ascii.eqb c) s Hlen)
    as [[E F]|(pre & x & post & E & F & Hx & Ef)].
  - left. split; [exact E|now apply Hne].
  - right. apply Ascii.eqb_eq in Hx. subst x.
    exists pre, post. repeat split; auto.
Qed.

Lemma find_hit c pre post :
  Forall (fun x => x <> c) pre ->
  find c (pre ++ c :: post) = Z.of_nat (length pre).
Proof.
  intros H. unfold find. rewrite find_if_app_hit.
  - lia.
  - eapply Forall_impl; [exact H|]. simpl. intros x Hx.
    destruct (Ascii.eqb_spec c x); [congruence|reflexivity].
  - apply Ascii.eqb_refl.
Qed.

Lemma find_miss c s : Forall (fun x => x <> c) s -> find c s = npos.
Proof.
  intros H. unfold find. apply find_if_none.
  eapply Forall_impl; [exact H|]. simpl. intros x Hx.
  destruct (Ascii.eqb_spec c x); [congruence|reflexivity].
Qed.

(** ** The hash table of the sequence names *)

Lemma hash_fill (names : list text) (n : Z) (key : text) :
  match for_ 0 n (fun i h => <[rd [] names i := i]> h)
          (∅ : gmap text Z) !! key with
  | Some id => last_named names n key id
  | None => forall i, 0 <= i < n -> rd [] names i <> key
  end.
Proof.
  destruct (Z.le_gt_cases 0 n) as [Hn|Hn].
  2:{ rewrite for_empty by lia. rewrite lookup_empty. intros; lia. }
  apply (for_invariant
           (fun I (m : gmap text Z) =>
              match m !! key with
              | Some id => last_named names I key id
              | None => forall i, 0 <= i < I -> rd [] names i <> key
              end)); [lia| |].
  - rewrite lookup_empty. intros; lia.
  - intros I m HI Hm.
    destruct (decide (rd [] names I = key)) as [E|E].
    + rewrite E, lookup_insert_eq. unfold last_named.
      split; [lia|]. split; [exact E|]. intros j Hj. lia.
    + rewrite lookup_insert_ne by exact E.
      destruct (m !! key) as [id|].
      * destruct Hm as (H1 & H2 & H3). unfold last_named.
        split; [lia|]. split; [exact H2|].
        intros j Hj. destruct (Z.eq_dec j I) as [->|]; [exact E|].
        apply H3. lia.
      * intros i Hi. destruct (Z.eq_dec i I) as [->|]; [exact E|].
        apply Hm. lia.
Qed.

(** X21. For a header without a table, [bam_init_header_hash] builds the
    table in which a name maps to the last index [i < n_targets] with that
    [target_name[i]], and in which a name that no sequence carries is
    absent; a second call changes nothing. *)
Theorem bam_init_header_hash_lookup (header : bam_header_t) (key : text) :
  hash header = None ->
  n_targets header <= Z.of_nat (length (target_name header)) ->
  bam_init_header_hash (bam_init_header_hash header) = bam_init_header_hash header
  /\ match header_table header !! key with
     | Some id => last_named (target_name header) (n_targets header) key id
     | None => forall i, 0 <= i < n_targets header ->
                 rd [] (target_name header) i <> key
     end.
Proof.
  intros Hh _. unfold header_table, bam_init_header_hash. rewrite Hh. simpl.
  split; [reflexivity|]. apply hash_fill.
Qed.

Lemma bam_init_header_hash_lookup_witness :
  bam_init_header_hash (bam_init_header_hash example_header)
  = bam_init_header_hash example_header
  /\ match header_table example_header !! lit "chr2" with
     | Some id =>
         last_named (target_name example_header) (n_targets example_header)
           (lit "chr2") id
     | None => forall i, 0 <= i < n_targets example_header ->
                 rd [] (target_name example_header) i <> lit "chr2"
     end.
Proof.
  apply (bam_init_header_hash_lookup example_header (lit "chr2"));
    [reflexivity | simpl; lia].
Defined.

(** ** bam_parse_region *)

Lemma substr_after pre c post :
  Z.of_nat (length post) <= npos ->
  substr (pre ++ c :: post) (Z.of_nat (length pre) + 1) npos = Some post.
Proof.
  intros H.
  replace (pre ++ c :: post) with ((pre ++ [c]) ++ post)
    by (now rewrite <- app_assoc).
  replace (Z.of_nat (length pre) + 1) with (Z.of_nat (length (pre ++ [c])))
    by (rewrite length_app; simpl; lia).
  now apply substr_suffix.
Qed.

Lemma digits_plain ds :
  Forall (fun c => is_digit c = true) ds ->
  Forall (fun c => c <> " "%char) ds /\ Forall (fun c => c <> ","%char) ds
  /\ Forall (fun c => c <> "-"%char) ds
  /\ Forall (fun c => negb (existsb (Ascii.eqb c) (lit "0123456789,-")) = false) ds.
Proof.
  intros H. repeat split; (eapply Forall_impl; [exact H|]);
    cbv beta; intros c Hc;
    destruct (is_digit_plain c Hc) as (_ & _ & _ & ? & ? & ? & ? & E);
    auto. now rewrite E.
Qed.

Lemma plain_name_parts name :
  plain_name name ->
  Forall (fun c => c <> " "%char) name /\ Forall (fun c => c <> ","%char) name
  /\ Forall (fun c => c <> ":"%char) name.
Proof.
  intros H. repeat split; (eapply Forall_impl; [exact H|]); simpl; tauto.
Qed.

(** The second half of [bam_parse_region]: parse the interval. *)
Lemma parse_interval (da db : text) (a b : Z) :
  Forall (fun c => is_digit c = true) da ->
  Forall (fun c => is_digit c = true) db ->
  Z.of_nat (length da) <= 32 -> Z.of_nat (length db) <= 32 ->
  atoi da = Some a -> atoi db = Some b ->
  let coords := da ++ "-"%char :: db in
  find "-" coords = Z.of_nat (length da)
  /\ substr coords 0 (find "-" coords) = Some da
  /\ substr coords (wrap64 (find "-" coords + 1)) npos = Some db.
Proof.
  intros Ha Hb La Lb Ea Eb coords.
  destruct (digits_plain da Ha) as (_ & _ & Hda & _).
  assert (Ef : find "-" coords = Z.of_nat (length da)) by now apply find_hit.
  rewrite Ef. split; [reflexivity|]. split; [apply substr_prefix|].
  unfold wrap64, wrap. rewrite Z.mod_small by lia.
  apply substr_after. unfold npos. lia.
Qed.

Lemma parse_single (da : text) :
  Forall (fun c => is_digit c = true) da ->
  Z.of_nat (length da) <= 32 ->
  find "-" da = npos
  /\ substr da 0 (find "-" da) = Some da
  /\ substr da (wrap64 (find "-" da + 1)) npos = Some da.
Proof.
  intros Ha La.
  destruct (digits_plain da Ha) as (_ & _ & Hda & _).
  assert (Ef : find "-" da = npos) by now apply find_miss.
  rewrite Ef. split; [reflexivity|].
  split; [apply substr_whole; unfold npos; lia|].
  change (wrap64 (npos + 1)) with 0. apply substr_whole. unfold npos. lia.
Qed.

Lemma parse_region_forms
    (header : bam_header_t) (name : text) (id a b : Z) :
  plain_name name -> Z.of_nat (length name) < 2 ^ 32 ->
  header_table header !! name = Some id ->
  0 <= a <= 2 ^ 31 - 1 -> 0 <= b <= 2 ^ 31 - 1 ->
  let beg := if 0 <? a then a - 1 else a in
  snd (bam_parse_region header
         (name ++ lit ":" ++ decimal a ++ lit "-" ++ decimal b))
  = Some {| ret := if beg <=? b then 0 else -1;
            ref_id := id; p_beg := beg; p_end := b |}
  /\ snd (bam_parse_region header (name ++ lit ":" ++ decimal a))
     = Some {| ret := 0; ref_id := id; p_beg := beg; p_end := a |}.
Proof.
  intros Hname Hlen Hid Ha Hb beg.
  destruct (plain_name_parts name Hname) as (N1 & N2 & N3).
  destruct (decimal_spec a ltac:(lia)) as (_ & Da & _ & _).
  destruct (decimal_spec b ltac:(lia)) as (_ & Db & _ & _).
  pose proof (decimal_length a Ha) as La. pose proof (decimal_length b Hb) as Lb.
  pose proof (atoi_decimal a Ha) as Ea. pose proof (atoi_decimal b Hb) as Eb.
  destruct (digits_plain _ Da) as (A1 & A2 & A3 & A4).
  destruct (digits_plain _ Db) as (B1 & B2 & B3 & B4).
  set (da := decimal a) in *. set (db := decimal b) in *.
  change (lit ":") with [":"%char]. change (lit "-") with ["-"%char].
  cbn [app].
  split.
  - set (coords := da ++ "-"%char :: db).
    set (region := name ++ ":"%char :: coords).
    assert (Hr1 : remove " " region = region).
    { apply remove_id. unfold region, coords.
      apply Forall_app; split; [exact N1|].
      apply Forall_cons; split; [discriminate|].
      apply Forall_app; split; [exact A1|].
      apply Forall_cons; split; [discriminate|exact B1]. }
    assert (Hr2 : remove "," region = region).
    { apply remove_id. unfold region, coords.
      apply Forall_app; split; [exact N2|].
      apply Forall_cons; split; [discriminate|].
      apply Forall_app; split; [exact A2|].
      apply Forall_cons; split; [discriminate|exact B2]. }
    assert (Hl : Z.of_nat (length region)
                 = Z.of_nat (length name) + 1 + Z.of_nat (length coords)).
    { unfold region. rewrite length_app. simpl. lia. }
    assert (Hlc : Z.of_nat (length coords) <= 65).
    { unfold coords. rewrite length_app. simpl. lia. }
    unfold bam_parse_region. cbn [snd].
    fold (header_table header).
    rewrite Hr1, Hr2.
    assert (Ef : find ":" region = Z.of_nat (length name)) by now apply find_hit.
    rewrite Ef.
    assert (Hnp : (Z.of_nat (length name) =? npos) = false)
      by (unfold npos; lia).
    assert (Hlt : (Z.of_nat (length name) <? Z.of_nat (length region)) = true)
      by lia.
    rewrite Hnp, Hlt.
    assert (Es : substr region (Z.of_nat (length name) + 1) npos = Some coords).
    { apply substr_after. unfold npos. lia. }
    rewrite Es. cbn [mbind option_bind].
    assert (Ec : count "-" coords = 1).
    { unfold coords.
      replace (da ++ "-"%char :: db) with (da ++ ["-"%char] ++ db) by reflexivity.
      rewrite !count_app.
      rewrite (count_none "-" da A3), (count_none "-" db B3). reflexivity. }
    assert (En : find_first_not_of (lit "0123456789,-") coords = npos).
    { unfold find_first_not_of. apply find_if_none. unfold coords.
      apply Forall_app; split; [exact A4|].
      apply Forall_cons; split; [reflexivity|exact B4]. }
    rewrite Ec, En. cbn [negb orb Z.eqb Z.ltb Z.compare Pos.compare Pos.compare_cont].
    change (npos =? npos) with true. cbn [negb orb].
    change (1 <? 1) with false.
    assert (Ep : substr region 0 (Z.of_nat (length name)) = Some name)
      by (unfold region; apply substr_prefix).
    rewrite Ep. cbn [mbind option_bind].
    rewrite Hid. cbn [mbind option_bind].
    rewrite Hlt, Es. cbn [mbind option_bind].
    destruct (parse_interval da db a b Da Db La Lb Ea Eb) as (P1 & P2 & P3).
    fold coords in P1, P2, P3.
    rewrite P2. cbn [mbind option_bind]. rewrite Ea. cbn [mbind option_bind].
    rewrite P3. cbn [mbind option_bind]. rewrite Eb. cbn [mbind option_bind].
    reflexivity.
  - set (region := name ++ ":"%char :: da).
    assert (Hr1 : remove " " region = region).
    { apply remove_id. unfold region.
      apply Forall_app; split; [exact N1|].
      apply Forall_cons; split; [discriminate|exact A1]. }
    assert (Hr2 : remove "," region = region).
    { apply remove_id. unfold region.
      apply Forall_app; split; [exact N2|].
      apply Forall_cons; split; [discriminate|exact A2]. }
    assert (Hl : Z.of_nat (length region)
                 = Z.of_nat (length name) + 1 + Z.of_nat (length da)).
    { unfold region. rewrite length_app. simpl. lia. }
    unfold bam_parse_region. cbn [snd].
    fold (header_table header).
    rewrite Hr1, Hr2.
    assert (Ef : find ":" region = Z.of_nat (length name)) by now apply find_hit.
    rewrite Ef.
    assert (Hnp : (Z.of_nat (length name) =? npos) = false)
      by (unfold npos; lia).
    assert (Hlt : (Z.of_nat (length name) <? Z.of_nat (length region)) = true)
      by lia.
    rewrite Hnp, Hlt.
    assert (Es : substr region (Z.of_nat (length name) + 1) npos = Some da).
    { apply substr_after. unfold npos. lia. }
    rewrite Es. cbn [mbind option_bind].
    assert (Ec : count "-" da = 0) by now apply count_none.
    assert (En : find_first_not_of (lit "0123456789,-") da = npos).
    { unfold find_first_not_of. now apply find_if_none. }
    rewrite Ec, En.
    change (npos =? npos) with true. change (1 <? 0) with false.
    cbn [negb orb].
    assert (Ep : substr region 0 (Z.of_nat (length name)) = Some name)
      by (unfold region; apply substr_prefix).
    rewrite Ep. cbn [mbind option_bind].
    rewrite Hid. cbn [mbind option_bind].
    rewrite Hlt, Es. cbn [mbind option_bind].
    destruct (parse_single da Da La) as (P1 & P2 & P3).
    rewrite P2. cbn [mbind option_bind]. rewrite Ea. cbn [mbind option_bind].
    rewrite P3. cbn [mbind option_bind]. rewrite Ea. cbn [mbind option_bind].
    fold beg.
    replace (beg <=? a) with true; [reflexivity|].
    symmetry. apply Z.leb_le. unfold beg. destruct (0 <? a); lia.
Qed.

(** X22. For a sequence name without space, comma or colon that the table
    maps to [id], and coordinates [0 <= a, b < 2^31] written in decimal:
    on [name:a-b], [bam_parse_region] stores the reference [id], the
    bounds [beg = a - 1] ([a] itself when [a = 0]) and [end = b], and
    returns 0 when [beg <= end] and -1 otherwise; on [name:a] it returns 0
    with the same [beg] and [end = a]. *)
Theorem bam_parse_region_interval
    (header : bam_header_t) (name : text) (id a b : Z) :
  plain_name name -> Z.of_nat (length name) < 2 ^ 32 ->
  header_table header !! name = Some id ->
  0 <= a <= 2 ^ 31 - 1 -> 0 <= b <= 2 ^ 31 - 1 ->
  let beg := if 0 <? a then a - 1 else a in
  snd (bam_parse_region header
         (name ++ lit ":" ++ decimal a ++ lit "-" ++ decimal b))
  = Some {| ret := if beg <=? b then 0 else -1;
            ref_id := id; p_beg := beg; p_end := b |}
  /\ snd (bam_parse_region header (name ++ lit ":" ++ decimal a))
     = Some {| ret := 0; ref_id := id; p_beg := beg; p_end := a |}.
Proof. exact (parse_region_forms header name id a b). Qed.

Lemma plain_chr2 : plain_name (lit "chr2").
Proof.
  unfold plain_name. repeat (apply Forall_cons; split; [repeat split; discriminate|]).
  apply Forall_nil. exact I.
Qed.

Lemma bam_parse_region_interval_witness :
  let beg := if 0 <? 1000 then 1000 - 1 else 1000 in
  snd (bam_parse_region example_header
         (lit "chr2" ++ lit ":" ++ decimal 1000 ++ lit "-" ++ decimal 1500))
  = Some {| ret := if beg <=? 1500 then 0 else -1;
            ref_id := 1; p_beg := beg; p_end := 1500 |}
  /\ snd (bam_parse_region example_header (lit "chr2" ++ lit ":" ++ decimal 1000))
     = Some {| ret := 0; ref_id := 1; p_beg := beg; p_end := 1000 |}.
Proof.
  apply (bam_parse_region_interval example_header (lit "chr2") 1 1000 1500);
    [exact plain_chr2 | simpl; lia | vm_compute; reflexivity | lia | lia].
Defined.

(** X23. [bam_parse_region] gives the same result on a region string and
    on that string without its spaces and commas. *)
Theorem bam_parse_region_separators (header : bam_header_t) (region : text) :
  bam_parse_region header (remove "," (remove " " region))
  = bam_parse_region header region.
Proof.
  unfold bam_parse_region.
  replace (remove "," (remove " " (remove "," (remove " " region))))
    with (remove "," (remove " " region)); [reflexivity|].
  rewrite (remove_comm " " "," (remove " " region)).
  now rewrite !remove_remove.
Qed.

Lemma header_table_lookup header key id :
  hash header = None ->
  header_table header !! key = Some id ->
  0 <= id < n_targets header /\ rd [] (target_name header) id = key.
Proof.
  intros Hh E. unfold header_table, bam_init_header_hash in E.
  rewrite Hh in E. simpl in E.
  pose proof (hash_fill (target_name header) (n_targets header) key) as H.
  rewrite E in H. destruct H as (H1 & H2 & _). now split.
Qed.

Lemma target_len_init header :
  target_len (bam_init_header_hash header) = target_len header.
Proof. unfold bam_init_header_hash. now destruct (hash header). Qed.

Lemma length_remove c s : (length (remove c s) <= length s)%nat.
Proof. unfold remove. apply length_filter. Qed.

Lemma whole_sequence_well_formed header r p :
  hash header = None ->
  whole_sequence header r = Some p -> well_formed header r p.
Proof.
  intros Hh. unfold whole_sequence.
  destruct (header_table header !! r) as [id|] eqn:E; intros [= <-]; cbn.
  - destruct (header_table_lookup header r id Hh E) as [H1 H2].
    split; [destruct (0 <=? _); auto|].
    destruct (Z.leb_spec 0 (rd 0 (target_len header) id)); [|discriminate].
    intros _. cbn. repeat split; try lia. now rewrite H2.
  - split; [now right|discriminate].
Qed.

(** X24. Whenever [bam_parse_region] returns, on a header whose table is
    not built yet, its value is 0 or -1; when it is 0, the stored bounds
    have [0 <= beg <= end], the stored reference is an index below
    [n_targets], and the name of that sequence is a prefix of the region
    string without its spaces and commas. *)
Theorem bam_parse_region_result
    (header : bam_header_t) (region : text) (p : parsed) :
  hash header = None ->
  n_targets header <= Z.of_nat (length (target_name header)) ->
  Z.of_nat (length region) < npos ->
  snd (bam_parse_region header region) = Some p ->
  (ret p = 0 \/ ret p = -1)
  /\ (ret p = 0 ->
      0 <= p_beg p <= p_end p
      /\ 0 <= ref_id p < n_targets header
      /\ rd [] (target_name header) (ref_id p)
         `prefix_of` remove "," (remove " " region)).
Proof.
  intros Hh _ Hlen.
  change (snd (bam_parse_region header region) = Some p ->
          well_formed header (remove "," (remove " " region)) p).
  unfold bam_parse_region. cbn [snd]. fold (header_table header).
  rewrite (target_len_init header).
  set (r := remove "," (remove " " region)).
  assert (Hr : Z.of_nat (length r) < npos).
  { pose proof (length_remove "," (remove " " region)).
    pose proof (length_remove " " region). unfold r. lia. }
  assert (Hll : (Z.of_nat (length r) <? Z.of_nat (length r)) = false) by lia.
  destruct (find_spec ":" r Hr) as [[Ef Hno]|(pre & post & Er & Hpre & Ef)].
  - (* no colon *)
    rewrite Ef. change (npos =? npos) with true. cbv iota. rewrite Hll.
    cbn [mbind option_bind]. rewrite Hll.
    apply whole_sequence_well_formed. exact Hh.
  - rewrite Ef.
    assert (Hl : Z.of_nat (length r)
                 = Z.of_nat (length pre) + 1 + Z.of_nat (length post)).
    { rewrite Er, length_app. simpl. lia. }
    assert (Hnp : (Z.of_nat (length pre) =? npos) = false) by lia.
    assert (Hlt : (Z.of_nat (length pre) <? Z.of_nat (length r)) = true) by lia.
    rewrite Hnp, Hlt.
    assert (Es : substr r (Z.of_nat (length pre) + 1) npos = Some post).
    { rewrite Er. apply substr_after. lia. }
    rewrite Es. cbn [mbind option_bind].
    destruct (negb (find_first_not_of (lit "0123456789,-") post =? npos)
              || (1 <? count "-" post)).
    + (* the whole string is the name *)
      rewrite substr_whole by lia. cbn [mbind option_bind].
      destruct (header_table header !! r) as [id|] eqn:E;
        cbn [mbind option_bind]; rewrite ?Hll;
        intros H; apply (whole_sequence_well_formed header r p Hh);
        unfold whole_sequence; rewrite E; exact H.
    + assert (Ep : substr r 0 (Z.of_nat (length pre)) = Some pre)
        by (rewrite Er; apply substr_prefix).
      rewrite Ep. cbn [mbind option_bind].
      assert (G : forall id,
                0 <= id < n_targets header ->
                rd [] (target_name header) id `prefix_of` r ->
                (coords ← substr r (Z.of_nat (length pre) + 1) npos;
                 let parse := find "-" coords in
                 first ← substr coords 0 parse;
                 b ← atoi first;
                 let b := if 0 <? b then b - 1 else b in
                 last ← substr coords (wrap64 (parse + 1)) npos;
                 e ← atoi last;
                 Some {| ret := if b <=? e then 0 else -1;
                         ref_id := id; p_beg := b; p_end := e |}) = Some p ->
                well_formed header r p).
      { intros id Hid Hpx. rewrite Es. cbn [mbind option_bind].
        assert (Hpost : Z.of_nat (length post) < npos) by lia.
        assert (Hfin : forall f la,
                  Forall (fun x => x <> "-"%char) f ->
                  (b ← atoi f;
                   let b := if 0 <? b then b - 1 else b in
                   e ← atoi la;
                   Some {| ret := if b <=? e then 0 else -1;
                           ref_id := id; p_beg := b; p_end := e |}) = Some p ->
                  well_formed header r p).
        { intros f la Hf.
          destruct (atoi f) as [b|] eqn:Eb; [|discriminate].
          pose proof (atoi_nonneg f b Hf Eb) as Hb.
          cbn [mbind option_bind]. cbv zeta.
          destruct (atoi la) as [e|]; [|discriminate].
          cbn [mbind option_bind]. intros [= <-]. split; cbn.
          - destruct (_ <=? e); auto.
          - destruct (Z.leb_spec (if 0 <? b then b - 1 else b) e);
              [|discriminate].
            intros _. split; [|now split].
            destruct (Z.ltb_spec 0 b); lia. }
        destruct (find_spec "-" post Hpost)
          as [[Ed Hnd]|(f & la & Epost & Hf & Ed)]; rewrite Ed.
        - rewrite substr_whole by lia. cbn [mbind option_bind].
          change (wrap64 (npos + 1)) with 0.
          intros H. apply (Hfin post post Hnd).
          rewrite substr_whole in H by lia. exact H.
        - assert (E1 : substr post 0 (Z.of_nat (length f)) = Some f)
            by (rewrite Epost; apply substr_prefix).
          assert (E2 : substr post (wrap64 (Z.of_nat (length f) + 1)) npos
                       = Some la).
          { unfold wrap64, wrap. rewrite Z.mod_small.
            - rewrite Epost. apply substr_after.
              rewrite Epost, length_app in Hpost. simpl in Hpost. lia.
            - rewrite Epost, length_app in Hpost. simpl in Hpost.
              unfold npos in *. lia. }
          rewrite E1. cbn [mbind option_bind].
          intros H. apply (Hfin f la Hf).
          rewrite E2 in H. exact H. }
      assert (Hpre_px : pre `prefix_of` r) by (rewrite Er; now eexists).
      destruct (header_table header !! pre) as [id|] eqn:E1;
        cbn [mbind option_bind].
      * rewrite Hlt.
        destruct (header_table_lookup header pre id Hh E1) as [H1 H2].
        apply G; [exact H1|now rewrite H2].
      * destruct (header_table header !! r) as [id|] eqn:E2.
        -- rewrite Hlt.
           destruct (header_table_lookup header r id Hh E2) as [H1 H2].
           apply G; [exact H1|now rewrite H2].
        -- intros [= <-]. split; [now right|discriminate].
Qed.

Lemma bam_parse_region_result_witness :
  let p := {| ret := 0; ref_id := 1; p_beg := 999; p_end := 1500 |} in
  (ret p = 0 \/ ret p = -1)
  /\ (ret p = 0 ->
      0 <= p_beg p <= p_end p
      /\ 0 <= ref_id p < n_targets example_header
      /\ rd [] (target_name example_header) (ref_id p)
         `prefix_of` remove "," (remove " " (lit "chr2:1,000-1,500"))).
Proof.
  apply (bam_parse_region_result example_header (lit "chr2:1,000-1,500"));
    [reflexivity | simpl; lia | vm_compute; reflexivity | vm_compute; reflexivity].
Defined.

(** X25. A region string without a colon names a whole sequence: if the
    table holds the string without its spaces and commas,
    [bam_parse_region] stores that reference, [beg = 0] and
    [end = target_len[ref_id]], and returns 0 (-1 for a negative length);
    if the table does not hold it, the function returns -1 and leaves -1
    in the three results. *)
Theorem bam_parse_region_whole_sequence (header : bam_header_t) (region : text) :
  Forall (fun c => c <> ":"%char) region ->
  let r := remove "," (remove " " region) in
  snd (bam_parse_region header region)
  = match header_table header !! r with
    | Some id =>
        Some {| ret := if 0 <=? rd 0 (target_len header) id then 0 else -1;
                ref_id := id; p_beg := 0;
                p_end := rd 0 (target_len header) id |}
    | None => Some {| ret := -1; ref_id := -1; p_beg := -1; p_end := -1 |}
    end.
Proof.
  intros Hno r.
  unfold bam_parse_region. cbn [snd]. fold (header_table header).
  rewrite (target_len_init header). fold r.
  assert (Hr : Forall (fun c => c <> ":"%char) r).
  { unfold r, remove. apply Forall_forall. intros c Hc.
    apply list_elem_of_filter in Hc. destruct Hc as [_ Hc].
    apply list_elem_of_filter in Hc. destruct Hc as [_ Hc].
    rewrite Forall_forall in Hno. now apply Hno. }
  assert (Ef : find ":" r = npos) by now apply find_miss.
  assert (Hll : (Z.of_nat (length r) <? Z.of_nat (length r)) = false) by lia.
  rewrite Ef. change (npos =? npos) with true. cbv iota. rewrite Hll.
  cbn [mbind option_bind]. rewrite Hll.
  destruct (header_table header !! r); reflexivity.
Qed.

Lemma bam_parse_region_whole_sequence_witness :
  let r := remove "," (remove " " (lit "chr M")) in
  snd (bam_parse_region example_header (lit "chr M"))
  = match header_table example_header !! r with
    | Some id =>
        Some {| ret := if 0 <=? rd 0 (target_len example_header) id then 0 else -1;
                ref_id := id; p_beg := 0;
                p_end := rd 0 (target_len example_header) id |}
    | None => Some {| ret := -1; ref_id := -1; p_beg := -1; p_end := -1 |}
    end.
Proof.
  apply (bam_parse_region_whole_sequence example_header (lit "chr M")).
  repeat (apply Forall_cons; split; [discriminate|]). apply Forall_nil. exact I.
Defined.

(** ** The windows of main_ld and main_sfs *)

Lemma parse_region_interval
    (header : bam_header_t) (name : text) (id a b : Z) :
  plain_name name -> Z.of_nat (length name) < 2 ^ 32 ->
  header_table header !! name = Some id ->
  0 <= a <= 2 ^ 31 - 1 -> 0 <= b <= 2 ^ 31 - 1 ->
  snd (bam_parse_region header
         (name ++ lit ":" ++ decimal a ++ lit "-" ++ decimal b))
  = Some {| ret := if (if 0 <? a then a - 1 else a) <=? b then 0 else -1;
            ref_id := id; p_beg := if 0 <? a then a - 1 else a; p_end := b |}.
Proof.
  intros H1 H2 H3 H4 H5.
  exact (proj1 (parse_region_forms header name id a b H1 H2 H3 H4 H5)).
Qed.

Lemma windows_fit (flag BAM_WINDOW beg end_ win_size cw nw : Z) :
  Z.land flag BAM_WINDOW <> 0 -> 1 <= win_size ->
  num_windows flag BAM_WINDOW beg end_ win_size = Some nw ->
  0 <= cw < nw ->
  0 <= cw * win_size /\ (cw + 1) * win_size <= end_ - beg - 1.
Proof.
  intros Hf Hw Hnw Hcw.
  unfold num_windows in Hnw.
  destruct (Z.eqb_spec (Z.land flag BAM_WINDOW) 0) as [|_]; [contradiction|].
  cbn [negb] in Hnw.
  destruct (Z.eqb_spec win_size 0); [lia|]. injection Hnw as <-.
  assert (Hpos : 0 <= end_ - beg - 1).
  { destruct (Z.lt_ge_cases (end_ - beg - 1) 0) as [Hneg|]; [|easy].
    pose proof (Z.quot_opp_l (- (end_ - beg - 1)) win_size ltac:(lia)) as Hq.
    rewrite Z.opp_involutive in Hq.
    pose proof (Z.quot_pos (- (end_ - beg - 1)) win_size ltac:(lia) ltac:(lia)).
    lia. }
  rewrite Z.quot_div_nonneg in Hcw by lia.
  split; [apply Z.mul_nonneg_nonneg; lia|].
  pose proof (Z.mul_div_le (end_ - beg - 1) win_size ltac:(lia)).
  assert ((cw + 1) * win_size <= (end_ - beg - 1) / win_size * win_size)
    by (apply Z.mul_le_mono_nonneg_r; lia).
  lia.
Qed.

Lemma window_bounds_returns
    (header : bam_header_t) (flag BAM_WINDOW chr beg end_ win_size cw nw : Z) :
  Z.land flag BAM_WINDOW <> 0 ->
  plain_name (rd [] (target_name header) chr) ->
  Z.of_nat (length (rd [] (target_name header) chr)) < 2 ^ 32 ->
  header_table header !! rd [] (target_name header) chr = Some chr ->
  0 <= beg < end_ -> end_ <= 2 ^ 31 - 1 -> 1 <= win_size ->
  num_windows flag BAM_WINDOW beg end_ win_size = Some nw ->
  0 <= cw < nw ->
  snd (window_bounds header flag BAM_WINDOW chr beg end_ win_size cw)
  = Returns (chr, beg + cw * win_size, beg + (cw + 1) * win_size - 1).
Proof.
  intros Hf Hname Hlen Hid [Hbeg _] Hend Hw Hnw Hcw.
  destruct (windows_fit flag BAM_WINDOW beg end_ win_size cw nw Hf Hw Hnw Hcw)
    as [Hcwm Hmul].
  assert (Hstep : (cw + 1) * win_size = cw * win_size + win_size) by lia.
  unfold window_bounds.
  destruct (Z.eqb_spec (Z.land flag BAM_WINDOW) 0) as [|_]; [contradiction|].
  cbn [negb]. unfold window_coord.
  pose proof (parse_region_interval header (rd [] (target_name header) chr) chr
                (beg + cw * win_size + 1) ((cw + 1) * win_size + (beg - 1))
                Hname Hlen Hid ltac:(lia) ltac:(lia)) as Hp.
  destruct (bam_parse_region header _) as [header' [p|]];
    cbn [snd] in Hp |- *; [|discriminate].
  injection Hp as ->. cbn [ret ref_id p_beg p_end].
  destruct (Z.ltb_spec 0 (beg + cw * win_size + 1)); [|lia].
  destruct (Z.leb_spec (beg + cw * win_size + 1 - 1)
              ((cw + 1) * win_size + (beg - 1))); [|lia].
  cbn. do 2 f_equal; [f_equal|]; lia.
Qed.

(** X26. With the window flag set, a region [0 <= beg < end < 2^31] of a
    sequence whose name (without space, comma or colon) the table maps to
    [chr], and a window size of at least 1: for every window
    [cw < num_windows], the coordinate string of the window parses to the
    sequence [chr] and the bounds [t->beg = beg + cw * win_size] and
    [t->end = beg + (cw + 1) * win_size - 1], which lie inside the
    region. *)
Theorem window_bounds_inside
    (header : bam_header_t) (flag BAM_WINDOW chr beg end_ win_size cw nw : Z) :
  Z.land flag BAM_WINDOW <> 0 ->
  plain_name (rd [] (target_name header) chr) ->
  Z.of_nat (length (rd [] (target_name header) chr)) < 2 ^ 32 ->
  header_table header !! rd [] (target_name header) chr = Some chr ->
  0 <= beg < end_ -> end_ <= 2 ^ 31 - 1 -> 1 <= win_size ->
  num_windows flag BAM_WINDOW beg end_ win_size = Some nw ->
  0 <= cw < nw ->
  snd (window_bounds header flag BAM_WINDOW chr beg end_ win_size cw)
  = Returns (chr, beg + cw * win_size, beg + (cw + 1) * win_size - 1)
  /\ beg <= beg + cw * win_size <= beg + (cw + 1) * win_size - 1
  /\ beg + (cw + 1) * win_size - 1 < end_.
Proof.
  intros Hf Hname Hlen Hid Hbeg Hend Hw Hnw Hcw.
  split.
  - now apply (window_bounds_returns header flag BAM_WINDOW chr beg end_
                 win_size cw nw).
  - destruct (windows_fit flag BAM_WINDOW beg end_ win_size cw nw Hf Hw Hnw Hcw)
      as [Hcwm Hmul].
    lia.
Qed.

Lemma window_bounds_inside_witness :
  snd (window_bounds example_header 1 1 1 0 2000 500 2)
  = Returns (1, 0 + 2 * 500, 0 + (2 + 1) * 500 - 1)
  /\ 0 <= 0 + 2 * 500 <= 0 + (2 + 1) * 500 - 1
  /\ 0 + (2 + 1) * 500 - 1 < 2000.
Proof.
  apply (window_bounds_inside example_header 1 1 1 0 2000 500 2 3);
    [discriminate | exact plain_chr2 | simpl; lia | vm_compute; reflexivity
    | lia | lia | lia | reflexivity | lia].
Defined.

(** X27. Under the conditions of the previous property, the position
    [beg + (cw + 1) * win_size - 1] after window [cw], which lies in the
    region, is inside no window: for every window [cw' < num_windows] the
    test [t->beg <= pos && t->end > pos] of the pileup is false on the
    bounds of that window. *)
Theorem windows_skip_position
    (header : bam_header_t) (flag BAM_WINDOW chr beg end_ win_size cw cw' nw : Z) :
  Z.land flag BAM_WINDOW <> 0 ->
  plain_name (rd [] (target_name header) chr) ->
  Z.of_nat (length (rd [] (target_name header) chr)) < 2 ^ 32 ->
  header_table header !! rd [] (target_name header) chr = Some chr ->
  0 <= beg < end_ -> end_ <= 2 ^ 31 - 1 -> 1 <= win_size ->
  num_windows flag BAM_WINDOW beg end_ win_size = Some nw ->
  0 <= cw < nw -> 0 <= cw' < nw ->
  let pos := beg + (cw + 1) * win_size - 1 in
  beg <= pos < end_
  /\ exists b e,
       snd (window_bounds header flag BAM_WINDOW chr beg end_ win_size cw')
       = Returns (chr, b, e)
       /\ (b <=? pos) && (pos <? e) = false.
Proof.
  intros Hf Hname Hlen Hid Hbeg Hend Hw Hnw Hcw Hcw' pos.
  destruct (windows_fit flag BAM_WINDOW beg end_ win_size cw nw Hf Hw Hnw Hcw)
    as [Hcwm Hmul].
  split; [unfold pos; lia|].
  exists (beg + cw' * win_size), (beg + (cw' + 1) * win_size - 1).
  split.
  - now apply (window_bounds_returns header flag BAM_WINDOW chr beg end_
                 win_size cw' nw).
  - unfold pos.
    destruct (Z.le_gt_cases cw' cw) as [Hle|Hgt].
    + assert ((cw' + 1) * win_size <= (cw + 1) * win_size)
        by (apply Z.mul_le_mono_nonneg_r; lia).
      lia.
    + assert ((cw + 1) * win_size <= cw' * win_size)
        by (apply Z.mul_le_mono_nonneg_r; lia).
      lia.
Qed.

Lemma windows_skip_position_witness :
  let pos := 0 + (0 + 1) * 500 - 1 in
  0 <= pos < 2000
  /\ exists b e,
       snd (window_bounds example_header 1 1 1 0 2000 500 1) = Returns (1, b, e)
       /\ (b <=? pos) && (pos <? e) = false.
Proof.
  apply (windows_skip_position example_header 1 1 1 0 2000 500 0 1 3);
    [discriminate | exact plain_chr2 | simpl; lia | vm_compute; reflexivity
    | lia | lia | lia | reflexivity | lia | lia].
Defined.

(** ** get_refid *)

Lemma starts_with_app pat post : starts_with pat (pat ++ post) = true.
Proof.
  induction pat as [|c pat IH]; [reflexivity|]. simpl.
  now rewrite Ascii.eqb_refl.
Qed.

Lemma starts_with_spec pat s :
  starts_with pat s = true <-> exists post, s = pat ++ post.
Proof.
  split.
  - revert s. induction pat as [|c pat IH]; intros s H; [now exists s|].
    destruct s as [|x s]; [discriminate|]. simpl in H.
    apply andb_true_iff in H. destruct H as [Hc H].
    apply Ascii.eqb_eq in Hc. subst x.
    destruct (IH s H) as [post ->]. now exists post.
  - intros [post ->]. apply starts_with_app.
Qed.

Lemma strstr_none s pat :
  strstr s pat = None <-> forall pre post, s <> pre ++ pat ++ post.
Proof.
  induction s as [|c s IH]; simpl.
  - destruct (starts_with pat []) eqn:E.
    + split; [discriminate|]. intros H. exfalso.
      apply starts_with_spec in E. destruct E as [post E].
      apply (H [] post). exact E.
    + split; [|reflexivity]. intros _ pre post E'.
      symmetry in E'. apply app_eq_nil in E'. destruct E' as [-> E'].
      apply app_eq_nil in E'. destruct E' as [-> ->].
      discriminate E.
  - destruct (starts_with pat (c :: s)) eqn:E.
    + split; [discriminate|]. intros H. exfalso.
      apply starts_with_spec in E. destruct E as [post E].
      apply (H [] post). exact E.
    + rewrite IH. split.
      * intros H pre post E'. destruct pre as [|x pre].
        -- simpl in E'. rewrite E' in E. now rewrite starts_with_app in E.
        -- injection E' as -> E'. now apply (H pre post).
      * intros H pre post E'. apply (H (c :: pre) post). simpl. now rewrite E'.
Qed.

(** Whether a text starts with [pat] is decided by its first characters. *)
Lemma starts_with_long pat s u :
  (length pat <= length s)%nat ->
  starts_with pat (s ++ u) = starts_with pat s.
Proof.
  revert s. induction pat as [|c pat IH]; intros s H; [reflexivity|].
  destruct s as [|x s]; [simpl in H; lia|]. simpl.
  rewrite IH by (simpl in H; lia). reflexivity.
Qed.

Lemma strstr_hit s pat : starts_with pat s = true -> strstr s pat = Some s.
Proof. intros H. destruct s; simpl; now rewrite H. Qed.

Lemma strstr_first pre tag2 c t pat :
  length pat = S (length tag2) -> pat = tag2 ++ [c] ->
  strstr (pre ++ tag2) pat = None ->
  strstr (pre ++ pat ++ t) pat = Some (pat ++ t).
Proof.
  intros Hlen Hpat. induction pre as [|x pre IH]; intros Hn.
  - apply strstr_hit, starts_with_app.
  - simpl in Hn |- *.
    destruct (starts_with pat (x :: pre ++ tag2)) eqn:E; [discriminate|].
    replace (x :: pre ++ pat ++ t) with ((x :: pre ++ tag2) ++ c :: t).
    2:{ rewrite Hpat. simpl. now rewrite <- !app_assoc. }
    rewrite starts_with_long by (simpl; rewrite length_app; lia).
    rewrite E.
    replace ((x :: pre ++ tag2) ++ c :: t) with (x :: pre ++ pat ++ t).
    2:{ rewrite Hpat. simpl. now rewrite <- !app_assoc. }
    now apply IH.
Qed.

Lemma field_length_spec id rest :
  Forall field_char id ->
  match rest with
  | [] => True
  | c :: _ => c = "009"%char \/ c = "010"%char
  end ->
  field_length (id ++ rest) = Z.of_nat (length id).
Proof.
  intros Hid Hrest. induction Hid as [|c id [H1 H2] _ IH]; simpl.
  - destruct rest as [|c rest]; [reflexivity|].
    destruct Hrest as [->| ->]; reflexivity.
  - destruct (Ascii.eqb_spec c "009"); [contradiction|].
    destruct (Ascii.eqb_spec c "010"); [contradiction|]. simpl.
    rewrite IH. lia.
Qed.

(** X28. When the first [AS:] of the header text is followed by a field
    of fewer than 200 characters, none a tab or a newline, that ends at a
    tab, at a newline or with the text, [get_refid] returns that field. *)
Theorem get_refid_field (pre id rest : text) :
  strstr (pre ++ lit "AS") (lit "AS:") = None ->
  Forall field_char id ->
  match rest with
  | [] => True
  | c :: _ => c = "009"%char \/ c = "010"%char
  end ->
  Z.of_nat (length id) < idblock ->
  get_refid (pre ++ lit "AS:" ++ id ++ rest) = Returns id.
Proof.
  intros Hpre Hid Hrest Hlen. unfold get_refid.
  rewrite (strstr_first pre (lit "AS") ":" (id ++ rest) (lit "AS:"))
    by (reflexivity || exact Hpre).
  change (drop 3 (lit "AS:" ++ id ++ rest)) with (id ++ rest).
  rewrite field_length_spec by assumption.
  destruct (Z.ltb_spec (Z.of_nat (length id)) idblock); [|lia].
  rewrite Nat2Z.id, take_app_length. reflexivity.
Qed.

Lemma get_refid_field_witness :
  get_refid (lit "@SQ	SN:chr1	LN:1000	" ++ lit "AS:" ++ lit "hg19" ++ lit "	M5:0")
  = Returns (lit "hg19").
Proof.
  apply (get_refid_field (lit "@SQ	SN:chr1	LN:1000	") (lit "hg19") (lit "	M5:0"));
    [reflexivity
    | repeat (apply Forall_cons; split; [split; discriminate|]); apply Forall_nil; exact I
    | left; reflexivity
    | vm_compute; reflexivity].
Defined.

(** X29. [get_refid] ends in [fatalError] exactly when the header text
    does not contain [AS:]. *)
Theorem get_refid_exits (htext : text) :
  get_refid htext = Exits
  <-> forall pre post, htext <> pre ++ lit "AS:" ++ post.
Proof.
  rewrite <- strstr_none. unfold get_refid.
  destruct (strstr htext (lit "AS:")) as [v|].
  - split; [|discriminate].
    destruct (field_length (drop 3 v) <? idblock); discriminate.
  - split; reflexivity.
Qed.

End RegionProperties.
